(* ===== verification/_CoqProject ===== *)
-Q . S2P
Prelude.v
QuoteUrl.v
Resource.v
CacheSpec.v
Globals.v
Fetcher.v
AsyncRoute.v
Timeout.v
Context.v
Spinner.v
App.v
Host.v
Routes.v
Race.v
EventLoop.v
Timeline.v
