(* ===== verification/Prelude.v ===== *)
(** * A verification development of react-router-suspense-demo

    The program ([src/src/index.js]) is a React 16.4-alpha demo of
    suspense-driven rendering.  Its parts, and how they interact:

    - the resource cache [createResource] (index.js 10-11, 29-58): two
      module-level JS [Map]s, [cache] (key -> resolved value) and [pending]
      (key -> in-flight promise), shared by every resource; [read] returns a
      cached value, re-throws the in-flight promise of its key, or starts a
      fetch, registers it and throws it; [flush] rebinds both globals to
      fresh maps; [refetch] deletes a key and calls [read] on it.  The
      settlement callback of a fetch reads the globals when it runs.
    - the simple fetcher [createFetcher] (index.js 14-26): a per-instance
      [resolved] map, no coalescing of in-flight requests.
    - the [Timeout] wrapper (index.js 61-72) and [AsyncRouteProvider]
      (122-135): render the children with the expiration flag, hide them
      once it is set, and add the fallback.  The flag itself comes from the
      host's [React.Timeout], which is not code of this repository.
    - the route transition machine [AsyncRouteRenderer] (index.js 152-200):
      a class component whose state [{incoming, outgoing}] is updated in
      [componentDidUpdate] from the previous and current [(match,
      didExpire)], and whose [render] decides whether the route's content
      is shown.  [AsyncRoute] (137-150) wires it to the router.
    - the sample components [Stock] and [Delay] (102-118), which read from
      the two resources while rendering, and the route table (202-269).

    Layout of the library (one file per component, in dependency order):
    - [Prelude] (this file): the render monad [Render S A] that models a JS
      function which reads and writes state [S] and may throw a promise
      (the state changes made before the throw persist, as in JS); the
      element trees [vnode] that render functions return; the [Resource]
      class, the contract a suspending cache offers its clients, and its
      lift to one part of a larger state; shared tactics, the [suspense]
      hint database and generic lemmas.
    - [QuoteUrl]: Module [QuoteUrl], the URL the method of [ensureQuote]
      fetches (index.js 74-79) and a decoder of it on ASCII lists.
    - [Resource]: Module [CreateResource], the global [cache]/[pending]
      maps, the in-flight fetches and the operations [read], [flush],
      [refetch] and the settlement callbacks ([fulfil], [reject]), as
      functions on an explicit [World] record and as an event step
      function [step]/[run].
    - [CacheSpec]: Module [CacheSpec], the abstract per-key contract of
      [createResource] (a key is absent, loading on one promise, or loaded
      with a value; [aread], [aflush], [asettle], [arefetch]), the
      abstraction [abs] that reads each key's status off [cache] and
      [pending], and the refinement of the implementation's runs.
    - [Globals]: Module [Globals], the bindings [let cache] and [let
      pending] as references to [Map] objects in a heap, every operation
      of [createResource] through them, [flush] allocating new objects,
      and [CacheProvider] / [withCache] handing out the object [cache]
      is bound to (index.js 85-99); [deref] reads the value model off it.
    - [Fetcher]: Module [CreateFetcher], the closure's [resolved] map,
      [read] and the settlement callback of [createFetcher].
    - [AsyncRoute]: Module [AsyncRouteRenderer], the component's state
      as the JS object it is (a [gmap string bool], merged by [setState]),
      [componentDidUpdate], [render], and React's update cycle ([commit],
      [update]) as host semantics; the spec's decision table and
      transition function as abstract specifications.
    - [Timeout]: Module [TimeoutView] ([Timeout], [AsyncRouteProvider]);
      Module [Gate], the host's [React.Timeout] timer modelled from the
      spec (mount, one-shot callback, cancellation at unmount); Module
      [Driven], the prop spreading of [AsyncRoute] ([with_inputs]).
    - [Context]: Module [AsyncRouteCtx], [createContext('asyncRoute')]
      (index.js 120), the provider of [AsyncRouteProvider] whose value is
      the flag, and the consumer of [AsyncRoute] that reads the nearest
      provider or the default; JS truthiness and [===] on the values it
      holds, which justify the boolean [didExpire] of the other files.
    - [Spinner]: Module [Spinner], the fallback element of
      [src/src/Spinner.js]: the [div] with its emoji, and its [css] prop
      as a record (glamor's generated animation name is a parameter).
    - [App]: Module [App], [Stock], [Delay] and the [/about] and
      [/settings] pages written against the [Resource] class, and the two
      caches of the program ([ensureQuote], [ensureDelay]) as instances.
    - [Host]: Module [Host], the host runtime's retry of a suspended
      render pass (from the spec: the runtime is not code of this
      repository), with its termination and non-termination lemmas;
      Module [AppHost], the environment that settles the fetches of the
      two caches ([ensureDelay]'s method resolves with the request's id,
      index.js 82; a quote is any value of a function of the ticker).
    - [Routes]: Module [MiniRouter], the path matching of the router
      (its module is not in the sources; modelled after React Router 4,
      which index.js 6 says it reimplements); Module [RouteTable], the
      three [AsyncRoute]s of the root render below one provider: each
      route's slot holds the renderer it has mounted ([reconcile] mounts,
      updates or unmounts it, as [Route]'s [render] prop does), a root
      event is a navigation or a tick of the provider's gate, and
      [root_render] is the render pass over the application's caches.
    - [Race]: Module [Race], a session on one time line: the root, the
      caches and the screen ([app_render]'s outcome: the header of links
      above the provider's subtree), with a render pass after each
      navigation, tick, settlement or rejection, as the host runs them.
    - [EventLoop]: Module [EventLoop], the sessions on the clock of the
      JS event loop (spec §5): a queue of callbacks ([timer]s) holding the
      gate's one-shot timer, the [setTimeout(.., ms)] each call of
      [ensureDelay]'s method registers (index.js 82), and the answer to
      each call of [ensureQuote]'s method after a latency the environment
      chooses per ticker, a quote or a failure ([answer_quote]: the
      request or its JSON body rejects); [pick] takes the earliest due, the first
      registered among equals; [fire] moves the clock, runs the callback
      and retries the pass, whose new fetches queue their callbacks;
      [navigate] is a click; [run_until] runs every callback due by a
      time.
    - [Timeline]: Module [Timeline], the loop after a click with cold
      caches: the page loaded at [/], a click at [t0] (and, in one
      timeline, two more clicks); each state before the deadline is
      known by its location, caches, queue and screen ([shows]),
      computed pass by pass with the flag down.

    Theorems, by group:
    - Resource: the well-formedness invariant of the two maps and the
      in-flight fetches, preserved by every event ([run_init_wf]);
      coalescing of reads (P1, [read_coalesce]); hit after settlement
      (P2); flush (P3) and the stale settlement that refills the cache
      after a flush ([flush_stale_fulfil]); refetch (P4) and its behaviour
      when [getKey] is not the identity; the stuck key after a rejected
      fetch ([rejected_key_stuck]); that in runs without rejection a
      thrown promise is an in-flight fetch whose settlement makes the
      retried read succeed ([suspended_read_resumes]).
    - CacheSpec: every implementation step refines the specification's
      step on the abstract status of the keys; along every run in which
      each settlement is that of its key's current fetch, the abstract
      state and every read's answer agree with the specification
      ([run_refines]).  Stale settlements after [flush] are excluded by
      that hypothesis; [flush_stale_fulfil] shows what they do instead.
    - QuoteUrl: distinct tickers are distinct URLs ([quote_url_inj]).
    - Globals: the heap model and the value model agree on every run
      ([hrun_deref]); the map a [withCache] consumer received before a
      flush is never written again ([consumer_map_frozen]).
    - Fetcher: no coalescing, hit after any settlement, retry after a
      rejection.
    - AsyncRoute: [render] against the spec's decision table (a
      refinement under the invariant, and the divergence when both flags
      are set); [componentDidUpdate] on every branch and as a refinement of
      the spec's transition where [incoming] is clear; the invariant
      "never both incoming and outgoing" on every run whose expiration
      flag changes at most once ([gate_run_exclusive]), and a run with two
      changes that breaks it because the patch misspells [incomfing]
      ([double_flip_both_flags]); Scenario C; termination of the
      render/[setState] cycle after at most two renders ([commit_fuel]).
    - Timeout: the render contract of [Timeout] and the provider; the
      gate's flag rises once, at [ms] (P5), and a cancelled timer never
      writes; Scenario B.
    - Context: a route with no provider above it reads the truthy
      default ['asyncRoute'] and never renders its content
      ([route_outside_provider]); for the values one consumer sees, [===]
      agrees with the truthiness the model keeps ([strict_eq_truthy]).
    - App: the pages against the [Resource] contract (ready when cached,
      the render waterfall of [/about], the second delay of [/settings]);
      Scenario A on the real caches.
    - Host: liveness of the pages under the retry loop: from any
      well-formed quote cache without a rejected fetch, [/about] shows
      within three passes ([about_page_retry]), [/settings] from any
      state ([settings_page_retry]); a rejected quote fetch makes
      [/about] retry forever ([about_page_retry_rejected]).
    - Routes: the transition machine is inert in the app, since a
      renderer is unmounted as soon as its route stops matching: it is
      never incoming nor outgoing and renders exactly while the gate has
      not expired ([routes_inert]); hence the root render refines a
      stateless function of the location and the flag
      ([root_render_refines]), the per-route [ms]/[fallback] props are
      dead ([route_ms_fallback_dead], [about_ms_ignored]), one route at a
      time is mounted, navigating to [/about] runs the waterfall
      through both caches to the page, and from every
      state at [/about] before the expiry the retry loop shows the page
      ([root_retry_about]); and, the provider being mounted once with the
      root, its one-shot gate blanks the app for good 5000 ms after the
      start: every route renders [null] and only the spinner's emoji
      shows ([expired_root_blank]).
    - Race: the gate against the fetches at [/about]: the page shows when
      both fetches, one after the other, settle within the provider's
      5000 ms, and the spinner alone shows otherwise ([race_about]); once
      the quote's fetch rejects, no ticks or settlements ever show the
      page: the pass throws the dead promise until the gate expires, and
      the spinner shows after ([rejected_quote_hangs]).  The app never
      calls [flush] or [refetch], so sessions do not have them.
    - EventLoop: the queue's [pick] against its specification, the
      earliest due and the first registered among equals ([pick_spec]);
      in every state of the loop the gate's flag follows the clock and no
      callback is overdue ([loop_clock]), and from
      5000 ms on the screen is blank ([blank_from_deadline]); each read
      registers one callback per fetch it starts, a timer of [ms] for a
      delay and one request for a quote that is neither cached nor
      pending ([read_callbacks]).
    - Timeline: the timelines of the two pages clicked at any [t0] before
      the deadline: [/settings] throws until [t0 + 3000] (its second
      delay starts only when the first resolved) and shows from then to
      5000 ms after the load ([settings_timeline]), so a click at 2000 ms
      or later never shows it; going Home and back to [/settings] before
      its first delay resolved starts a second delay for [fizz] and,
      when that one resolves, a second for [buzz]: the page still shows
      from [t0 + 3000], but four delay fetches run instead of two
      ([settings_revisit_timeline]); [/about], for any latency [L] of the quote,
      shows from [t0 + L + 1000] to 5000 ms ([about_timeline]); when the
      quote's request fails, [/about] throws the dead promise until
      5000 ms and is blank after, and no request is ever sent again
      ([about_rejected_timeline]).

    Not modelled: the DOM mount and what the browser draws of a style,
    glamor's class generation (a library), [console.log] calls (I/O), the
    HTTP transport and JSON decoding (a fetch is an event of the
    environment that fulfils or rejects it), and of the MiniRouter module,
    which is imported but not part of the sources, everything but path
    matching, [Route]'s [render] prop and a [Link] as an anchor whose
    click is a navigation ([Router]'s history, the DOM events).

    Bounds and fuel: promises are numbered by a counter of type [nat]
    (JS object identity), so no bound is needed; each cache has its own
    counter, and a settlement of [p] in [Host] and [Race] settles the
    fetch numbered [p] of each cache that has one in flight
    ([AppHost.app_settle]), two unrelated fetches at once when both do:
    this only adds settlements the environment could make anyway, and
    the callbacks of [EventLoop] settle one fetch of one cache each.  [Host.retry] counts passes:
    a page with [n] reads needs at most [n + 1] passes, so 3 for
    [/about] and [/settings], and the non-termination theorem holds for
    every fuel.  The only fuel is that of
    [AsyncRouteRenderer.commit], React's loop of [componentDidUpdate] and
    [setState]: [update] gives it 2 rounds, and [commit_fuel] shows every
    fuel of at least one round gives the same result, in a state where
    [componentDidUpdate] no longer calls [setState].  [EventLoop.run_until]
    takes as fuel the number of callbacks it may run and returns [None]
    when they do not suffice: the timelines prove that three suffice
    (the two fetches and the gate), four for the revisit of [/settings]
    before the deadline (its four delays), and once every pending callback is
    due at or after the deadline, as many as are pending suffice, since
    each runs over a blank pass that starts nothing.  Time in the gate
    and the loop is a [nat] of milliseconds.  Every other operation is a total function
    and every run a finite list of events or steps. *)

From stdpp Require Export base gmap list strings.

(** ** Promises and the outcome of a function that may throw one *)

(** A JS promise, by identity: the n-th promise allocated. *)
Abbreviation promise := nat.

(** What a call returns: a value, or the promise it throws. *)
Inductive outcome (A : Type) : Type :=
| Ready (v : A)
| Suspend (p : promise).
Arguments Ready {A} v.
Arguments Suspend {A} p.

#[export] Instance outcome_eq_dec {A} `{EqDecision A} : EqDecision (outcome A).
Proof. solve_decision. Defined.

(** ** The render monad *)

(** A JS computation over a global state [S] that may throw a promise.
    The state reached before a [throw] is kept, as the JS heap is. *)
Definition Render (S A : Type) : Type := S -> S * outcome A.

Definition rret {S A} (x : A) : Render S A := fun s => (s, Ready x).

Definition rbind {S A B} (c : Render S A) (k : A -> Render S B) : Render S B :=
  fun s =>
    match c s with
    | (s', Ready x) => k x s'
    | (s', Suspend p) => (s', Suspend p)
    end.

Definition rthrow {S A} (p : promise) : Render S A := fun s => (s, Suspend p).

Definition rmodify {S} (f : S -> S) : Render S unit := fun s => (f s, Ready tt).

(** The outcome of a call whose value is then wrapped by [f]. *)
Definition outcome_map {A B} (f : A -> B) (r : outcome A) : outcome B :=
  match r with Ready x => Ready (f x) | Suspend p => Suspend p end.

Declare Scope render_scope.
Delimit Scope render_scope with render.

Notation "x <- c1 ;; c2" := (rbind c1 (fun x => c2))
  (at level 100, c1 at next level, right associativity) : render_scope.
Notation "c1 ;;; c2" := (rbind c1 (fun _ => c2))
  (at level 100, right associativity) : render_scope.

Open Scope render_scope.

(** Render a list of children in order; the first throw aborts the pass,
    as the host runtime unwinds to the nearest boundary. *)
Fixpoint rmap {S X A} (f : X -> Render S A) (l : list X) : Render S (list A) :=
  match l with
  | [] => rret []
  | x :: l' => y <- f x ;; ys <- rmap f l' ;; rret (y :: ys)
  end.

(** Independent calls in sequence, each caught by the host: the state
    threads through, a throw does not stop the later calls. *)
Fixpoint rcalls {S X A} (f : X -> Render S A) (l : list X) (s : S) : S * list (outcome A) :=
  match l with
  | [] => (s, [])
  | x :: l' =>
      let '(s', r) := f x s in
      let '(s'', rs) := rcalls f l' s' in
      (s'', r :: rs)
  end.

(** ** Element trees *)

(** What a render function returns: [null], text, an element with its
    tag, its [hidden] attribute and its children, or a fragment. *)
Inductive vnode : Type :=
| VNull
| VText (s : string)
| VElem (tag : string) (hidden : bool) (kids : list vnode)
| VFrag (kids : list vnode).

(** ** The contract of a suspending resource *)

(** What a cache promises the components that read from it while
    rendering: [cached] is its view of the resolved values; a cached
    request is answered at once without a change of state; an uncached one
    throws; reading never forgets a resolved value. *)
Class Resource (W Req A : Type) := {
  res_read : Req -> Render W A;
  res_cached : W -> Req -> option A;
  res_read_hit : forall w o v, res_cached w o = Some v -> res_read o w = (w, Ready v);
  res_read_miss : forall w o, res_cached w o = None ->
    exists w' p, res_read o w = (w', Suspend p);
  res_read_keeps : forall w o w' r o' v, res_read o w = (w', r) ->
    res_cached w o' = Some v -> res_cached w' o' = Some v
}.

(** A resource that lives in one component of a larger state: the
    component is read by [getw] and written back by [setw]. *)
Section Lift.
Context {W W1 Req A : Type} (getw : W -> W1) (setw : W1 -> W -> W).
Hypothesis get_set : forall w1 w, getw (setw w1 w) = w1.
Hypothesis set_get : forall w, setw (getw w) w = w.

Definition rlift {B} (c : Render W1 B) : Render W B :=
  fun w => let '(w1', r) := c (getw w) in (setw w1' w, r).

Definition lift_resource (R : Resource W1 Req A) : Resource W Req A.
Proof.
  refine {| res_read o := rlift (res_read o); res_cached w o := res_cached (getw w) o |}.
  - intros w o v Hc. unfold rlift. rewrite (res_read_hit _ _ _ Hc). by rewrite set_get.
  - intros w o Hc. unfold rlift. destruct (res_read_miss _ _ Hc) as (w1 & p & ->). eauto.
  - intros w o w' r o' v. unfold rlift. destruct (res_read o (getw w)) as [w1 r1] eqn:E.
    intros [= <- _] Hc. rewrite get_set. by eapply res_read_keeps.
Defined.
End Lift.

(** ** Automation *)

Create HintDb suspense discriminated.

(** Case analysis on the lookups of inserted and deleted keys. *)
Ltac map_simp :=
  repeat first
    [ rewrite lookup_insert_eq | rewrite lookup_delete_eq
    | rewrite lookup_insert_ne by congruence
    | rewrite lookup_delete_ne by congruence
    | rewrite lookup_empty ].

(** Split on every equality of keys left by [lookup_insert]/[lookup_delete]. *)
Ltac map_cases :=
  repeat (rewrite ?lookup_insert, ?lookup_delete, ?lookup_empty in *;
          try case_decide; subst);
  simplify_eq.

(** Close a decidable proposition about concrete data by evaluating its
    decision procedure. *)
Ltac by_decide :=
  match goal with |- ?P => apply (bool_decide_unpack P); vm_compute; exact I end.

(** ** Generic lemmas on the monad *)

Section RenderLemmas.
Context {S : Type}.

Lemma rbind_ready {A B} (c : Render S A) (k : A -> Render S B) s s' x :
  c s = (s', Ready x) -> rbind c k s = k x s'.
Proof. intros Hc. unfold rbind. by rewrite Hc. Qed.

Lemma rbind_suspend {A B} (c : Render S A) (k : A -> Render S B) s s' p :
  c s = (s', Suspend p) -> rbind c k s = (s', Suspend p).
Proof. intros Hc. unfold rbind. by rewrite Hc. Qed.

(** Rendering a list either returns every child's result or stops at
    the first child that throws. *)
Lemma rmap_cons {X A} (f : X -> Render S A) x l s :
  rmap f (x :: l) s =
    match f x s with
    | (s', Ready y) =>
        match rmap f l s' with
        | (s'', Ready ys) => (s'', Ready (y :: ys))
        | (s'', Suspend p) => (s'', Suspend p)
        end
    | (s', Suspend p) => (s', Suspend p)
    end.
Proof.
  simpl. unfold rbind. destruct (f x s) as [s' [y|p]]; [|done].
  destruct (rmap f l s') as [s'' [ys|q]]; done.
Qed.

Lemma rmap_map {X Y A} (f : Y -> Render S A) (g : X -> Y) l :
  rmap f (map g l) = rmap (fun x => f (g x)) l.
Proof. induction l as [|x l IH]; simpl; [done|]. by rewrite IH. Qed.

(** A computation followed by a pure wrapping of its value. *)
Lemma rbind_rret {A B} (c : Render S A) (f : A -> B) s :
  (x <- c ;; rret (f x)) s = (fst (c s), outcome_map f (snd (c s))).
Proof. unfold rbind. by destruct (c s) as [s' []]. Qed.

End RenderLemmas.

#[export] Hint Resolve rbind_ready rbind_suspend : suspense.

(** ** Generic lemmas on lists *)

Lemma sum_list_app (l1 l2 : list nat) : sum_list (l1 ++ l2) = sum_list l1 + sum_list l2.
Proof. induction l1 as [|x l1 IH]; simpl; lia. Qed.
