(* ===== verification/QuoteUrl.v ===== *)
(** * The request of [ensureQuote] (src/src/index.js 74-79)

    Module [QuoteUrl] models the URL the method of [ensureQuote] fetches,
    the template literal
    [`https://api.iextrading.com/1.0/stock/${ticker}/quote?displayPercent=true`],
    and a decoder that reads the ticker back from such a URL.  The
    decoder works on the strings as lists of ASCII characters: it strips
    the fixed prefix, then the fixed suffix.  It reads back the ticker of
    every URL the template builds ([parse_quote_url_quote_url]), so
    distinct tickers are distinct URLs ([quote_url_inj]): the cache keyed
    by the ticker (the default [getKey]) and the service keyed by the URL
    agree on what is the same request. *)

From S2P Require Import Prelude.
From Stdlib Require Import Ascii.

Module QuoteUrl.

Definition url_prefix : string := "https://api.iextrading.com/1.0/stock/".
Definition url_suffix : string := "/quote?displayPercent=true".

(** The template literal of index.js 76. *)
Definition quote_url (ticker : string) : string :=
  String.append url_prefix (String.append ticker url_suffix).

(** [fetch(url).then(res => res.json())] against a service that answers
    each URL with a quote (the HTTP transport is not modelled). *)
Definition fetchQuote {Q : Type} (service : string -> Q) (ticker : string) : Q :=
  service (quote_url ticker).

(** Remove a prefix from a list of characters, if it is one. *)
Fixpoint strip_prefix (p l : list ascii) : option (list ascii) :=
  match p, l with
  | [], _ => Some l
  | a :: p', b :: l' => if decide (a = b) then strip_prefix p' l' else None
  | _ :: _, [] => None
  end.

Definition strip_suffix (s l : list ascii) : option (list ascii) :=
  reverse <$> strip_prefix (reverse s) (reverse l).

(** The ticker of a quote URL, or [None] for any other string. *)
Definition parse_quote_url (u : string) : option string :=
  l ← strip_prefix (String.list_ascii_of_string url_prefix) (String.list_ascii_of_string u);
  t ← strip_suffix (String.list_ascii_of_string url_suffix) l;
  Some (String.string_of_list_ascii t).

(** ** Lemmas *)

Lemma list_ascii_of_string_append s1 s2 :
  String.list_ascii_of_string (String.append s1 s2) = String.list_ascii_of_string s1 ++ String.list_ascii_of_string s2.
Proof. induction s1 as [|c s1 IH]; simpl; [done|]. by rewrite IH. Qed.

Lemma strip_prefix_app p l : strip_prefix p (p ++ l) = Some l.
Proof. induction p as [|a p IH]; simpl; [done|]. by rewrite decide_True. Qed.

Lemma strip_prefix_Some p l r : strip_prefix p l = Some r -> l = p ++ r.
Proof.
  revert l. induction p as [|a p IH]; intros [|b l]; simpl; try congruence.
  case_decide; [subst|done]. intros H. by rewrite (IH _ H).
Qed.

Lemma strip_suffix_app s l : strip_suffix s (l ++ s) = Some l.
Proof. unfold strip_suffix. rewrite reverse_app, strip_prefix_app. simpl. by rewrite reverse_involutive. Qed.

Lemma strip_suffix_Some s l r : strip_suffix s l = Some r -> l = r ++ s.
Proof.
  unfold strip_suffix. destruct (strip_prefix (reverse s) (reverse l)) as [r'|] eqn:E; [|done].
  intros [= <-]. apply strip_prefix_Some in E.
  rewrite <- (reverse_involutive l), E, reverse_app, reverse_involutive. done.
Qed.

Lemma list_ascii_of_quote_url t :
  String.list_ascii_of_string (quote_url t) =
    String.list_ascii_of_string url_prefix ++ String.list_ascii_of_string t ++
    String.list_ascii_of_string url_suffix.
Proof. unfold quote_url. by rewrite !list_ascii_of_string_append. Qed.

Lemma parse_quote_url_quote_url t : parse_quote_url (quote_url t) = Some t.
Proof.
  unfold parse_quote_url. rewrite list_ascii_of_quote_url, strip_prefix_app. simpl.
  rewrite strip_suffix_app. simpl. by rewrite String.string_of_list_ascii_of_string.
Qed.

(** Distinct tickers are distinct requests. *)
#[export] Instance quote_url_inj : Inj eq eq quote_url.
Proof.
  intros t1 t2 E. pose proof (parse_quote_url_quote_url t1) as H1.
  rewrite E, parse_quote_url_quote_url in H1. by injection H1.
Qed.

End QuoteUrl.
