(* ===== verification/Resource.v ===== *)
(** * The shared resource cache: [createResource] (src/src/index.js 10-58)

    Module [CreateResource] holds the module-level maps [cache] and
    [pending] of index.js 10-11, the fetches in flight, and the resource's
    [read], [flush] and [refetch] with the settlement callbacks of the
    promises that [read] creates.  JS values (requests and keys alike) are
    a type [Val] with decidable equality; the resolved values a type [A].
    [getKey] is the second argument of [createResource].  The globals are
    fields of the record [World]; since the settlement callback names the
    globals and not the maps, it acts on the [World] current when it runs. *)

From S2P Require Import Prelude.

Module CreateResource.

(** A fetch started by [read]: the key it will fill and the request
    [promise(obj)] was called with. *)
Record job (Val : Type) := Job { job_key : Val; job_req : Val }.
Arguments Job {Val} job_key job_req.
Arguments job_key {Val} j.
Arguments job_req {Val} j.

(** The globals [cache] and [pending], the fetches whose callback has not
    run yet (by the promise [read] threw for them), and the allocator of
    promise identities. *)
Record World (Val A : Type) `{Countable Val} := mkWorld {
  cache : gmap Val A;
  pending : gmap Val promise;
  jobs : gmap promise (job Val);
  next_promise : promise
}.
Arguments mkWorld {Val A _ _} cache pending jobs next_promise.
Arguments cache {Val A _ _} w.
Arguments pending {Val A _ _} w.
Arguments jobs {Val A _ _} w.
Arguments next_promise {Val A _ _} w.

(** What the environment and the program can do to the cache. *)
Inductive event (Val A : Type) : Type :=
| EvRead (obj : Val)
| EvFlush
| EvRefetch (key : Val)
| EvFulfil (p : promise) (v : A)
| EvReject (p : promise).
Arguments EvRead {Val A} obj.
Arguments EvFlush {Val A}.
Arguments EvRefetch {Val A} key.
Arguments EvFulfil {Val A} p v.
Arguments EvReject {Val A} p.

Section Model.
Context {Val : Type} `{Countable Val} {A : Type}.
Context (getKey : Val -> Val).

Abbreviation World := (World Val A).

(** [let cache = new Map(); let pending = new Map();] *)
Definition init : World := mkWorld ∅ ∅ ∅ 0.

(** [read(obj)]: a cache hit returns; a pending hit re-throws the
    in-flight promise; a miss calls [promise(obj).then(..)], stores the
    resulting promise in [pending] and throws it. *)
Definition read (obj : Val) : Render World A := fun w =>
  let key := getKey obj in
  match cache w !! key with
  | Some v => (w, Ready v)
  | None =>
      match pending w !! key with
      | Some p => (w, Suspend p)
      | None =>
          let p := next_promise w in
          (mkWorld (cache w) (<[key:=p]> (pending w)) (<[p:=Job key obj]> (jobs w)) (S p),
           Suspend p)
      end
  end.

(** [flush()]: both globals are rebound to fresh maps; the fetches in
    flight go on. *)
Definition flush (w : World) : World :=
  mkWorld ∅ ∅ (jobs w) (next_promise w).

(** [refetch(key)]: [cache.delete(key); this.read(key);] -- the key is
    passed to [read] as a request. *)
Definition cache_delete (key : Val) (w : World) : World :=
  mkWorld (delete key (cache w)) (pending w) (jobs w) (next_promise w).

Definition refetch (key : Val) : Render World unit :=
  rmodify (cache_delete key) ;;; _ <- read key ;; rret tt.

(** The callback [val => { pending.delete(key); cache.set(key, val); }],
    run on the globals of the moment. *)
Definition on_fulfilled (key : Val) (val : A) (w : World) : World :=
  mkWorld (<[key:=val]> (cache w)) (delete key (pending w)) (jobs w) (next_promise w).

(** A promise settles at most once: it leaves the fetches in flight. *)
Definition retire (p : promise) (w : World) : World :=
  mkWorld (cache w) (pending w) (delete p (jobs w)) (next_promise w).

(** The fetch of [p] fulfils with [val]: its callback runs. *)
Definition fulfil (p : promise) (val : A) (w : World) : World :=
  match jobs w !! p with
  | Some j => on_fulfilled (job_key j) val (retire p w)
  | None => w
  end.

(** The fetch of [p] rejects: [.then] has no rejection handler, so
    nothing of the cache changes. *)
Definition reject (p : promise) (w : World) : World :=
  match jobs w !! p with
  | Some _ => retire p w
  | None => w
  end.

Definition step (e : event Val A) (w : World) : World :=
  match e with
  | EvRead o => fst (read o w)
  | EvFlush => flush w
  | EvRefetch k => fst (refetch k w)
  | EvFulfil p v => fulfil p v w
  | EvReject p => reject p w
  end.

Fixpoint run (es : list (event Val A)) (w : World) : World :=
  match es with
  | [] => w
  | e :: es' => run es' (step e w)
  end.

(** The promise [p], if still in flight, is the fetch of key [k]. *)
Definition fetch_of (js : gmap promise (job Val)) (k : Val) (p : promise) : Prop :=
  forall j, js !! p = Some j -> job_key j = k.

#[local] Instance fetch_of_dec js k p : Decision (fetch_of js k p).
Proof.
  unfold fetch_of. destruct (js !! p) as [j|].
  - destruct (decide (job_key j = k)) as [E|E]; [left|right].
    + by intros ? [= <-].
    + intros F. by apply E, F.
  - left. done.
Defined.

(** Well-formedness: no key is both resolved and pending; every promise
    named is already allocated; a pending promise still in flight is the
    fetch of its own key. *)
Definition wf (w : World) : Prop :=
  map_Forall (fun k _ => pending w !! k = None) (cache w) /\
  map_Forall (fun _ p => p < next_promise w) (pending w) /\
  map_Forall (fun p _ => p < next_promise w) (jobs w) /\
  map_Forall (fun k p => fetch_of (jobs w) k p) (pending w).

Definition wf_dec w : Decision (wf w).
Proof. unfold wf. apply _. Defined.

Lemma wf_spec w :
  wf w <->
  (forall k v, cache w !! k = Some v -> pending w !! k = None) /\
  (forall k p, pending w !! k = Some p -> p < next_promise w) /\
  (forall p j, jobs w !! p = Some j -> p < next_promise w) /\
  (forall k p j, pending w !! k = Some p -> jobs w !! p = Some j -> job_key j = k).
Proof using.
  unfold wf, fetch_of. rewrite !map_Forall_lookup.
  split; intros (H1 & H2 & H3 & H4); split_and!; eauto.
Qed.

(** ** The invariant is kept by every operation *)

(** Close the goals about freshly allocated promises: a promise already
    named is below the allocator, and so is not the next one. *)
Ltac fresh_close :=
  first [ done
        | by apply Nat.lt_lt_succ_r; eauto
        | by eauto with lia
        | exfalso; by eapply Nat.lt_irrefl; eauto ].

Lemma read_wf o w w' r : wf w -> read o w = (w', r) -> wf w'.
Proof.
  rewrite !wf_spec. intros (H1 & H2 & H3 & H4). unfold read.
  destruct (cache w !! getKey o) eqn:Ec; [by intros [= <- _]|].
  destruct (pending w !! getKey o) eqn:Ep; [by intros [= <- _]|].
  intros [= <- _]; simpl. split_and!; intros; map_cases;
    fresh_close.
Qed.

Lemma flush_wf w : wf w -> wf (flush w).
Proof.
  rewrite !wf_spec. intros (H1 & H2 & H3 & H4). simpl.
  split_and!; intros; map_cases; fresh_close.
Qed.

Lemma cache_delete_wf k w : wf w -> wf (cache_delete k w).
Proof.
  rewrite !wf_spec. intros (H1 & H2 & H3 & H4). simpl.
  split_and!; intros; map_cases; fresh_close.
Qed.

(** [refetch] is [read] on the world where the key was deleted. *)
Lemma refetch_read k w :
  refetch k w =
    match read k (cache_delete k w) with
    | (w', Ready _) => (w', Ready tt)
    | (w', Suspend p) => (w', Suspend p)
    end.
Proof. unfold refetch, rbind, rmodify, rret. by destruct (read k _) as [? []]. Qed.

Lemma refetch_wf k w w' r : wf w -> refetch k w = (w', r) -> wf w'.
Proof.
  rewrite refetch_read. intros Hw.
  destruct (read k (cache_delete k w)) as [w1 r1] eqn:E.
  assert (wf w1) by (eapply read_wf; [apply cache_delete_wf|]; eauto).
  by destruct r1; intros [= <- _].
Qed.

Lemma fulfil_wf p v w : wf w -> wf (fulfil p v w).
Proof.
  unfold fulfil. destruct (jobs w !! p) as [j|] eqn:Ej; [|done].
  rewrite !wf_spec. intros (H1 & H2 & H3 & H4). simpl.
  split_and!; intros; map_cases; fresh_close.
Qed.

Lemma reject_wf p w : wf w -> wf (reject p w).
Proof.
  unfold reject. destruct (jobs w !! p) as [j|] eqn:Ej; [|done].
  rewrite !wf_spec. intros (H1 & H2 & H3 & H4). simpl.
  split_and!; intros; map_cases; fresh_close.
Qed.

Lemma step_wf e w : wf w -> wf (step e w).
Proof.
  destruct e; simpl; intros Hw.
  - destruct (read obj w) eqn:E. by eapply read_wf.
  - by apply flush_wf.
  - destruct (refetch key w) eqn:E. by eapply refetch_wf.
  - by apply fulfil_wf.
  - by apply reject_wf.
Qed.

Lemma run_wf es w : wf w -> wf (run es w).
Proof. revert w. induction es; simpl; auto using step_wf. Qed.

Lemma init_wf : wf init.
Proof. rewrite wf_spec. split_and!; intros; map_cases. Qed.

(** ** The three branches of [read] *)

Lemma read_hit o w v : cache w !! getKey o = Some v -> read o w = (w, Ready v).
Proof. unfold read. by intros ->. Qed.

Lemma read_pending o w p :
  cache w !! getKey o = None -> pending w !! getKey o = Some p ->
  read o w = (w, Suspend p).
Proof. unfold read. by intros -> ->. Qed.

Lemma read_miss o w :
  cache w !! getKey o = None -> pending w !! getKey o = None ->
  read o w = (mkWorld (cache w) (<[getKey o:=next_promise w]> (pending w))
                (<[next_promise w:=Job (getKey o) o]> (jobs w)) (S (next_promise w)),
              Suspend (next_promise w)).
Proof. unfold read. by intros -> ->. Qed.

(** Reads of a key whose fetch is in flight change nothing. *)
Lemma rcalls_read_pending os w k p :
  cache w !! k = None -> pending w !! k = Some p ->
  Forall (fun o => getKey o = k) os ->
  rcalls read os w = (w, replicate (length os) (Suspend p)).
Proof.
  intros Hc Hp. induction 1 as [|o os Ho _ IH]; [done|]. simpl.
  rewrite (read_pending o w p) by congruence. by rewrite IH.
Qed.

(** A fulfilled fetch answers the reads of its key. *)
Lemma read_fulfilled o w p j v :
  jobs w !! p = Some j -> job_key j = getKey o ->
  read o (fulfil p v w) = (fulfil p v w, Ready v).
Proof.
  intros Hj Hk. apply read_hit. unfold fulfil. rewrite Hj. simpl.
  rewrite Hk. by map_simp.
Qed.

(** ** Runs without rejection: every pending promise is in flight *)

Definition live (w : World) : Prop :=
  map_Forall (fun _ p => is_Some (jobs w !! p)) (pending w).

Definition is_reject (e : event Val A) : bool :=
  match e with EvReject _ => true | _ => false end.

Lemma live_spec w : live w <-> forall k p, pending w !! k = Some p -> is_Some (jobs w !! p).
Proof. apply map_Forall_lookup. Qed.

Lemma read_live o w : wf w -> live w -> live (fst (read o w)).
Proof.
  rewrite wf_spec, !live_spec. intros (H1 & H2 & H3 & H4) Hl.
  unfold read. destruct (cache w !! getKey o), (pending w !! getKey o); simpl; try done.
  intros k p Hk. destruct (decide (getKey o = k)) as [<-|Hne].
  - rewrite lookup_insert_eq in Hk. simplify_eq. rewrite lookup_insert_eq. eauto.
  - rewrite lookup_insert_ne in Hk by done. rewrite lookup_insert_ne; [eauto|].
    intros Heq. subst p. apply H2 in Hk. lia.
Qed.

Lemma step_wf_live e w :
  is_reject e = false -> wf w -> live w -> wf (step e w) /\ live (step e w).
Proof.
  intros He Hw Hl. split; [by apply step_wf|].
  destruct e as [o| |k|q v|q]; simpl in *; try done.
  - by apply read_live.
  - rewrite refetch_read. pose proof (read_live k (cache_delete k w)) as Hr.
    destruct (read k (cache_delete k w)) as [w' []]; apply Hr; auto using cache_delete_wf.
  - unfold fulfil. destruct (jobs w !! q) as [j|] eqn:Ej; [|done].
    rewrite wf_spec in Hw. destruct Hw as (H1 & H2 & H3 & H4).
    rewrite live_spec in Hl |- *. simpl.
    intros k p Hk. apply lookup_delete_Some in Hk as [Hne Hk].
    rewrite lookup_delete_ne; [eauto|].
    intros <-. by pose proof (H4 _ _ _ Hk Ej).
Qed.

Lemma run_wf_live es w :
  Forall (fun e => is_reject e = false) es -> wf w -> live w ->
  wf (run es w) /\ live (run es w).
Proof.
  intros Hes. revert w. induction Hes as [|e es He _ IH]; intros w Hw Hl; [done|].
  simpl. apply IH; apply step_wf_live; auto.
Qed.

(** ** A key whose only fetch was rejected *)

(** [k] is pending on [p], not resolved, and no fetch in flight will
    ever fill it. *)
Definition stuck (k : Val) (p : promise) (w : World) : Prop :=
  pending w !! k = Some p /\ cache w !! k = None /\
  map_Forall (fun _ j => job_key j <> k) (jobs w).

Lemma read_stuck k p o w : stuck k p w -> stuck k p (fst (read o w)).
Proof.
  unfold stuck. rewrite !map_Forall_lookup. intros (Hp & Hc & Hj).
  unfold read. destruct (cache w !! getKey o) eqn:Ec; [done|].
  destruct (pending w !! getKey o) eqn:Ep; [done|]. simpl.
  assert (getKey o <> k) by congruence.
  split_and!; [by map_simp|done|]. intros q j Hq. map_cases; simpl; eauto.
Qed.

Lemma step_stuck k p e w : e <> EvFlush -> stuck k p w -> stuck k p (step e w).
Proof.
  intros He Hs. destruct e as [o| |k'|q v|q]; simpl; [by apply read_stuck|done| | |].
  - rewrite refetch_read.
    assert (Hs' : stuck k p (cache_delete k' w)).
    { destruct Hs as (? & ? & ?). split_and!; simpl; try done.
      destruct (decide (k' = k)) as [->|]; by map_simp. }
    pose proof (read_stuck k p k' _ Hs').
    by destruct (read k' (cache_delete k' w)) as [? []].
  - unfold fulfil. destruct (jobs w !! q) as [j|] eqn:Ej; [|done].
    destruct Hs as (Hp & Hc & Hj). rewrite map_Forall_lookup in Hj.
    pose proof (Hj _ _ Ej). split_and!; simpl; [by map_simp|by map_simp|].
    apply map_Forall_delete. by apply map_Forall_lookup.
  - unfold reject. destruct (jobs w !! q); [|done].
    destruct Hs as (? & ? & ?). split_and!; try done. by apply map_Forall_delete.
Qed.

Lemma rcalls_read_hit os w k v :
  cache w !! k = Some v -> Forall (fun o => getKey o = k) os ->
  rcalls read os w = (w, replicate (length os) (Ready v)).
Proof.
  intros Hc. induction 1 as [|o os Ho _ IH]; [done|]. simpl.
  rewrite (read_hit o w v) by congruence. by rewrite IH.
Qed.

(** ** Properties of the cache *)

(** C5: Every world reachable from the empty globals by any
    sequence of reads, flushes, refetches and settlements is
    well-formed: no key is both cached and pending, and a pending
    promise still in flight fetches its own key. *)
Theorem run_init_wf es : wf (run es init).
Proof. apply run_wf, init_wf. Qed.

(** C4: Coalescing (P1): reads of a key that is not cached
    all throw the same promise; the first one starts a fetch only if
    none is in flight, and the later ones change nothing. *)
Theorem read_coalesce w o os :
  cache w !! getKey o = None ->
  Forall (fun o' => getKey o' = getKey o) os ->
  exists p,
    rcalls read (o :: os) w = (fst (read o w), replicate (S (length os)) (Suspend p)) /\
    ((pending w !! getKey o = Some p /\ fst (read o w) = w) \/
     (pending w !! getKey o = None /\ p = next_promise w /\
      jobs (fst (read o w)) = <[p:=Job (getKey o) o]> (jobs w))).
Proof.
  intros Hc Hos. destruct (pending w !! getKey o) as [p|] eqn:Hp.
  - exists p. simpl. rewrite (read_pending o w p) by done.
    rewrite (rcalls_read_pending os w (getKey o) p) by done. auto.
  - exists (next_promise w). simpl. rewrite read_miss by done.
    rewrite (rcalls_read_pending os _ (getKey o) (next_promise w)); simpl; try done.
    + split; [done|]. right. auto.
    + by map_simp.
Qed.

(** C7: Cache hit after settlement (P2): once the
    fetch of a key fulfils with [v], every later read of the key returns
    [v] without throwing and without starting a fetch. *)
Theorem read_after_fulfil w p j v os :
  jobs w !! p = Some j -> Forall (fun o => getKey o = job_key j) os ->
  rcalls read os (fulfil p v w) = (fulfil p v w, replicate (length os) (Ready v)).
Proof.
  intros Hj Hos. apply (rcalls_read_hit _ _ (job_key j)); [|done].
  unfold fulfil. rewrite Hj. simpl. by map_simp.
Qed.

(** C6: The suspension protocol: in a run without
    rejected fetches, a read that throws throws a promise whose fetch
    is in flight for the key read, and once it fulfils the retried read
    returns the value. *)
Theorem suspended_read_resumes es o w' p :
  Forall (fun e => is_reject e = false) es ->
  read o (run es init) = (w', Suspend p) ->
  exists j, jobs w' !! p = Some j /\ job_key j = getKey o /\
    forall v, read o (fulfil p v w') = (fulfil p v w', Ready v).
Proof.
  intros Hes. destruct (run_wf_live es init Hes init_wf) as [Hw Hl]; [done|].
  remember (run es init) as w eqn:Ew. clear Ew.
  pose proof Hw as Hw'. rewrite wf_spec in Hw'. destruct Hw' as (_ & _ & _ & H4).
  rewrite live_spec in Hl.
  destruct (cache w !! getKey o) as [v0|] eqn:Ec; [by rewrite (read_hit o w v0)|].
  destruct (pending w !! getKey o) as [q|] eqn:Ep.
  - rewrite (read_pending o w q) by done. intros [= <- <-].
    destruct (Hl _ _ Ep) as [j Hj]. exists j.
    assert (job_key j = getKey o) by eauto.
    split_and!; eauto using read_fulfilled.
  - rewrite read_miss by done. intros [= <- <-].
    exists (Job (getKey o) o). split_and!; [simpl; by map_simp|done|].
    intros v. apply (read_fulfilled _ _ _ (Job (getKey o) o)); [simpl; by map_simp|done].
Qed.

(** C24: Flush (P3): after [flush()], a read of any
    request, cached before or not, throws a new promise and starts a new
    fetch for its key; the fetches in flight before are kept. *)
Theorem flush_read_refetches w o :
  read o (flush w) =
    (mkWorld ∅ (<[getKey o:=next_promise w]> ∅)
       (<[next_promise w:=Job (getKey o) o]> (jobs w)) (S (next_promise w)),
     Suspend (next_promise w)).
Proof. by rewrite read_miss. Qed.

(** C25: A flush does not orphan the fetches in flight:
    when a fetch started before [flush()] fulfils after it, its callback
    writes into the new globals, so a read of its key returns the value
    fetched before the flush, and the key's new fetch, still in flight,
    is no longer pending. *)
Theorem flush_stale_fulfil w p j v o :
  wf w -> jobs w !! p = Some j -> job_key j = getKey o ->
  let w1 := fst (read o (flush w)) in
  read o (fulfil p v w1) = (fulfil p v w1, Ready v) /\
  pending (fulfil p v w1) !! getKey o = None /\
  jobs (fulfil p v w1) !! next_promise w = Some (Job (getKey o) o).
Proof.
  intros Hw Hj Hk w1. rewrite wf_spec in Hw. destruct Hw as (_ & _ & H3 & _).
  assert (p < next_promise w) by eauto.
  assert (Hj1 : jobs w1 !! p = Some j).
  { unfold w1. rewrite read_miss by done. simpl. rewrite lookup_insert_ne; [done|lia]. }
  split_and!; [by eapply read_fulfilled| |].
  - unfold fulfil. rewrite Hj1. simpl. rewrite Hk. by map_simp.
  - unfold fulfil. rewrite Hj1. unfold w1. rewrite read_miss by done. simpl.
    rewrite lookup_delete_ne by lia. by map_simp.
Qed.

(** C26: Refetch (P4): when [getKey] maps the key to itself,
    [refetch(key)] of a cached key drops the value, starts a fresh fetch
    and throws it to its caller; once the fetch fulfils, reads return the
    new value. *)
Theorem refetch_fresh w k v :
  wf w -> getKey k = k -> cache w !! k = Some v ->
  let n := next_promise w in
  refetch k w =
    (mkWorld (delete k (cache w)) (<[k:=n]> (pending w)) (<[n:=Job k k]> (jobs w)) (S n),
     Suspend n) /\
  forall v', read k (fulfil n v' (fst (refetch k w))) = (fulfil n v' (fst (refetch k w)), Ready v').
Proof.
  intros Hw Hid Hc n. rewrite wf_spec in Hw. destruct Hw as (H1 & _).
  assert (Hp : pending w !! k = None) by eauto.
  assert (Hr : refetch k w =
    (mkWorld (delete k (cache w)) (<[k:=n]> (pending w)) (<[n:=Job k k]> (jobs w)) (S n),
     Suspend n)).
  { rewrite refetch_read, read_miss; rewrite Hid; simpl; [done|by map_simp|done]. }
  split; [done|]. intros v'. rewrite Hr.
  apply (read_fulfilled _ _ _ (Job k k)); [simpl; by map_simp|done].
Qed.

(** C35: When [getKey] does not map the key to itself,
    [refetch(key)] deletes [key] from the cache but reads [getKey(key)]:
    if that is cached, no fetch starts, [refetch] returns normally and
    the cached value of [getKey(key)] stays. *)
Theorem refetch_key_alias w k v :
  getKey k <> k -> cache w !! getKey k = Some v ->
  refetch k w = (cache_delete k w, Ready tt) /\
  cache (fst (refetch k w)) !! getKey k = Some v.
Proof.
  intros Hne Hc.
  assert (Hr : refetch k w = (cache_delete k w, Ready tt)).
  { rewrite refetch_read, (read_hit _ _ v); [done|]. simpl. by rewrite lookup_delete_ne. }
  rewrite Hr. split; [done|]. simpl. by rewrite lookup_delete_ne.
Qed.

(** C27: A rejected fetch is never cleared from
    [pending]: when the only fetch of a key rejects, every later read of
    the key, after any events but a flush, throws the dead promise. *)
Theorem rejected_key_stuck w k p j es o :
  wf w -> pending w !! k = Some p -> jobs w !! p = Some j ->
  map_Forall (fun q j' => q <> p -> job_key j' <> k) (jobs w) ->
  Forall (fun e => e <> EvFlush) es -> getKey o = k ->
  read o (run es (reject p w)) = (run es (reject p w), Suspend p).
Proof.
  intros Hw Hp Hj Hothers Hes Hk.
  assert (Hs : stuck k p (reject p w)).
  { rewrite wf_spec in Hw. destruct Hw as (H1 & _).
    unfold reject. rewrite Hj. split_and!; simpl; [done| |].
    - destruct (cache w !! k) eqn:Ec; [|done]. rewrite (H1 _ _ Ec) in Hp. done.
    - apply map_Forall_lookup. intros q j' Hq. apply lookup_delete_Some in Hq as [? Hq].
      rewrite map_Forall_lookup in Hothers. eauto. }
  clear Hw Hp Hj Hothers. revert Hs. generalize (reject p w) as w'.
  induction Hes as [|e es He _ IH]; intros w' Hs; simpl.
  - destruct Hs as (? & ? & _). apply read_pending; congruence.
  - apply IH. by apply step_stuck.
Qed.

(** [createResource] offers the [Resource] contract, with the view
    [cache !! getKey obj]. *)
Definition resource : Resource World Val A.
Proof.
  refine {| res_read := read; res_cached w o := cache w !! getKey o |}.
  - intros w o v. apply read_hit.
  - intros w o Hc. unfold read. rewrite Hc.
    destruct (pending w !! getKey o); eauto.
  - intros w o w' r o' v. unfold read.
    destruct (cache w !! getKey o) eqn:Ec; [by intros [= <- _]|].
    destruct (pending w !! getKey o); intros [= <- _]; done.
Defined.
End Model.

#[global] Existing Instance wf_dec.

(** The default [getKey] of [createResource]: [x => x]. *)
Definition getKey_default {V : Type} (x : V) : V := x.

(** ** Witnesses, on natural numbers as keys and values *)

Abbreviation W := (World nat nat).

Lemma read_coalesce_witness :
  exists p,
    rcalls (read getKey_default) [3; 3; 3] (init : W) =
      (fst (read getKey_default 3 (init : W)), replicate 3 (Suspend p)) /\
    ((pending (init : W) !! 3 = Some p /\ fst (read getKey_default 3 (init : W)) = init) \/
     (pending (init : W) !! 3 = None /\ p = next_promise (init : W) /\
      jobs (fst (read getKey_default 3 (init : W))) = <[p:=Job 3 3]> (jobs (init : W)))).
Proof.
  apply (read_coalesce getKey_default init 3 [3; 3]); [reflexivity | repeat constructor].
Defined.

Lemma read_after_fulfil_witness :
  let w : W := fst (read getKey_default 5 init) in
  rcalls (read getKey_default) [5; 5] (fulfil 0 42 w) =
    (fulfil 0 42 w, replicate 2 (Ready 42)).
Proof.
  apply (read_after_fulfil getKey_default (fst (read getKey_default 5 (init : W))) 0 (Job 5 5)); [reflexivity | repeat constructor].
Defined.

Lemma suspended_read_resumes_witness :
  exists j, jobs (run getKey_default [EvRead 1] (init : W)) !! 0 = Some j /\
    job_key j = getKey_default 1 /\
    forall v, read getKey_default 1 (fulfil 0 v (run getKey_default [EvRead 1] init)) =
      (fulfil 0 v (run getKey_default [EvRead 1] (init : W)), Ready v).
Proof.
  apply (suspended_read_resumes getKey_default [EvRead 1] 1); [repeat constructor | reflexivity].
Defined.

Lemma flush_stale_fulfil_witness :
  let w : W := fst (read getKey_default 7 init) in
  let w1 := fst (read getKey_default 7 (flush w)) in
  read getKey_default 7 (fulfil 0 99 w1) = (fulfil 0 99 w1, Ready 99) /\
  pending (fulfil 0 99 w1) !! 7 = None /\
  jobs (fulfil 0 99 w1) !! next_promise w = Some (Job 7 7).
Proof.
  apply (flush_stale_fulfil getKey_default (fst (read getKey_default 7 (init : W))) 0 (Job 7 7) 99 7);
    [by_decide | reflexivity | reflexivity].
Defined.

Lemma refetch_fresh_witness :
  let w : W := fulfil 0 10 (fst (read getKey_default 4 init)) in
  refetch getKey_default 4 w =
    (mkWorld (delete 4 (cache w)) (<[4:=next_promise w]> (pending w))
       (<[next_promise w:=Job 4 4]> (jobs w)) (S (next_promise w)),
     Suspend (next_promise w)) /\
  forall v', read getKey_default 4 (fulfil (next_promise w) v' (fst (refetch getKey_default 4 w))) =
    (fulfil (next_promise w) v' (fst (refetch getKey_default 4 w)), Ready v').
Proof.
  apply (refetch_fresh getKey_default (fulfil 0 10 (fst (read getKey_default 4 (init : W)))) 4 10);
    [by_decide | reflexivity | reflexivity].
Defined.

Lemma refetch_key_alias_witness :
  let bucket := fun x : nat => x / 10 in
  let w : W := fulfil 0 8 (fst (read bucket 45 init)) in
  refetch bucket 42 w = (cache_delete 42 w, Ready tt) /\
  cache (fst (refetch bucket 42 w)) !! bucket 42 = Some 8.
Proof.
  apply (refetch_key_alias (fun x : nat => x / 10) (fulfil 0 8 (fst (read (fun x : nat => x / 10) 45 (init : W)))) 42 8); [discriminate | reflexivity].
Defined.

Lemma rejected_key_stuck_witness :
  let w : W := fst (read getKey_default 2 init) in
  let es := [EvRead 2; EvRefetch 2; EvRead 3; EvFulfil 1 9] in
  read getKey_default 2 (run getKey_default es (reject 0 w)) =
    (run getKey_default es (reject 0 w), Suspend 0).
Proof.
  apply (rejected_key_stuck getKey_default (fst (read getKey_default 2 (init : W))) 2 0 (Job 2 2));
    [by_decide | reflexivity | reflexivity
    | by_decide
    | repeat constructor; discriminate | reflexivity].
Defined.

End CreateResource.
