(* ===== verification/CacheSpec.v ===== *)
(** * An abstract specification of the resource cache, and its refinement

    Module [CacheSpec] states what the spec (§4.1, §9) promises of
    [createResource] as a per-key status: absent, loading on one promise,
    or loaded with a value.  A read answers a loaded key, re-throws the
    promise of a loading key and starts loading an absent one; a flush
    makes every key absent; a settlement loads the key whose current fetch
    it is, and a settlement that is not current ("orphaned") changes
    nothing.  [abs] reads the status of each key off the two global maps
    of [CreateResource.World].  The refinement theorem shows that every
    run of the implementation in which no settlement is orphaned is
    matched step by step by the specification, outcomes included; the
    orphaned settlements are exactly where the two part ways
    ([Resource.flush_stale_fulfil]). *)

From S2P Require Import Prelude Resource.

Module CacheSpec.
Import CreateResource.

(** The status of one key. *)
Inductive status (A : Type) :=
| Loading (p : promise)
| Loaded (v : A).
Arguments Loading {A} p.
Arguments Loaded {A} v.

(** The abstract state: the status of the keys that are not absent, and
    the allocator of promises. *)
Record AState (Val A : Type) `{Countable Val} := mkA {
  st : gmap Val (status A);
  anext : promise
}.
Arguments mkA {Val A _ _} st anext.
Arguments st {Val A _ _} a.
Arguments anext {Val A _ _} a.

Section Spec.
Context {Val : Type} `{Countable Val} {A : Type}.
Context (getKey : Val -> Val).

Abbreviation AState := (AState Val A).

Definition aread (o : Val) (a : AState) : AState * outcome A :=
  let k := getKey o in
  match st a !! k with
  | Some (Loaded v) => (a, Ready v)
  | Some (Loading p) => (a, Suspend p)
  | None => (mkA (<[k:=Loading (anext a)]> (st a)) (S (anext a)), Suspend (anext a))
  end.

Definition aflush (a : AState) : AState := mkA ∅ (anext a).

(** A settlement of [p] loads the keys whose current fetch is [p]. *)
Definition asettle (p : promise) (v : A) (a : AState) : AState :=
  mkA ((fun s => match s with Loading q => if decide (q = p) then Loaded v else s | _ => s end)
         <$> st a) (anext a).

Definition arefetch (k : Val) (a : AState) : AState * outcome unit :=
  let a1 := mkA (match st a !! k with Some (Loaded _) => delete k (st a) | _ => st a end) (anext a) in
  match aread k a1 with
  | (a2, Ready _) => (a2, Ready tt)
  | (a2, Suspend p) => (a2, Suspend p)
  end.

(** The specification's step: a rejection changes nothing (the key stays
    loading, as the spec's §7 records). *)
Definition astep (e : event Val A) (a : AState) : AState :=
  match e with
  | EvRead o => fst (aread o a)
  | EvFlush => aflush a
  | EvRefetch k => fst (arefetch k a)
  | EvFulfil p v => asettle p v a
  | EvReject _ => a
  end.

Fixpoint arun (es : list (event Val A)) (a : AState) : AState :=
  match es with
  | [] => a
  | e :: es' => arun es' (astep e a)
  end.

(** The status of each key in a world of the implementation. *)
Definition abs (w : World Val A) : AState :=
  mkA ((Loaded <$> cache w) ∪ (Loading <$> pending w)) (next_promise w).

(** A settlement is current when its fetch is in flight and still the
    pending one of its key (a promise settles once). *)
Definition current (p : promise) (w : World Val A) : Prop :=
  exists j, jobs w !! p = Some j /\ pending w !! job_key j = Some p.

(** The runs in which every settlement is current when it happens. *)
Fixpoint no_orphan (es : list (event Val A)) (w : World Val A) : Prop :=
  match es with
  | [] => True
  | EvFulfil p v :: es' => current p w /\ no_orphan es' (fulfil p v w)
  | e :: es' => no_orphan es' (step getKey e w)
  end.

(** ** Lemmas *)

Lemma abs_lookup w k :
  wf w ->
  st (abs w) !! k =
    match cache w !! k with
    | Some v => Some (Loaded v)
    | None => Loading <$> pending w !! k
    end.
Proof.
  rewrite wf_spec. intros (H1 & _). simpl. rewrite lookup_union, !lookup_fmap.
  destruct (cache w !! k) eqn:Ec; simpl.
  - by rewrite (H1 _ _ Ec).
  - by destruct (pending w !! k).
Qed.

Lemma read_refines o w :
  wf w -> abs (fst (read getKey o w)) = fst (aread o (abs w)) /\
          snd (read getKey o w) = snd (aread o (abs w)).
Proof.
  intros Hw. unfold aread. rewrite (abs_lookup w _ Hw).
  destruct (cache w !! getKey o) eqn:Ec.
  - by rewrite (read_hit _ _ _ _ Ec).
  - destruct (pending w !! getKey o) as [p|] eqn:Ep; simpl.
    + by rewrite (read_pending _ _ _ _ Ec Ep).
    + rewrite (read_miss _ _ _ Ec Ep). simpl. split; [|done].
      unfold abs. simpl. f_equal. rewrite fmap_insert.
      apply map_eq. intros k. rewrite !lookup_union, lookup_insert, lookup_insert.
      rewrite !lookup_fmap. case_decide; subst.
      * rewrite Ec. reflexivity.
      * by rewrite lookup_union, !lookup_fmap.
Qed.

Lemma flush_refines w : abs (flush w) = aflush (abs w).
Proof. unfold abs, aflush. simpl. f_equal. Qed.

Lemma fulfil_refines p v w :
  wf w -> current p w -> abs (fulfil p v w) = asettle p v (abs w).
Proof.
  intros Hw (j & Ej & Hc). rewrite wf_spec in Hw.
  destruct Hw as (H1 & H2 & H3 & H4). unfold fulfil. rewrite Ej.
  unfold abs, asettle. simpl. f_equal.
  apply map_eq. intros k. rewrite lookup_fmap, !lookup_union, !lookup_fmap.
  rewrite lookup_insert, lookup_delete. case_decide; subst.
  - rewrite Hc. destruct (cache w !! job_key j) eqn:Ec; [by rewrite (H1 _ _ Ec) in Hc|].
    simpl. by rewrite decide_True.
  - destruct (cache w !! k) eqn:Ec; simpl.
    + by rewrite (H1 _ _ Ec).
    + destruct (pending w !! k) as [q|] eqn:Ep; simpl; [|done].
      rewrite decide_False; [done|]. intros ->. by apply H0, (H4 _ _ _ Ep Ej).
Qed.

Lemma reject_refines p w : abs (reject p w) = abs w.
Proof. unfold reject. by destruct (jobs w !! p). Qed.

Lemma cache_delete_refines k w :
  wf w ->
  abs (cache_delete k w) =
    mkA (match st (abs w) !! k with Some (Loaded _) => delete k (st (abs w)) | _ => st (abs w) end)
      (anext (abs w)).
Proof.
  intros Hw. rewrite (abs_lookup w k Hw). pose proof Hw as Hw'.
  rewrite wf_spec in Hw'. destruct Hw' as (H1 & _).
  unfold abs, cache_delete. simpl. destruct (cache w !! k) eqn:Ec; simpl.
  - f_equal. rewrite fmap_delete, delete_union. f_equal.
    symmetry. apply delete_id. by rewrite lookup_fmap, (H1 _ _ Ec).
  - assert (Hd : delete k (cache w) = cache w) by (by apply delete_id).
    rewrite Hd. by destruct (pending w !! k).
Qed.

Lemma refetch_refines k w :
  wf w -> abs (fst (refetch getKey k w)) = fst (arefetch k (abs w)) /\
          snd (refetch getKey k w) = snd (arefetch k (abs w)).
Proof.
  intros Hw. rewrite refetch_read. unfold arefetch.
  rewrite <- (cache_delete_refines k w Hw).
  destruct (read_refines k (cache_delete k w) (cache_delete_wf k w Hw)) as [E1 E2].
  destruct (read getKey k (cache_delete k w)) as [w1 r1].
  destruct (aread k (abs (cache_delete k w))) as [a1 s1]. simpl in *.
  subst. destruct s1; simpl; auto.
Qed.

Lemma step_refines e w :
  wf w -> (forall p v, e = EvFulfil p v -> current p w) ->
  abs (step getKey e w) = astep e (abs w).
Proof.
  intros Hw He. destruct e as [o| |k|p v|p]; simpl.
  - apply read_refines, Hw.
  - apply flush_refines.
  - apply refetch_refines, Hw.
  - by apply fulfil_refines, (He p v).
  - apply reject_refines.
Qed.

(** C8: Refinement: along every run of the implementation in
    which each settlement is that of the current fetch of its key, the
    status of every key read off the two global maps evolves as the
    specification's, and every read then answers as the specification
    does. *)
Theorem run_refines es w :
  wf w -> no_orphan es w ->
  abs (run getKey es w) = arun es (abs w) /\
  forall o, snd (read getKey o (run getKey es w)) = snd (aread o (arun es (abs w))).
Proof.
  revert w. induction es as [|e es IH]; intros w Hw Hn.
  - split; [done|]. intros o. apply read_refines, Hw.
  - assert (Hs : abs (step getKey e w) = astep e (abs w) /\ no_orphan es (step getKey e w)).
    { destruct e as [o| |k|p v|p]; simpl in Hn.
      4: { destruct Hn as [Hc Hn]. split; [|done]. apply step_refines; [done|].
           by intros ? ? [= <- <-]. }
      all: split; [apply step_refines; [done|discriminate]|done]. }
    destruct Hs as [Hs Hn']. simpl. rewrite <- Hs.
    apply IH; [by apply step_wf|done].
Qed.
End Spec.

(** ** Witness *)

Lemma run_refines_witness :
  let es : list (event nat nat) :=
    [EvRead 1; EvRead 1; EvFulfil 0 5; EvRead 1; EvFlush; EvRead 1; EvRefetch 2] in
  abs (run getKey_default es init) = arun getKey_default es (abs init) /\
  forall o, snd (read getKey_default o (run getKey_default es init)) =
            snd (aread getKey_default o (arun getKey_default es (abs init))).
Proof.
  apply run_refines; [by_decide|].
  simpl. split; [|exact I]. exists (Job 1 1). split; reflexivity.
Defined.

End CacheSpec.
