(* ===== verification/Globals.v ===== *)
(** * The module-level bindings as references: [CacheProvider] and [withCache]
    (src/src/index.js 9-10, 29-58, 86-100)

    Module [Globals] models the two module-level bindings [let cache] and
    [let pending] as what they are in JS: references to [Map] objects in
    a heap.  [flush()] allocates two new maps and rebinds the names; the
    old objects stay in the heap, reachable by whoever holds them.  Every
    operation of [createResource] goes through the bindings as they are
    when it runs.  [CacheProvider] renders the object [cache] is bound to
    as its context value, and [withCache] hands that object to the
    wrapped component as its [cache] prop.

    [deref] reads the value model of [CreateResource] off a heap;
    [hrun_deref] and [hread_deref] show that the two models agree on
    every run, so
    the value model of the other files loses nothing for the operations
    of [createResource].  What only the heap model shows is the alias a
    consumer of the context holds: after a flush it is a map that no
    operation ever writes again. *)

From S2P Require Import Prelude Resource.

Module Globals.
Import CreateResource.

(** The identity of a JS [Map] object. *)
Record loc := Loc { loc_car : nat }.

#[export] Instance loc_eq_dec : EqDecision loc.
Proof. solve_decision. Defined.

#[export] Instance loc_countable : Countable loc.
Proof. by apply (inj_countable' loc_car Loc); intros []. Defined.

(** The heap of [Map] objects (the cache maps and the pending maps), the
    two bindings, the fetches in flight and the allocators. *)
Record Heap (Val A : Type) `{Countable Val} := mkHeap {
  cache_maps : gmap loc (gmap Val A);
  pending_maps : gmap loc (gmap Val promise);
  cache_ref : loc;
  pending_ref : loc;
  hjobs : gmap promise (job Val);
  hnext_promise : promise;
  next_loc : nat
}.
Arguments mkHeap {Val A _ _} cache_maps pending_maps cache_ref pending_ref hjobs hnext_promise next_loc.
Arguments cache_maps {Val A _ _} h.
Arguments pending_maps {Val A _ _} h.
Arguments cache_ref {Val A _ _} h.
Arguments pending_ref {Val A _ _} h.
Arguments hjobs {Val A _ _} h.
Arguments hnext_promise {Val A _ _} h.
Arguments next_loc {Val A _ _} h.

Section Model.
Context {Val : Type} `{Countable Val} {A : Type}.
Context (getKey : Val -> Val).

Abbreviation Heap := (Heap Val A).

(** The object [cache] (resp. [pending]) is bound to. *)
Definition cur_cache (h : Heap) : gmap Val A := default ∅ (cache_maps h !! cache_ref h).
Definition cur_pending (h : Heap) : gmap Val promise := default ∅ (pending_maps h !! pending_ref h).

(** [let cache = new Map(); let pending = new Map();] *)
Definition hinit : Heap := mkHeap {[Loc 0 := ∅]} {[Loc 1 := ∅]} (Loc 0) (Loc 1) ∅ 0 2.

(** [cache.set(key, val)], [cache.delete(key)], [pending.set(key, p)]
    and [pending.delete(key)]: writes into the objects the names are
    bound to when they run. *)
Definition set_cache (key : Val) (val : A) (h : Heap) : Heap :=
  mkHeap (<[cache_ref h := <[key:=val]> (cur_cache h)]> (cache_maps h)) (pending_maps h)
    (cache_ref h) (pending_ref h) (hjobs h) (hnext_promise h) (next_loc h).

Definition delete_cache (key : Val) (h : Heap) : Heap :=
  mkHeap (<[cache_ref h := delete key (cur_cache h)]> (cache_maps h)) (pending_maps h)
    (cache_ref h) (pending_ref h) (hjobs h) (hnext_promise h) (next_loc h).

Definition set_pending (key : Val) (p : promise) (h : Heap) : Heap :=
  mkHeap (cache_maps h) (<[pending_ref h := <[key:=p]> (cur_pending h)]> (pending_maps h))
    (cache_ref h) (pending_ref h) (hjobs h) (hnext_promise h) (next_loc h).

Definition delete_pending (key : Val) (h : Heap) : Heap :=
  mkHeap (cache_maps h) (<[pending_ref h := delete key (cur_pending h)]> (pending_maps h))
    (cache_ref h) (pending_ref h) (hjobs h) (hnext_promise h) (next_loc h).

(** [read(obj)]: the fetch is started ([promise(obj).then(...)]) before
    [pending.set(key, p)]. *)
Definition hread (obj : Val) : Render Heap A := fun h =>
  let key := getKey obj in
  match cur_cache h !! key with
  | Some v => (h, Ready v)
  | None =>
      match cur_pending h !! key with
      | Some p => (h, Suspend p)
      | None =>
          let p := hnext_promise h in
          let h1 := mkHeap (cache_maps h) (pending_maps h) (cache_ref h) (pending_ref h)
                      (<[p:=Job key obj]> (hjobs h)) (S p) (next_loc h) in
          (set_pending key p h1, Suspend p)
      end
  end.

(** [flush()]: [cache = new Map(); pending = new Map();] -- two fresh
    objects; the old ones are not touched. *)
Definition hflush (h : Heap) : Heap :=
  let lc := Loc (next_loc h) in
  let lp := Loc (S (next_loc h)) in
  mkHeap (<[lc:=∅]> (cache_maps h)) (<[lp:=∅]> (pending_maps h)) lc lp
    (hjobs h) (hnext_promise h) (S (S (next_loc h))).

(** [refetch(key)]: [cache.delete(key); this.read(key);] *)
Definition hrefetch (key : Val) : Render Heap unit :=
  rmodify (delete_cache key) ;;; _ <- hread key ;; rret tt.

(** The callback [val => { pending.delete(key); cache.set(key, val); }]. *)
Definition hon_fulfilled (key : Val) (val : A) (h : Heap) : Heap :=
  set_cache key val (delete_pending key h).

Definition hretire (p : promise) (h : Heap) : Heap :=
  mkHeap (cache_maps h) (pending_maps h) (cache_ref h) (pending_ref h)
    (delete p (hjobs h)) (hnext_promise h) (next_loc h).

Definition hfulfil (p : promise) (val : A) (h : Heap) : Heap :=
  match hjobs h !! p with
  | Some j => hon_fulfilled (job_key j) val (hretire p h)
  | None => h
  end.

Definition hreject (p : promise) (h : Heap) : Heap :=
  match hjobs h !! p with
  | Some _ => hretire p h
  | None => h
  end.

Definition hstep (e : event Val A) (h : Heap) : Heap :=
  match e with
  | EvRead o => fst (hread o h)
  | EvFlush => hflush h
  | EvRefetch k => fst (hrefetch k h)
  | EvFulfil p v => hfulfil p v h
  | EvReject p => hreject p h
  end.

Fixpoint hrun (es : list (event Val A)) (h : Heap) : Heap :=
  match es with
  | [] => h
  | e :: es' => hrun es' (hstep e h)
  end.

(** [CacheProvider]'s [render]: [<CacheContext.Provider value={cache}>],
    the object [cache] is bound to when it renders. *)
Definition CacheProvider (h : Heap) : loc := cache_ref h.

(** [withCache(Comp)(props)]: [<Comp {...props} cache={cache} />] with the
    context's value. *)
Definition withCache {P B : Type} (Comp : P * loc -> B) (ctx : loc) (props : P) : B :=
  Comp (props, ctx).

(** [props.cache.get(k)] in a consumer: a read of the object it holds. *)
Definition map_get (h : Heap) (l : loc) (k : Val) : option A :=
  cache_maps h !! l ≫= (.!! k).

(** The value model of the bindings as they are. *)
Definition deref (h : Heap) : World Val A :=
  mkWorld (cur_cache h) (cur_pending h) (hjobs h) (hnext_promise h).

(** ** Lemmas: the bindings after each write *)

Lemma cur_cache_set_cache k v h : cur_cache (set_cache k v h) = <[k:=v]> (cur_cache h).
Proof. unfold cur_cache at 1. simpl. by rewrite lookup_insert_eq. Qed.

Lemma cur_cache_delete_cache k h : cur_cache (delete_cache k h) = delete k (cur_cache h).
Proof. unfold cur_cache at 1. simpl. by rewrite lookup_insert_eq. Qed.

Lemma cur_pending_set_pending k p h : cur_pending (set_pending k p h) = <[k:=p]> (cur_pending h).
Proof. unfold cur_pending at 1. simpl. by rewrite lookup_insert_eq. Qed.

Lemma cur_pending_delete_pending k h : cur_pending (delete_pending k h) = delete k (cur_pending h).
Proof. unfold cur_pending at 1. simpl. by rewrite lookup_insert_eq. Qed.

Lemma cur_cache_set_pending k p h : cur_cache (set_pending k p h) = cur_cache h.
Proof. done. Qed.

Lemma cur_cache_delete_pending k h : cur_cache (delete_pending k h) = cur_cache h.
Proof. done. Qed.

Lemma cur_pending_set_cache k v h : cur_pending (set_cache k v h) = cur_pending h.
Proof. done. Qed.

Lemma cur_pending_delete_cache k h : cur_pending (delete_cache k h) = cur_pending h.
Proof. done. Qed.

End Model.

Create Rewrite HintDb deref.
#[export] Hint Rewrite @cur_cache_set_cache @cur_cache_delete_cache @cur_pending_set_pending
  @cur_pending_delete_pending @cur_cache_set_pending @cur_cache_delete_pending
  @cur_pending_set_cache @cur_pending_delete_cache : deref.

Section Equiv.
Context {Val : Type} `{Countable Val} {A : Type}.
Context (getKey : Val -> Val).

(** Each operation of the heap model, read through the bindings, is the
    operation of the value model. *)
Lemma hread_deref o (h : Heap Val A) :
  deref (fst (hread getKey o h)) = fst (read getKey o (deref h)) /\
  snd (hread getKey o h) = snd (read getKey o (deref h)).
Proof.
  unfold hread, read. cbn [deref CreateResource.cache CreateResource.pending].
  destruct (cur_cache h !! getKey o); [by split|].
  destruct (cur_pending h !! getKey o); [by split|].
  split; [|done]. unfold deref. cbn zeta. simpl. rewrite cur_pending_set_pending. reflexivity.
Qed.

Lemma hflush_deref (h : Heap Val A) : deref (hflush h) = flush (deref h).
Proof. unfold deref, hflush, flush, cur_cache, cur_pending. simpl. by rewrite !lookup_insert_eq. Qed.

Lemma hrefetch_deref k (h : Heap Val A) :
  deref (fst (hrefetch getKey k h)) = fst (refetch getKey k (deref h)) /\
  snd (hrefetch getKey k h) = snd (refetch getKey k (deref h)).
Proof.
  unfold hrefetch, refetch, rmodify, rbind, rret. simpl.
  assert (E : deref (delete_cache k h) = cache_delete k (deref h)).
  { unfold deref, cache_delete. by autorewrite with deref. }
  destruct (hread_deref k (delete_cache k h)) as [E1 E2]. rewrite E in E1, E2.
  destruct (hread getKey k (delete_cache k h)) as [h1 [v|p]], (read getKey k (cache_delete k (deref h))) as [w1 [v'|p']];
    simpl in *; split; congruence.
Qed.

Lemma hfulfil_deref p v (h : Heap Val A) : deref (hfulfil p v h) = fulfil p v (deref h).
Proof.
  unfold hfulfil, fulfil. simpl. destruct (hjobs h !! p); [|done].
  unfold deref, hon_fulfilled, on_fulfilled. by autorewrite with deref.
Qed.

Lemma hreject_deref p (h : Heap Val A) : deref (hreject p h) = reject p (deref h).
Proof. unfold hreject, reject. simpl. by destruct (hjobs h !! p). Qed.

Lemma hstep_deref e (h : Heap Val A) : deref (hstep getKey e h) = step getKey e (deref h).
Proof.
  destruct e; simpl.
  - apply hread_deref.
  - apply hflush_deref.
  - apply hrefetch_deref.
  - apply hfulfil_deref.
  - apply hreject_deref.
Qed.

Lemma hrun_deref es (h : Heap Val A) : deref (hrun getKey es h) = run getKey es (deref h).
Proof. revert h. induction es; simpl; intros h; [done|]. by rewrite IHes, hstep_deref. Qed.

(** ** The object a consumer holds *)

Section Frozen.
Variables (l : loc) (M : option (gmap Val A)).

(** [l] is an object older than the one [cache] is bound to, below the
    allocator, and holds [M]. *)
Definition frozen (h : Heap Val A) : Prop :=
  loc_car l < loc_car (cache_ref h) /\ loc_car (cache_ref h) < next_loc h /\
  cache_maps h !! l = M.

Lemma frozen_ne h : frozen h -> cache_ref h <> l.
Proof. intros (Hl & _) E. rewrite E in Hl. lia. Qed.

(** The writes through [cache] never reach an older object. *)
Lemma frozen_set_cache k v h : frozen h -> frozen (set_cache k v h).
Proof.
  intros Hf. pose proof (frozen_ne h Hf). destruct Hf as (? & ? & HM).
  split_and!; simpl; [done|done|]. by rewrite lookup_insert_ne.
Qed.

Lemma frozen_delete_cache k h : frozen h -> frozen (delete_cache k h).
Proof.
  intros Hf. pose proof (frozen_ne h Hf). destruct Hf as (? & ? & HM).
  split_and!; simpl; [done|done|]. by rewrite lookup_insert_ne.
Qed.

Lemma frozen_hread o h : frozen h -> frozen (fst (hread getKey o h)).
Proof.
  intros Hf. unfold hread.
  destruct (cur_cache h !! getKey o); [done|]. destruct (cur_pending h !! getKey o); [done|].
  exact Hf.
Qed.

Lemma frozen_hstep e h : frozen h -> frozen (hstep getKey e h).
Proof.
  intros Hf. destruct e as [o| |k|p v|p]; simpl.
  - by apply frozen_hread.
  - destruct Hf as (H1 & H2 & HM). split_and!; simpl; [lia|lia|].
    rewrite lookup_insert_ne; [done|]. intros <-. simpl in *. lia.
  - unfold hrefetch, rmodify, rbind, rret. simpl.
    pose proof (frozen_hread k _ (frozen_delete_cache k h Hf)) as Hr.
    by destruct (hread getKey k (delete_cache k h)) as [h1 [v|q]].
  - unfold hfulfil. destruct (hjobs h !! p); [|done].
    by apply frozen_set_cache.
  - unfold hreject. by destruct (hjobs h !! p).
Qed.

Lemma frozen_hrun es h : frozen h -> frozen (hrun getKey es h).
Proof. revert h. induction es; simpl; auto using frozen_hstep. Qed.
End Frozen.

(** The binding [cache] stays below the allocator. *)
Lemma hstep_ref_lt e (h : Heap Val A) :
  loc_car (cache_ref h) < next_loc h -> loc_car (cache_ref (hstep getKey e h)) < next_loc (hstep getKey e h).
Proof.
  destruct e as [o| |k|p v|p]; simpl; intros Hl.
  - unfold hread. destruct (cur_cache h !! getKey o); [done|].
    by destruct (cur_pending h !! getKey o).
  - lia.
  - unfold hrefetch, rmodify, rbind, rret, hread. simpl.
    destruct (cur_cache _ !! getKey k); [done|]. by destruct (cur_pending _ !! getKey k).
  - unfold hfulfil. by destruct (hjobs h !! p).
  - unfold hreject. by destruct (hjobs h !! p).
Qed.

Lemma hrun_ref_lt es (h : Heap Val A) :
  loc_car (cache_ref h) < next_loc h -> loc_car (cache_ref (hrun getKey es h)) < next_loc (hrun getKey es h).
Proof. revert h. induction es; simpl; auto using hstep_ref_lt. Qed.

(** ** Properties of the bindings *)

(** C23: A [withCache] consumer keeps a dead map
    after a flush: the object [CacheProvider] handed out before a
    [flush()] is never written again, by any later read, refetch,
    settlement or flush, so every [props.cache.get(k)] through it answers
    what it answered at the flush, while [read] goes to the new maps. *)
Theorem consumer_map_frozen (h : Heap Val A) es k :
  loc_car (cache_ref h) < next_loc h ->
  map_get (hrun getKey es (hflush h)) (CacheProvider h) k = map_get h (CacheProvider h) k.
Proof.
  intros Hl. unfold map_get, CacheProvider.
  assert (Hf : frozen (cache_ref h) (cache_maps h !! cache_ref h) (hflush h)).
  { split_and!; simpl; [lia|lia|]. rewrite lookup_insert_ne; [done|]. intros E.
    rewrite <- E in Hl. simpl in Hl. lia. }
  by destruct (frozen_hrun _ _ es _ Hf) as (_ & _ & ->).
Qed.
End Equiv.

(** ** Witness: a consumer rendered while a fetch of key 1 is pending *)

Lemma consumer_map_frozen_witness :
  let h : Heap nat nat := fst (hread getKey_default 1 hinit) in
  map_get (hrun getKey_default [EvFulfil 0 5; EvRead 1] (hflush h)) (CacheProvider h) 1 =
    map_get h (CacheProvider h) 1.
Proof. intros h. apply consumer_map_frozen. vm_compute. lia. Defined.

End Globals.
