(* ===== verification/Fetcher.v ===== *)
(** * The simple fetcher: [createFetcher] (src/src/index.js 14-26)

    Module [CreateFetcher] models the per-instance memo of [createFetcher]:
    its [resolved] map, captured by the closure of one fetcher object, the
    fetches it has started, and [read], which throws a fresh promise on
    every miss: there is no record of the fetches in flight, so concurrent
    reads of one key are not coalesced.  The settlement callback
    [v => resolved.set(key, v)] fills the map. *)

From S2P Require Import Prelude.

Module CreateFetcher.

(** A fetch started by [read]: the key its callback fills and the request
    [method(obj)] was called with. *)
Record job (Req Key : Type) := Job { job_key : Key; job_req : Req }.
Arguments Job {Req Key} job_key job_req.
Arguments job_key {Req Key} j.
Arguments job_req {Req Key} j.

(** The closure's [resolved] map, the fetches whose callback has not run,
    and the allocator of promise identities. *)
Record Fetcher (Req Key A : Type) `{Countable Key} := mkFetcher {
  resolved : gmap Key A;
  jobs : gmap promise (job Req Key);
  next_promise : promise
}.
Arguments mkFetcher {Req Key A _ _} resolved jobs next_promise.
Arguments resolved {Req Key A _ _} f.
Arguments jobs {Req Key A _ _} f.
Arguments next_promise {Req Key A _ _} f.

Section Model.
Context {Req Key : Type} `{Countable Key} {A : Type}.
Context (hash : Req -> Key).

Abbreviation Fetcher := (Fetcher Req Key A).

(** [const resolved = new Map();] *)
Definition create : Fetcher := mkFetcher ∅ ∅ 0.

(** [read(obj)]: a hit returns [resolved.get(key)]; a miss throws
    [method(obj).then(v => resolved.set(key, v))], a new promise. *)
Definition read (obj : Req) : Render Fetcher A := fun f =>
  let key := hash obj in
  match resolved f !! key with
  | Some v => (f, Ready v)
  | None =>
      let p := next_promise f in
      (mkFetcher (resolved f) (<[p:=Job key obj]> (jobs f)) (S p), Suspend p)
  end.

(** The fetch of [p] fulfils with [v]: [resolved.set(key, v)]. *)
Definition fulfil (p : promise) (v : A) (f : Fetcher) : Fetcher :=
  match jobs f !! p with
  | Some j => mkFetcher (<[job_key j:=v]> (resolved f)) (delete p (jobs f)) (next_promise f)
  | None => f
  end.

(** The fetch of [p] rejects: no handler, the map is unchanged. *)
Definition reject (p : promise) (f : Fetcher) : Fetcher :=
  match jobs f !! p with
  | Some _ => mkFetcher (resolved f) (delete p (jobs f)) (next_promise f)
  | None => f
  end.

Lemma fetcher_read_hit o f v : resolved f !! hash o = Some v -> read o f = (f, Ready v).
Proof. unfold read. by intros ->. Qed.

Lemma fetcher_read_miss o f :
  resolved f !! hash o = None ->
  read o f = (mkFetcher (resolved f) (<[next_promise f:=Job (hash o) o]> (jobs f))
                (S (next_promise f)), Suspend (next_promise f)).
Proof. unfold read. by intros ->. Qed.

(** The fetcher offers the [Resource] contract, with the view
    [resolved.get(hash(obj))]. *)
Definition resource : Resource Fetcher Req A.
Proof.
  refine {| res_read := read; res_cached f o := resolved f !! hash o |}.
  - intros f o v. apply fetcher_read_hit.
  - intros f o Hc. rewrite fetcher_read_miss by done. eauto.
  - intros f o f' r o' v. unfold read.
    destruct (resolved f !! hash o); intros [= <- _]; done.
Defined.

(** ** Properties of the fetcher *)

(** C36: No coalescing: [n] reads of a key that is
    not resolved start [n] fetches and throw [n] distinct promises. *)
Theorem fetcher_no_coalescing f k os :
  resolved f !! k = None -> Forall (fun o => hash o = k) os ->
  snd (rcalls read os f) = map Suspend (seq (next_promise f) (length os)) /\
  next_promise (fst (rcalls read os f)) = next_promise f + length os /\
  resolved (fst (rcalls read os f)) = resolved f.
Proof.
  intros Hk Hos. revert f Hk. induction Hos as [|o os Ho _ IH]; intros f Hk; simpl.
  - split_and!; [done|lia|done].
  - rewrite fetcher_read_miss by congruence. simpl.
    destruct (IH (mkFetcher (resolved f) (<[next_promise f:=Job (hash o) o]> (jobs f))
                    (S (next_promise f))) Hk) as (H1 & H2 & H3).
    destruct (rcalls read os _) as [f' rs]. simpl in *.
    split_and!; [by rewrite H1|lia|done].
Qed.

(** Once any fetch of a key fulfils with [v], reads
    of the key return [v] synchronously, without a new fetch. *)
Lemma fetcher_fulfil_hit f p j v o :
  jobs f !! p = Some j -> hash o = job_key j ->
  read o (fulfil p v f) = (fulfil p v f, Ready v).
Proof.
  intros Hj Hk. apply fetcher_read_hit. unfold fulfil. rewrite Hj. simpl.
  rewrite Hk. by map_simp.
Qed.

(** A rejected fetch leaves no trace: the next
    read of its key starts a new fetch, where [createResource] would
    re-throw the dead promise. *)
Lemma fetcher_reject_retries f p o :
  resolved f !! hash o = None ->
  read o (reject p f) =
    (mkFetcher (resolved (reject p f))
       (<[next_promise f:=Job (hash o) o]> (jobs (reject p f))) (S (next_promise f)),
     Suspend (next_promise f)).
Proof.
  intros Hk. rewrite fetcher_read_miss.
  - unfold reject. by destruct (jobs f !! p).
  - unfold reject. by destruct (jobs f !! p).
Qed.
End Model.

(** The hash of [ensureDelay] (index.js 81-84): [obj => obj.id], on the
    requests [{ id, ms }]. *)
Definition ensureDelay_hash (obj : string * nat) : string := fst obj.

(** ** Witnesses *)

Abbreviation F := (Fetcher (string * nat) string string).

Lemma fetcher_no_coalescing_witness :
  let os := [("fizz", 1000); ("fizz", 2000)] in
  snd (rcalls (read ensureDelay_hash) os (create : F)) =
    map Suspend (seq (next_promise (create : F)) (length os)) /\
  next_promise (fst (rcalls (read ensureDelay_hash) os (create : F))) =
    next_promise (create : F) + length os /\
  resolved (fst (rcalls (read ensureDelay_hash) os (create : F))) = resolved (create : F).
Proof.
  apply (fetcher_no_coalescing ensureDelay_hash create "fizz"); [reflexivity|].
  repeat constructor.
Defined.

End CreateFetcher.
