(* ===== verification/AsyncRoute.v ===== *)
(** * The route transition machine: [AsyncRouteRenderer] (src/src/index.js 137-200)

    Module [AsyncRouteRenderer] models the class component of index.js
    152-200 and the props [AsyncRoute] (137-150) hands it.  The component
    state is the JS object it is: a map from property names to booleans,
    which [setState] merges ([patch ∪ state], the patch winning) and whose
    absent properties read as [undefined], which is falsy.  The router's
    [match] object enters as its truthiness.  React's update of a mounted
    instance is [commit]: render with the new props, run
    [componentDidUpdate] with the previous props, and, if it called
    [setState], render again and run [componentDidUpdate] again. *)

From S2P Require Import Prelude.

Module AsyncRouteRenderer.

(** The data part of the props [{...routeProps, ...renderProps, didExpire}]:
    the route's [path], [exact], the per-route [ms] and [fallback] given in
    the route table, the truthiness of the router's [match], and the
    context's [didExpire]. *)
Record PropsData := mkData {
  path : string;
  exact : bool;
  ms : option nat;
  fallback : option vnode;
  match_ : bool;
  didExpire : bool
}.

(** The [children] prop: a function of the props, or an element. *)
Inductive Children :=
| ChildFn (f : PropsData -> vnode)
| ChildNode (n : vnode).

(** The props of the renderer; [children] and [render] receive the data
    part of the props ([this.props]). *)
Record Props := mkProps {
  data : PropsData;
  children : option Children;
  render_prop : option (PropsData -> vnode)
}.

(** [this.state]: a JS object of booleans. *)
Abbreviation State := (gmap string bool).

(** [state = { incoming: false, outgoing: false }] *)
Definition initial_state : State := <["incoming":=false]> (<["outgoing":=false]> ∅).

(** Reading a property: [undefined] is falsy. *)
Definition get (st : State) (k : string) : bool := default false (st !! k).

(** [this.setState(patch)] merges the patch into the state. *)
Definition setState (patch st : State) : State := patch ∪ st.

(** [componentDidUpdate({ match: prevMatch, didExpire: prevDidExpire })]:
    the patch it passes to [setState], or [None] when it returns early. *)
Definition componentDidUpdate (prev cur : Props) (st : State) : option State :=
  if Bool.eqb (didExpire (data cur)) (didExpire (data prev)) then None
  else if match_ (data cur) && negb (match_ (data prev)) then
    Some (<["incoming":=true]> (<["outgoing":=false]> ∅))
  else if negb (match_ (data cur)) && match_ (data prev) then
    Some (<["incomfing":=false]> (<["outgoing":=true]> ∅))
  else
    Some (<["incoming":=false]> (<["outgoing":=false]> ∅)).

(** [children ? (typeof children === 'function' ? children(this.props)
    : children) : render ? render(this.props) : null] *)
Definition content (p : Props) : vnode :=
  match children p with
  | Some (ChildFn f) => f (data p)
  | Some (ChildNode n) => n
  | None =>
      match render_prop p with
      | Some r => r (data p)
      | None => VNull
      end
  end.

(** [render()] *)
Definition render (p : Props) (st : State) : vnode :=
  let incoming := get st "incoming" in
  let outgoing := get st "outgoing" in
  let de := didExpire (data p) in
  if match_ (data p) && negb incoming && negb outgoing && negb de then content p
  else if incoming && negb de then content p
  else if incoming && de then VNull
  else if outgoing && de then content p
  else if outgoing && negb de then VNull
  else VNull.

(** A mounted instance: its current props and state. *)
Record Instance := mkInst { props : Props; state : State }.

(** Mounting renders with the initial state. *)
Definition mount (p : Props) : Instance * vnode :=
  (mkInst p initial_state, render p initial_state).

(** One commit with new props [np]: render, then [componentDidUpdate]
    with the previous props; a [setState] there re-renders with [np] as
    both previous and current props.  The committed renders are listed. *)
Fixpoint commit (fuel : nat) (prev np : Props) (st : State) : State * list vnode :=
  let out := render np st in
  match fuel with
  | 0 => (st, [out])
  | S f =>
      match componentDidUpdate prev np st with
      | None => (st, [out])
      | Some patch =>
          let '(st', outs) := commit f np np (setState patch st) in
          (st', out :: outs)
      end
  end.

(** The update of an instance with new props; two rounds of
    [componentDidUpdate] always suffice ([commit_fuel]). *)
Definition update (np : Props) (i : Instance) : Instance * list vnode :=
  let '(st, outs) := commit 2 (props i) np (state i) in
  (mkInst np st, outs).

(** ** What the spec asks of the machine (spec §4.3) *)

(** A cell of the spec's decision table: a wildcard or a value. *)
Inductive cell := Any | Is (b : bool).

Definition cell_matches (c : cell) (b : bool) : bool :=
  match c with Any => true | Is b' => Bool.eqb b b' end.

(** The rows [(match, incoming, outgoing, expired, render content?)] of
    the table; the first row that matches decides, no row means no
    content. *)
Definition spec_table : list (cell * cell * cell * cell * bool) :=
  [(Is true, Is false, Is false, Is false, true);
   (Any, Is true, Is false, Is false, true);
   (Any, Is true, Is false, Is true, false);
   (Any, Is false, Is true, Is true, true);
   (Any, Is false, Is true, Is false, false)].

Fixpoint table_decision (rows : list (cell * cell * cell * cell * bool)) (m i o e : bool) : bool :=
  match rows with
  | [] => false
  | (cm, ci, co, ce, r) :: rows' =>
      if cell_matches cm m && cell_matches ci i && cell_matches co o && cell_matches ce e
      then r else table_decision rows' m i o e
  end.

(** The spec's transition of the flags [(incoming, outgoing)], from the
    previous and current [(match, expired)]. *)
Definition spec_next (pm pe m e : bool) (fl : bool * bool) : bool * bool :=
  if Bool.eqb e pe then fl
  else if m && negb pm then (true, false)
  else if negb m && pm then (false, true)
  else (false, false).

(** The flags the state shows to [render]. *)
Definition flags (st : State) : bool * bool := (get st "incoming", get st "outgoing").

(** The state after [componentDidUpdate] and its [setState]. *)
Definition after (prev cur : Props) (st : State) : State :=
  match componentDidUpdate prev cur st with
  | None => st
  | Some patch => setState patch st
  end.

(** ** Lemmas on the JS state and the update cycle *)

Lemma get_setState patch st k :
  get (setState patch st) k = match patch !! k with Some b => b | None => get st k end.
Proof.
  unfold get, setState. rewrite lookup_union.
  by destruct (patch !! k), (st !! k).
Qed.

Lemma componentDidUpdate_same p st : componentDidUpdate p p st = None.
Proof. unfold componentDidUpdate. by rewrite Bool.eqb_reflx. Qed.

(** A commit with fuel runs [componentDidUpdate] once with the previous
    props, then once more with equal props, which returns at once. *)
Lemma commit_unfold f prev np st :
  commit (S f) prev np st =
    (after prev np st,
     render np st ::
       match componentDidUpdate prev np st with
       | None => []
       | Some patch => [render np (setState patch st)]
       end).
Proof.
  unfold after. simpl. destruct (componentDidUpdate prev np st) as [patch|]; [|done].
  destruct f; simpl; [done|]. by rewrite componentDidUpdate_same.
Qed.

Lemma update_state np i : state (fst (update np i)) = after (props i) np (state i).
Proof. unfold update. by rewrite commit_unfold. Qed.

Lemma update_props np i : props (fst (update np i)) = np.
Proof. unfold update. by rewrite commit_unfold. Qed.

(** The flags after an update, on each branch of [componentDidUpdate]. *)
Lemma after_flags prev cur st :
  flags (after prev cur st) =
    if Bool.eqb (didExpire (data cur)) (didExpire (data prev)) then flags st
    else if match_ (data cur) && negb (match_ (data prev)) then (true, false)
    else if negb (match_ (data cur)) && match_ (data prev) then (get st "incoming", true)
    else (false, false).
Proof.
  unfold after, componentDidUpdate, flags.
  destruct (Bool.eqb _ _); [done|].
  destruct (match_ (data cur)), (match_ (data prev)); simpl;
    rewrite !get_setState; reflexivity.
Qed.

(** ** Runs under the spec's timeout gate *)

(** The instances reachable when [didExpire] comes from the spec's gate:
    mounted with any props, then updated with props whose [didExpire],
    once true, stays true. *)
Inductive gate_run : Instance -> Prop :=
| gate_mount p : gate_run (fst (mount p))
| gate_update i np :
    gate_run i ->
    (didExpire (data (props i)) = true -> didExpire (data np) = true) ->
    gate_run (fst (update np i)).

(** Never both flags; no flag at all before the expiration. *)
Definition gate_inv (i : Instance) : Prop :=
  flags (state i) <> (true, true) /\
  (didExpire (data (props i)) = false -> flags (state i) = (false, false)).

Lemma gate_inv_mount p : gate_inv (fst (mount p)).
Proof. split; simpl; by vm_compute. Qed.

Lemma gate_inv_update i np :
  gate_inv i ->
  (didExpire (data (props i)) = true -> didExpire (data np) = true) ->
  gate_inv (fst (update np i)).
Proof.
  destruct i as [pp st]. unfold gate_inv. simpl. intros [Hx Hf] Hmono.
  rewrite update_state, update_props, after_flags. simpl.
  destruct (didExpire (data pp)), (didExpire (data np)); simpl.
  - split; [done|discriminate].
  - discriminate (Hmono eq_refl).
  - unfold flags in Hf. injection (Hf eq_refl) as -> _.
    destruct (match_ (data np)), (match_ (data pp)); simpl; split; congruence.
  - split; auto.
Qed.

Lemma gate_run_inv i : gate_run i -> gate_inv i.
Proof. induction 1; auto using gate_inv_mount, gate_inv_update. Qed.

(** ** The shape of the state object *)

(** ** Properties of the machine *)

(** C28: In every state where the flags are not both
    set, [render] shows the route's content exactly when the spec's
    decision table says so, and renders [null] otherwise. *)
Theorem render_spec_table p st :
  ~ (get st "incoming" = true /\ get st "outgoing" = true) ->
  render p st =
    if table_decision spec_table (match_ (data p)) (get st "incoming") (get st "outgoing")
         (didExpire (data p))
    then content p else VNull.
Proof.
  unfold render. intros Hx.
  destruct (match_ (data p)), (get st "incoming"), (get st "outgoing"), (didExpire (data p));
    simpl; tauto.
Qed.

(** C31: With both flags set and the timeout not
    expired, [render] shows the content, where the spec's table (no row
    matches) shows nothing. *)
Theorem render_both_flags p st :
  get st "incoming" = true -> get st "outgoing" = true -> didExpire (data p) = false ->
  render p st = content p /\
  table_decision spec_table (match_ (data p)) true true false = false.
Proof.
  intros Hi Ho He. unfold render. rewrite Hi, Ho, He.
  by destruct (match_ (data p)).
Qed.

(** C3: [componentDidUpdate] on each branch: no
    change while [didExpire] is unchanged; a route that became matched is
    incoming; one that became unmatched is outgoing but keeps its
    [incoming] flag, because the patch names the property [incomfing];
    otherwise both flags are cleared. *)
Theorem componentDidUpdate_flags prev cur st :
  flags (state (fst (update cur (mkInst prev st)))) =
    if Bool.eqb (didExpire (data cur)) (didExpire (data prev)) then flags st
    else if match_ (data cur) && negb (match_ (data prev)) then (true, false)
    else if negb (match_ (data cur)) && match_ (data prev) then (get st "incoming", true)
    else (false, false).
Proof. rewrite update_state. apply after_flags. Qed.

(** C29: Refinement of the spec's transition:
    from a state that is not incoming, an update moves the flags as the
    spec's [next_state] does. *)
Theorem componentDidUpdate_refines prev cur st :
  get st "incoming" = false ->
  flags (state (fst (update cur (mkInst prev st)))) =
    spec_next (match_ (data prev)) (didExpire (data prev))
      (match_ (data cur)) (didExpire (data cur)) (flags st).
Proof.
  intros Hi. rewrite update_state, after_flags. unfold spec_next. simpl.
  rewrite Hi. by destruct (Bool.eqb _ _), (match_ (data cur)), (match_ (data prev)).
Qed.

(** C1: Invariant (P6) under the spec's timeout gate:
    on every run whose expiration flag changes at most once, from false to
    true, an instance is never both incoming and outgoing. *)
Theorem gate_run_exclusive i : gate_run i -> flags (state i) <> (true, true).
Proof. intros Hr. apply (gate_run_inv i Hr). Qed.

(** C2: The invariant fails when the expiration
    flag changes twice: a route that becomes matched while the timeout
    expires, then unmatched while it clears, ends both incoming and
    outgoing, and both renders of the last update show the content of the
    route that is no longer matched. *)
Theorem double_flip_both_flags p0 p1 p2 :
  match_ (data p0) = false -> didExpire (data p0) = false ->
  match_ (data p1) = true -> didExpire (data p1) = true ->
  match_ (data p2) = false -> didExpire (data p2) = false ->
  let i2 := update p2 (fst (update p1 (fst (mount p0)))) in
  flags (state (fst i2)) = (true, true) /\ snd i2 = [content p2; content p2].
Proof.
  intros Hm0 He0 Hm1 He1 Hm2 He2 i2. unfold i2, update, mount, render.
  rewrite !commit_unfold. unfold after, componentDidUpdate, render. simpl.
  rewrite Hm0, He0, Hm1, He1, Hm2, He2. by vm_compute.
Qed.

(** C32: Scenario C: a steady route that
    becomes matched in the update where the timeout expires enters
    Incoming, and both renders of that update are [null]. *)
Theorem scenario_c_incoming_hidden prev np st :
  match_ (data prev) = false -> didExpire (data prev) = false ->
  match_ (data np) = true -> didExpire (data np) = true ->
  flags st = (false, false) ->
  flags (state (fst (update np (mkInst prev st)))) = (true, false) /\
  snd (update np (mkInst prev st)) = [VNull; VNull].
Proof.
  intros Hm0 He0 Hm1 He1 Hf. unfold flags in Hf. injection Hf as Hi Ho.
  split.
  - rewrite update_state, after_flags. simpl. by rewrite Hm0, He0, Hm1, He1.
  - unfold update. rewrite commit_unfold. unfold componentDidUpdate, render. simpl.
    rewrite Hm0, He0, Hm1, He1, Hi, Ho. simpl. rewrite !get_setState. by vm_compute.
Qed.

(** C33: Termination of the update cycle: whatever the fuel
    beyond one round, a commit performs the same renders and reaches the
    same state, a state in which [componentDidUpdate] no longer calls
    [setState]; so an update commits at most two renders. *)
Theorem commit_fuel f prev np st :
  commit (S f) prev np st = commit 1 prev np st /\
  componentDidUpdate np np (fst (commit (S f) prev np st)) = None /\
  length (snd (commit (S f) prev np st)) <= 2.
Proof.
  rewrite !commit_unfold. split_and!; [done|apply componentDidUpdate_same|].
  simpl. destruct (componentDidUpdate prev np st); simpl; lia.
Qed.

(** ** Witnesses, on the [/about] route of the route table *)

(** The props of [<AsyncRoute exact path="/about" fallback ms={1000}
    render={..}/>] (index.js 238-250) for a given [match] and [didExpire]. *)
Definition about_props (m e : bool) : Props :=
  mkProps (mkData "/about" true (Some 1000) (Some (VElem "Spinner" false [])) m e)
    None (Some (fun _ => VElem "div" false [VElem "h1" false [VText "About"]])).

Lemma render_spec_table_witness :
  render (about_props true false) initial_state =
    if table_decision spec_table true (get initial_state "incoming")
         (get initial_state "outgoing") false
    then content (about_props true false) else VNull.
Proof. apply (render_spec_table (about_props true false) initial_state). by_decide. Defined.

Lemma render_both_flags_witness :
  let st : State := <["incoming":=true]> (<["outgoing":=true]> ∅) in
  render (about_props false false) st = content (about_props false false) /\
  table_decision spec_table false true true false = false.
Proof.
  apply (render_both_flags (about_props false false) (<["incoming":=true]> (<["outgoing":=true]> ∅)));
    reflexivity.
Defined.

Lemma componentDidUpdate_refines_witness :
  flags (state (fst (update (about_props false true) (mkInst (about_props true false) initial_state)))) =
    spec_next true false false true (flags initial_state).
Proof.
  apply (componentDidUpdate_refines (about_props true false) (about_props false true) initial_state).
  reflexivity.
Defined.

Lemma gate_run_exclusive_witness :
  flags (state (fst (update (about_props true true) (fst (mount (about_props false false))))))
    <> (true, true).
Proof.
  apply gate_run_exclusive. apply gate_update; [apply gate_mount | reflexivity].
Defined.

Lemma double_flip_both_flags_witness :
  let i2 := update (about_props false false)
              (fst (update (about_props true true) (fst (mount (about_props false false))))) in
  flags (state (fst i2)) = (true, true) /\
  snd i2 = [content (about_props false false); content (about_props false false)].
Proof.
  apply (double_flip_both_flags (about_props false false) (about_props true true)
           (about_props false false)); reflexivity.
Defined.

Lemma scenario_c_incoming_hidden_witness :
  flags (state (fst (update (about_props true true) (mkInst (about_props false false) initial_state))))
    = (true, false) /\
  snd (update (about_props true true) (mkInst (about_props false false) initial_state)) = [VNull; VNull].
Proof.
  apply (scenario_c_incoming_hidden (about_props false false) (about_props true true) initial_state);
    reflexivity.
Defined.

End AsyncRouteRenderer.
