(* ===== verification/Timeout.v ===== *)
(** * The timeout gate: [Timeout] and [AsyncRouteProvider] (src/src/index.js 61-72, 122-135)

    Module [TimeoutView] models what [Timeout] renders for a value of the
    flag [didTimeout] (a span, hidden once expired, around the children,
    and the fallback), and [AsyncRouteProvider], which renders its children
    with the flag as context value.  Module [Gate] models the flag's
    source, the host's [React.Timeout], from the spec (§4.2): a one-shot
    timer started at mount that sets the flag once [ms] have elapsed and is
    cancelled at unmount.  Module [Driven] builds the props of the
    renderer from the route's own props, the router's [match] and the
    flag [AsyncRoute] consumes. *)

From S2P Require Import Prelude AsyncRoute.

Module TimeoutView.

(** The texts of a tree that are on screen: hidden elements show nothing. *)
Fixpoint visible (n : vnode) : list string :=
  match n with
  | VNull => []
  | VText s => [s]
  | VElem _ h kids => if h then [] else flat_map visible kids
  | VFrag kids => flat_map visible kids
  end.

(** The texts of a tree that are mounted, hidden or not. *)
Fixpoint mounted (n : vnode) : list string :=
  match n with
  | VNull => []
  | VText s => [s]
  | VElem _ _ kids => flat_map mounted kids
  | VFrag kids => flat_map mounted kids
  end.

(** [Timeout({ ms, fallback, children })] rendered by [React.Timeout]
    with the flag [didTimeout]. *)
Definition Timeout (fallback : vnode) (children : bool -> vnode) (didTimeout : bool) : vnode :=
  VFrag [VElem "span" didTimeout [children didTimeout];
         if didTimeout then fallback else VNull].

(** [AsyncRouteProvider({ ms, fallback, children })]: the children are
    rendered below a context provider whose value is the flag; [children]
    is what they render for a value of the context. *)
Definition AsyncRouteProvider (fallback : vnode) (children : bool -> vnode)
    (didExpire : bool) : vnode :=
  Timeout fallback (fun de => VFrag [VFrag [children de]]) didExpire.

(** The render contract of the gate (spec
    §4.2): while pending, the children rendered with [false] are on screen
    and the fallback is absent; once expired, the children rendered with
    [true] stay mounted but hidden, and the fallback alone is on screen. *)
Lemma timeout_view_contract fb ch :
  visible (Timeout fb ch false) = visible (ch false) /\
  visible (Timeout fb ch true) = visible fb /\
  mounted (Timeout fb ch true) = mounted (ch true) ++ mounted fb.
Proof.
  unfold Timeout. simpl. rewrite !app_nil_r. split_and!; done.
Qed.

(** [AsyncRouteProvider] shows what its children
    render for the current flag, and the spinner instead once expired. *)
Lemma provider_passes_flag fb ch :
  visible (AsyncRouteProvider fb ch false) = visible (ch false) /\
  visible (AsyncRouteProvider fb ch true) = visible fb /\
  mounted (AsyncRouteProvider fb ch true) = mounted (ch true) ++ mounted fb.
Proof.
  unfold AsyncRouteProvider, Timeout. simpl. rewrite !app_nil_r. split_and!; done.
Qed.

End TimeoutView.

Module Gate.

(** The timer of one gate: its duration, the time since mount, the flag,
    and whether the instance (and its timer) is still there. *)
Record Gate := mkGate { ms : nat; elapsed : nat; expired : bool; alive : bool }.

(** Mount: the timer starts, the flag is down. *)
Definition mount (ms : nat) : Gate := mkGate ms 0 false true.

(** Time passes by [dt]: the timer's callback sets the flag once [ms]
    have elapsed; a cancelled timer does nothing. *)
Definition tick (dt : nat) (g : Gate) : Gate :=
  if alive g then
    let e := elapsed g + dt in
    mkGate (ms g) e (expired g || (ms g <=? e)) true
  else g.

(** Unmount: the timer is cancelled. *)
Definition unmount (g : Gate) : Gate := mkGate (ms g) (elapsed g) (expired g) false.

Fixpoint ticks (ds : list nat) (g : Gate) : Gate :=
  match ds with
  | [] => g
  | d :: ds' => ticks ds' (tick d g)
  end.

Lemma ticks_alive ds ms0 e x :
  ticks ds (mkGate ms0 e x true) =
    mkGate ms0 (e + sum_list ds) (x || (bool_decide (ds <> []) && (ms0 <=? e + sum_list ds))) true.
Proof.
  revert e x. induction ds as [|d ds IH]; intros e x; simpl.
  - by rewrite Nat.add_0_r, orb_false_r.
  - unfold tick. simpl. rewrite IH. f_equal; [lia|].
    destruct x; [done|]. simpl.
    destruct ds as [|d' ds']; simpl.
    + rewrite !Nat.add_0_r. by destruct (ms0 <=? e + d).
    + rewrite ?bool_decide_true by done.
      destruct (Nat.leb_spec ms0 (e + d)), (Nat.leb_spec ms0 (e + d + (d' + sum_list ds'))),
        (Nat.leb_spec ms0 (e + (d + (d' + sum_list ds')))); simpl; done || lia.
Qed.

Lemma tick_monotone dt g : expired g = true -> expired (tick dt g) = true.
Proof. unfold tick. destruct (alive g); simpl; [intros ->|]; done. Qed.

(** The flag of the gate (P5): after ticks summing to
    [t] since mount, it is set exactly when at least one tick happened and
    [t >= ms]; it is never cleared afterwards. *)
Lemma gate_expires_once m ds :
  expired (ticks ds (mount m)) = bool_decide (ds <> []) && (m <=? sum_list ds) /\
  forall ds', expired (ticks ds (mount m)) = true -> expired (ticks (ds ++ ds') (mount m)) = true.
Proof.
  unfold mount. rewrite ticks_alive. simpl. split; [done|].
  intros ds' Hx. rewrite ticks_alive. simpl in *.
  apply andb_true_iff in Hx as [Hn Hle]. apply bool_decide_eq_true in Hn.
  apply Nat.leb_le in Hle.
  rewrite bool_decide_true by (destruct ds; [done|discriminate]).
  rewrite sum_list_app. apply Nat.leb_le. lia.
Qed.

(** Teardown: once unmounted, no amount of time
    changes the gate: the timer's callback never writes into it. *)
Lemma gate_unmount_cancels ds g : ticks ds (unmount g) = unmount g.
Proof. induction ds as [|d ds IH]; simpl; [done|]. exact IH. Qed.

End Gate.

Module Driven.
Import AsyncRouteRenderer.

(** [<AsyncRouteRenderer {...routeProps} {...renderProps}
    didExpire={didExpire} />] (index.js 137-150): the route's own props
    with the router's [match] and the provider's flag. *)
Definition with_inputs (p : Props) (m e : bool) : Props :=
  mkProps (mkData (path (data p)) (exact (data p)) (AsyncRouteRenderer.ms (data p))
             (fallback (data p)) m e)
    (children p) (render_prop p).

End Driven.

Module ScenarioB.

(** Scenario B: with [ms = 1000], at 999 ms the gate is
    pending and the children rendered with [false] are on screen without
    the fallback; at 1001 ms it has expired, the children rendered with
    [true] are mounted but hidden and the fallback is on screen. *)
Lemma scenario_b fb ch :
  let g999 := Gate.ticks [999] (Gate.mount 1000) in
  let g1001 := Gate.ticks [1001] (Gate.mount 1000) in
  Gate.expired g999 = false /\ Gate.expired g1001 = true /\
  TimeoutView.visible (TimeoutView.Timeout fb ch (Gate.expired g999)) = TimeoutView.visible (ch false) /\
  TimeoutView.visible (TimeoutView.Timeout fb ch (Gate.expired g1001)) = TimeoutView.visible fb /\
  TimeoutView.mounted (TimeoutView.Timeout fb ch (Gate.expired g1001)) =
    TimeoutView.mounted (ch true) ++ TimeoutView.mounted fb.
Proof.
  intros g999 g1001.
  assert (E1 : Gate.expired g999 = false) by reflexivity.
  assert (E2 : Gate.expired g1001 = true) by reflexivity.
  rewrite E1, E2. unfold TimeoutView.Timeout. simpl. rewrite !app_nil_r. done.
Qed.

End ScenarioB.
