(* ===== verification/Context.v ===== *)
(** * The context that carries the flag (src/src/index.js 120-150)

    Module [AsyncRouteCtx] models [const AsyncRouteContext =
    createContext('asyncRoute')] and the two ends that use it: the
    provider inside [AsyncRouteProvider], whose value is the flag
    [didExpire] (a boolean), and the consumer inside [AsyncRoute], which
    reads the value of the nearest provider above it, or the context's
    default, the string ['asyncRoute'], where there is none.  The
    renderer tests the value by truthiness ([!didExpire]) and compares it
    with the previous one by strict equality ([===]); the other files
    model it as a boolean, which [strict_eq_truthy] justifies for the
    values one consumer sees. *)

From S2P Require Import Prelude AsyncRoute Timeout.

Module AsyncRouteCtx.
Import AsyncRouteRenderer.

(** The JS values a context of this program holds. *)
Inductive jsval :=
| JBool (b : bool)
| JStr (s : string).

(** [!!v]: the empty string is the only falsy string. *)
Definition truthy (v : jsval) : bool :=
  match v with
  | JBool b => b
  | JStr s => negb (String.eqb s "")
  end.

(** [v1 === v2] *)
Definition strict_eq (v1 v2 : jsval) : bool :=
  match v1, v2 with
  | JBool a, JBool b => Bool.eqb a b
  | JStr a, JStr b => String.eqb a b
  | _, _ => false
  end.

(** [createContext(defaultValue)] *)
Record Context := mkContext { default_value : jsval }.

(** [const AsyncRouteContext = createContext('asyncRoute')] *)
Definition AsyncRouteContext : Context := mkContext (JStr "asyncRoute").

(** [<AsyncRouteContext.Provider value={didExpire}>] inside
    [AsyncRouteProvider]: the value it provides. *)
Definition provided (didExpire : bool) : jsval := JBool didExpire.

(** [<AsyncRouteContext.Consumer>{didExpire => ...}]: the value of the
    nearest provider above, or the default. *)
Definition consume (ctx : Context) (above : option jsval) : jsval :=
  default (default_value ctx) above.

(** [<AsyncRouteRenderer {...routeProps} {...renderProps}
    didExpire={didExpire} />] with the consumed value, as the renderer
    tests it. *)
Definition consumer_props (above : option jsval) (p : Props) (m : bool) : Props :=
  Driven.with_inputs p m (truthy (consume AsyncRouteContext above)).

(** A route mounted with the router's [match], then re-rendered with
    each next [match], below the same providers: every committed render. *)
Fixpoint route_renders (above : option jsval) (i : Instance) (ms : list bool) : list vnode :=
  match ms with
  | [] => []
  | m :: ms' =>
      let '(i', outs) := update (consumer_props above (props i) m) i in
      outs ++ route_renders above i' ms'
  end.

(** ** Lemmas *)

(** Two values one consumer sees, both from providers or both the
    default, compare by [===] as their truthiness compares. *)
Lemma strict_eq_truthy (above1 above2 : option bool) :
  is_Some above1 <-> is_Some above2 ->
  strict_eq (consume AsyncRouteContext (provided <$> above1))
            (consume AsyncRouteContext (provided <$> above2)) =
  Bool.eqb (truthy (consume AsyncRouteContext (provided <$> above1)))
           (truthy (consume AsyncRouteContext (provided <$> above2))).
Proof.
  destruct above1 as [b1|], above2 as [b2|]; simpl; intros H; try reflexivity.
  - destruct H as [H _]. by destruct (H (ex_intro _ b1 eq_refl)).
  - destruct H as [_ H]. by destruct (H (ex_intro _ b2 eq_refl)).
Qed.

(** Without a provider the renderer sees an expired flag. *)
Lemma default_truthy : truthy (consume AsyncRouteContext None) = true.
Proof. reflexivity. Qed.

(** Updates with the flag up and the state untouched render [null]. *)
Lemma update_expired_null i np :
  state i = initial_state -> didExpire (data (props i)) = true -> didExpire (data np) = true ->
  state (fst (update np i)) = initial_state /\ Forall (eq VNull) (snd (update np i)).
Proof.
  intros Hs Hi Hn. unfold update. rewrite Hs. destruct i as [pi si]; simpl in *.
  unfold commit, componentDidUpdate. rewrite Hn, Hi. simpl.
  unfold render. rewrite Hn. simpl. rewrite !andb_false_r. split; [done|by repeat constructor].
Qed.

(** ** Properties *)

(** C30: An [AsyncRoute] rendered where no [AsyncRouteProvider] is above
    it reads the context's default, the string ['asyncRoute'], which is
    truthy: it never renders its content, at mount nor after any change
    of [match], since the flag never changes and [componentDidUpdate]
    returns at once. *)
Theorem route_outside_provider p m ms :
  snd (mount (consumer_props None p m)) = VNull /\
  Forall (eq VNull) (route_renders None (fst (mount (consumer_props None p m))) ms).
Proof.
  split; [unfold mount, render; simpl; by rewrite !andb_false_r|].
  assert (H0 : state (fst (mount (consumer_props None p m))) = initial_state /\
               didExpire (data (props (fst (mount (consumer_props None p m))))) = true) by done.
  revert H0. generalize (fst (mount (consumer_props None p m))) as i.
  induction ms as [|m' ms IH]; intros i [Hs Hd]; simpl; [constructor|].
  pose proof (update_props (consumer_props None (props i) m') i) as Hp.
  destruct (update_expired_null i (consumer_props None (props i) m') Hs Hd eq_refl) as [Hs' Ho].
  destruct (update (consumer_props None (props i) m') i) as [i' outs]. simpl in *.
  apply Forall_app. split; [done|]. apply IH. split; [done|]. by rewrite Hp.
Qed.

End AsyncRouteCtx.
