(* ===== verification/Spinner.v ===== *)
(** * The spinner (src/src/Spinner.js)

    Module [Spinner] models the fallback element of the app: a [div]
    holding the emoji 🌀, styled by a glamor [css] prop whose animation
    turns it once a second.  glamor is a library the file only calls:
    [css.keyframes] returns a generated animation name, which enters the
    model as a parameter.  The element is what the host renders; the
    style is kept beside it as a record of the declared properties. *)

From S2P Require Import Prelude.

Module Spinner.

(** [css.keyframes({ from: {...}, to: {...} })]: the [transform] at each
    end of the animation. *)
Record Keyframes := mkKeyframes { kf_from : string; kf_to : string }.

(** [let spin = css.keyframes(...)]: a full counter-clockwise turn. *)
Definition spin : Keyframes := mkKeyframes "rotate(0deg)" "rotate(-360deg)".

(** The [css] prop of the [div]. *)
Record Style := mkStyle {
  height : nat;
  fontSize : nat;
  width : nat;
  margin : string;
  transformOrigin : string;
  textAlign : string;
  animation : string
}.

(** The style, for the name glamor generated for [spin]:
    [animation: `${spin} infinite 1s linear`]. *)
Definition spinner_style (spin_name : string) : Style :=
  mkStyle 50 50 50 "2rem auto" "50% 75%" "center" (String.append spin_name " infinite 1s linear").

(** [export const Spinner = size => (<div css={...}>🌀</div>)]: the
    parameter, named [size], is the props object, and is not read. *)
Definition Spinner {P : Type} (size : P) : vnode := VElem "div" false [VText "🌀"].

End Spinner.
