(* ===== verification/App.v ===== *)
(** * The sample components and pages (src/src/index.js 74-118, 205-266)

    Module [App] models the components that read while rendering: [Stock]
    reads a quote from [ensureQuote] (a [createResource]) and [Delay]
    reads from [ensureDelay] (a [createFetcher]); the pages that the
    [/about] and [/settings] routes render compose them in order, and a
    throw aborts the page at the first component that suspends.  The
    components are written and proved against the [Resource] class, then
    instantiated with the two caches of the program, each in its own part
    of the application's state. *)

From S2P Require Import Prelude Resource Fetcher.

Module App.

(** The fields of a quote the [Stock] component shows. *)
Record Quote := mkQuote { companyName : string; symbol : string; change : string }.

Section Components.
Context {W : Type} (quotes : Resource W string Quote) (delays : Resource W (string * nat) string).

(** The tree [Stock] renders for a quote. *)
Definition stock_view (result : Quote) : vnode :=
  VElem "div" false
    [VText (companyName result); VText " ";
     VElem "small" false [VText "("; VText (symbol result); VText ")"];
     VText " "; VText (change result); VText "%"].

(** [function Stock({ ticker })]: [ensureQuote.read(ticker)], then the
    quote. *)
Definition Stock (ticker : string) : Render W vnode :=
  result <- @res_read _ _ _ quotes ticker ;; rret (stock_view result).

(** [function Delay({ id, ms })]: [ensureDelay.read({ id, ms })], then the
    id. *)
Definition Delay (id : string) (ms : nat) : Render W vnode :=
  _ <- @res_read _ _ _ delays (id, ms) ;; rret (VElem "div" false [VText id]).

Definition h1 (s : string) : vnode := VElem "h1" false [VText s].

(** The [render] of the [/about] route: [<h1>], [<Stock ticker="aapl"/>],
    [<Delay id="fizzsd" ms={1000}/>], rendered in order. *)
Definition about_page : Render W vnode :=
  kids <- rmap (fun c => c) [rret (h1 "About"); Stock "aapl"; Delay "fizzsd" 1000] ;;
  rret (VElem "div" false kids).

(** The [render] of the [/settings] route: [<h1>], then a fragment of
    [<Delay id="fizz" ms={1000}/>] and [<Delay id="buzz" ms={2000}/>]. *)
Definition settings_page : Render W vnode :=
  h <- rret (h1 "Settings") ;;
  d1 <- Delay "fizz" 1000 ;;
  d2 <- Delay "buzz" 2000 ;;
  rret (VElem "div" false [h; VFrag [d1; d2]]).

(** ** Properties against the contract of the caches *)

(** When both reads of [/about] are cached, the page
    renders at once, without touching the caches, to the quote and the
    delayed id. *)
Lemma about_page_ready w q s :
  res_cached w "aapl" = Some q -> res_cached w ("fizzsd", 1000) = Some s ->
  about_page w =
    (w, Ready (VElem "div" false
                 [h1 "About"; stock_view q; VElem "div" false [VText "fizzsd"]])).
Proof.
  intros Hq Hs. unfold about_page, Stock, Delay. simpl. unfold rbind, rret.
  rewrite (res_read_hit _ _ _ Hq). simpl. by rewrite (res_read_hit _ _ _ Hs).
Qed.

Lemma about_page_quote_miss w :
  res_cached w "aapl" = None ->
  exists w' p, @res_read _ _ _ quotes "aapl" w = (w', Suspend p) /\ about_page w = (w', Suspend p).
Proof.
  intros Hq. destruct (res_read_miss _ _ Hq) as (w' & p & Hr). exists w', p. split; [done|].
  unfold about_page, Stock. simpl. unfold rbind, rret. by rewrite Hr.
Qed.

(** The render waterfall of [/about]: while the
    quote is not cached the page throws what [Stock]'s read throws, with
    the state that read left, so the [Delay] below it has not started its
    fetch. *)
Lemma about_page_waterfall w :
  res_cached w "aapl" = None ->
  exists w' p, @res_read _ _ _ quotes "aapl" w = (w', Suspend p) /\ about_page w = (w', Suspend p).
Proof. apply about_page_quote_miss. Qed.

(** [/settings] with the first delay
    resolved and the second not: the page throws the second read's
    promise; a resolved value is never lost by rendering. *)
Lemma settings_page_second_delay w s :
  res_cached w ("fizz", 1000) = Some s -> res_cached w ("buzz", 2000) = None ->
  exists w' p, @res_read _ _ _ delays ("buzz", 2000) w = (w', Suspend p) /\
    settings_page w = (w', Suspend p) /\ res_cached w' ("fizz", 1000) = Some s.
Proof.
  intros Hf Hb. destruct (res_read_miss _ _ Hb) as (w' & p & Hr). exists w', p.
  split_and!; [done| |by eapply res_read_keeps].
  unfold settings_page, Delay. unfold rbind, rret. rewrite (res_read_hit _ _ _ Hf). by rewrite Hr.
Qed.

(** ** The outcomes of the pages, case by case *)

(** [/about] throws either the quote's read, when the quote is not
    cached, or else the delay's read, when the delay is not cached. *)
Lemma about_page_suspends w w' p :
  about_page w = (w', Suspend p) ->
  (res_cached w "aapl" = None /\ @res_read _ _ _ quotes "aapl" w = (w', Suspend p)) \/
  (is_Some (res_cached w "aapl") /\ res_cached w ("fizzsd", 1000) = None /\
   @res_read _ _ _ delays ("fizzsd", 1000) w = (w', Suspend p)).
Proof.
  unfold about_page, Stock, Delay. simpl. unfold rbind, rret. intros H.
  destruct (res_cached w "aapl") as [q|] eqn:Hq.
  - rewrite (res_read_hit _ _ _ Hq) in H. right.
    destruct (res_cached w ("fizzsd", 1000)) as [s|] eqn:Hs.
    + by rewrite (res_read_hit _ _ _ Hs) in H.
    + destruct (res_read_miss _ _ Hs) as (w1 & p1 & Hr). rewrite Hr in H.
      injection H as <- <-. eauto.
  - destruct (res_read_miss _ _ Hq) as (w1 & p1 & Hr). rewrite Hr in H.
    injection H as <- <-. eauto.
Qed.

(** [/about] returns only when both reads are cached, and then renders
    them without a change of state. *)
Lemma about_page_returns w w' v :
  about_page w = (w', Ready v) ->
  exists q s, res_cached w "aapl" = Some q /\ res_cached w ("fizzsd", 1000) = Some s /\
    w' = w /\ v = VElem "div" false [h1 "About"; stock_view q; VElem "div" false [VText "fizzsd"]].
Proof.
  intros Hv. destruct (res_cached w "aapl") as [q|] eqn:Hq.
  - destruct (res_cached w ("fizzsd", 1000)) as [s|] eqn:Hs.
    + rewrite (about_page_ready w q s Hq Hs) in Hv. injection Hv as <- <-. eauto 10.
    + unfold about_page, Stock, Delay in Hv. simpl in Hv. unfold rbind, rret in Hv.
      rewrite (res_read_hit _ _ _ Hq) in Hv.
      destruct (res_read_miss _ _ Hs) as (w1 & p1 & Hr). by rewrite Hr in Hv.
  - destruct (about_page_quote_miss w Hq) as (w1 & p1 & _ & Hr). by rewrite Hr in Hv.
Qed.

(** [/settings] throws the first delay's read when it is not cached, or
    else the second's. *)
Lemma settings_page_suspends w w' p :
  settings_page w = (w', Suspend p) ->
  (res_cached w ("fizz", 1000) = None /\ @res_read _ _ _ delays ("fizz", 1000) w = (w', Suspend p)) \/
  (is_Some (res_cached w ("fizz", 1000)) /\ res_cached w ("buzz", 2000) = None /\
   @res_read _ _ _ delays ("buzz", 2000) w = (w', Suspend p)).
Proof.
  unfold settings_page, Delay. unfold rbind, rret. intros H.
  destruct (res_cached w ("fizz", 1000)) as [s1|] eqn:H1.
  - rewrite (res_read_hit _ _ _ H1) in H. right.
    destruct (res_cached w ("buzz", 2000)) as [s2|] eqn:H2.
    + by rewrite (res_read_hit _ _ _ H2) in H.
    + destruct (res_read_miss _ _ H2) as (w1 & p1 & Hr). rewrite Hr in H.
      injection H as <- <-. eauto.
  - destruct (res_read_miss _ _ H1) as (w1 & p1 & Hr). rewrite Hr in H.
    injection H as <- <-. eauto.
Qed.

Lemma settings_page_returns w w' v :
  settings_page w = (w', Ready v) ->
  exists s1 s2, res_cached w ("fizz", 1000) = Some s1 /\ res_cached w ("buzz", 2000) = Some s2 /\
    w' = w /\ v = VElem "div" false [h1 "Settings"; VFrag [VElem "div" false [VText "fizz"];
                                                          VElem "div" false [VText "buzz"]]].
Proof.
  unfold settings_page, Delay. unfold rbind, rret.
  destruct (res_cached w ("fizz", 1000)) as [s1|] eqn:H1.
  - rewrite (res_read_hit _ _ _ H1).
    destruct (res_cached w ("buzz", 2000)) as [s2|] eqn:H2.
    + rewrite (res_read_hit _ _ _ H2). intros [= <- <-]. eauto 10.
    + destruct (res_read_miss _ _ H2) as (w1 & p1 & Hr). by rewrite Hr.
  - destruct (res_read_miss _ _ H1) as (w1 & p1 & Hr). by rewrite Hr.
Qed.
End Components.

(** ** The application's caches *)

(** The global cache of [createResource] and the closure of [ensureDelay]. *)
Record AppWorld := mkApp {
  quote_world : CreateResource.World string Quote;
  delay_world : CreateFetcher.Fetcher (string * nat) string string
}.

Definition app_init : AppWorld :=
  mkApp CreateResource.init CreateFetcher.create.

(** [const ensureQuote = createResource(fetchQuote)] (index.js 74-79),
    with the default [getKey]. *)
Definition ensureQuote : Resource AppWorld string Quote :=
  lift_resource quote_world (fun q w => mkApp q (delay_world w))
    (fun _ _ => eq_refl) (fun w => match w with mkApp _ _ => eq_refl end)
    (CreateResource.resource CreateResource.getKey_default).

(** [const ensureDelay = createFetcher(.., obj => obj.id)] (index.js 81-84). *)
Definition ensureDelay : Resource AppWorld (string * nat) string :=
  lift_resource delay_world (fun d w => mkApp (quote_world w) d)
    (fun _ _ => eq_refl) (fun w => match w with mkApp _ _ => eq_refl end)
    (CreateFetcher.resource CreateFetcher.ensureDelay_hash).

(** The fetch [p] of a quote fulfils with [v]. *)
Definition fulfil_quote (p : promise) (v : Quote) (w : AppWorld) : AppWorld :=
  mkApp (CreateResource.fulfil p v (quote_world w)) (delay_world w).

Definition apple : Quote := mkQuote "Apple" "AAPL" "1.2".

(** Scenario A: on an empty cache [Stock] for ["aapl"]
    throws the first promise; once that fetch fulfils with Apple's quote,
    [Stock] renders it synchronously. *)
Lemma scenario_a :
  let '(w1, r1) := Stock ensureQuote "aapl" app_init in
  r1 = Suspend 0 /\
  Stock ensureQuote "aapl" (fulfil_quote 0 apple w1) =
    (fulfil_quote 0 apple w1, Ready (stock_view apple)).
Proof. split; reflexivity. Qed.

End App.
