(* ===== verification/Host.v ===== *)
(** * The host's retry of a suspended render pass

    The spec (§1, §5) assumes a host runtime that aborts a render pass
    when a component throws a promise and retries the pass once that
    promise has settled.  Module [Host] models that loop, from the spec
    (the runtime is not code of this repository): [retry] renders, and on
    a throw lets the environment settle the promise, then renders again,
    for at most [fuel] passes.  Its Section states once the two facts the
    pages need: a measure that every settled throw decreases makes the
    loop return within the measure's bound, and a state that every pass
    and settlement keeps throwing makes it never return.

    Module [AppHost] instantiates the loop on the application's two caches:
    the environment answers a fetch of a request with the value of an
    arbitrary function of the request (the HTTP transport is not
    modelled), and the pages of [/about] and [/settings] are shown to
    reach their content within three passes from any state whose quote
    cache is well-formed and has no rejected fetch, while a rejected quote
    fetch makes [/about] retry forever. *)

From S2P Require Import Prelude Resource Fetcher App.

Module Host.

Section Retry.
Context {W B : Type} (settle : promise -> W -> W) (page : Render W B).

(** At most [fuel] passes of [page]; a throw of [p] waits for [p] to
    settle before the next pass.  [None]: still suspended. *)
Fixpoint retry (fuel : nat) (w : W) : W * option B :=
  match fuel with
  | 0 => (w, None)
  | S f =>
      match page w with
      | (w', Ready v) => (w', Some v)
      | (w', Suspend p) => retry f (settle p w')
      end
  end.

Section Progress.
Variables (inv : W -> Prop) (mu : W -> nat).
Hypothesis progress : forall w w' p,
  inv w -> page w = (w', Suspend p) -> inv (settle p w') /\ mu (settle p w') < mu w.

(** The loop returns within [mu w + 1] passes, with the result of a
    pass that returned, from a state of the invariant. *)
Lemma retry_terminates fuel w :
  inv w -> mu w < fuel ->
  exists w0 w' v, inv w0 /\ page w0 = (w', Ready v) /\ retry fuel w = (w', Some v).
Proof.
  revert w. induction fuel as [|f IH]; intros w Hi Hf; [lia|]. simpl.
  destruct (page w) as [w' [v|p]] eqn:Hp; [eauto 10|].
  destruct (progress w w' p Hi Hp) as [Hi' Hmu]. apply IH; [done|lia].
Qed.
End Progress.

Section Stuck.
Variable inv : W -> Prop.
Hypothesis stays : forall w, inv w -> exists w' p, page w = (w', Suspend p) /\ inv (settle p w').

(** The loop never returns from a state of [inv]. *)
Lemma retry_stuck fuel w : inv w -> snd (retry fuel w) = None.
Proof.
  revert w. induction fuel as [|f IH]; intros w Hi; [done|]. simpl.
  destruct (stays w Hi) as (w' & p & -> & Hi'). by apply IH.
Qed.
End Stuck.
End Retry.

(** Pages are compared pointwise: the loop does not tell apart two
    passes that agree on every state. *)
#[export] Instance retry_proper {W B} (settle : promise -> W -> W) :
  Proper (pointwise_relation W eq ==> eq ==> eq ==> eq) (@retry W B settle).
Proof.
  intros page1 page2 Hp fuel ? <- w ? <-. revert w.
  induction fuel as [|f IH]; intros w; simpl; [done|]. rewrite (Hp w).
  by destruct (page2 w) as [w' [v|q]].
Qed.

(** Wrapping a page's result does not change the passes. *)
Lemma retry_bind_ret {W A B} (settle : promise -> W -> W) (page : Render W A) (g : A -> B) fuel w :
  retry settle (x <- page ;; rret (g x)) fuel w =
    let '(w', r) := retry settle page fuel w in (w', option_map g r).
Proof.
  revert w. induction fuel as [|f IH]; intros w; simpl; [done|].
  unfold rbind, rret. destruct (page w) as [w' [v|q]]; [done|]. apply IH.
Qed.

End Host.

Module AppHost.
Import App.

(** The method of [ensureDelay] (index.js 81-82): the promise resolves
    with the request's [id] once [ms] have passed. *)
Definition delay_method (obj : string * nat) : string := fst obj.

(** The environment settles the quote fetch numbered [p], if it is in
    flight, with the answer [fetchQuote] gives for its ticker. *)
Definition settle_quote (fetchQuote : string -> Quote) (p : promise)
    (q : CreateResource.World string Quote) : CreateResource.World string Quote :=
  match CreateResource.jobs q !! p with
  | Some j => CreateResource.fulfil p (fetchQuote (CreateResource.job_req j)) q
  | None => q
  end.

(** The delay fetch numbered [p], if in flight, resolves with its id. *)
Definition settle_delay (p : promise) (d : CreateFetcher.Fetcher (string * nat) string string)
    : CreateFetcher.Fetcher (string * nat) string string :=
  match CreateFetcher.jobs d !! p with
  | Some j => CreateFetcher.fulfil p (delay_method (CreateFetcher.job_req j)) d
  | None => d
  end.

(** The two caches number their promises apart; the settlement of [p]
    settles the fetch numbered [p] of each cache that has one in flight
    (an environment may settle a fetch at any time). *)
Definition app_settle (fetchQuote : string -> Quote) (p : promise) (w : AppWorld) : AppWorld :=
  mkApp (settle_quote fetchQuote p (quote_world w)) (settle_delay p (delay_world w)).

(** One for a read that is not cached. *)
Definition miss {X} (o : option X) : nat := match o with Some _ => 0 | None => 1 end.

Definition about_missing (w : AppWorld) : nat :=
  miss (@res_cached _ _ _ ensureQuote w "aapl") +
  miss (@res_cached _ _ _ ensureDelay w ("fizzsd", 1000)).

Definition settings_missing (w : AppWorld) : nat :=
  miss (@res_cached _ _ _ ensureDelay w ("fizz", 1000)) +
  miss (@res_cached _ _ _ ensureDelay w ("buzz", 2000)).

(** The quote cache is well-formed and none of its fetches was
    rejected. *)
Definition quote_ok (w : AppWorld) : Prop :=
  CreateResource.wf (quote_world w) /\ CreateResource.live (quote_world w).

(** ** Lemmas *)

Lemma miss_le {X Y} (a : option X) (b : option Y) : (is_Some a -> is_Some b) -> miss b <= miss a.
Proof. destruct a, b; simpl; try lia. intros H. by destruct (H ltac:(by eexists)). Qed.

Lemma miss_bound {X} (a : option X) : miss a <= 1.
Proof. destruct a; simpl; lia. Qed.

Lemma miss_Some {X} (a : option X) : is_Some a -> miss a = 0.
Proof. by intros [? ->]. Qed.

Lemma ensureQuote_read o w :
  @res_read _ _ _ ensureQuote o w =
    let '(q', r) := CreateResource.read CreateResource.getKey_default o (quote_world w) in
    (mkApp q' (delay_world w), r).
Proof. reflexivity. Qed.

Lemma ensureDelay_read o w :
  @res_read _ _ _ ensureDelay o w =
    let '(d', r) := CreateFetcher.read CreateFetcher.ensureDelay_hash o (delay_world w) in
    (mkApp (quote_world w) d', r).
Proof. reflexivity. Qed.

Lemma settle_quote_keeps fq p q k :
  is_Some (CreateResource.cache q !! k) -> is_Some (CreateResource.cache (settle_quote fq p q) !! k).
Proof.
  unfold settle_quote, CreateResource.fulfil. destruct (CreateResource.jobs q !! p) as [j|] eqn:Ej; [|done].
  simpl. destruct (decide (CreateResource.job_key j = k)) as [->|Hne]; [by map_simp|].
  by rewrite lookup_insert_ne.
Qed.

Lemma settle_delay_keeps p d k :
  is_Some (CreateFetcher.resolved d !! k) -> is_Some (CreateFetcher.resolved (settle_delay p d) !! k).
Proof.
  unfold settle_delay, CreateFetcher.fulfil. destruct (CreateFetcher.jobs d !! p) as [j|] eqn:Ej; [|done].
  simpl. destruct (decide (CreateFetcher.job_key j = k)) as [->|Hne]; [by map_simp|].
  by rewrite lookup_insert_ne.
Qed.

Lemma settle_quote_ok fq p w :
  quote_ok w -> quote_ok (mkApp (settle_quote fq p (quote_world w)) (settle_delay p (delay_world w))).
Proof.
  unfold quote_ok, settle_quote. simpl. intros [Hw Hl].
  destruct (CreateResource.jobs (quote_world w) !! p) as [j|]; [|done].
  exact (CreateResource.step_wf_live CreateResource.getKey_default
           (CreateResource.EvFulfil p (fq (CreateResource.job_req j))) _ eq_refl Hw Hl).
Qed.

Lemma ensureQuote_cached w o : @res_cached _ _ _ ensureQuote w o = CreateResource.cache (quote_world w) !! o.
Proof. reflexivity. Qed.

Lemma ensureDelay_cached w o :
  @res_cached _ _ _ ensureDelay w o = CreateFetcher.resolved (delay_world w) !! CreateFetcher.ensureDelay_hash o.
Proof. reflexivity. Qed.

(** A quote read leaves the delays alone and keeps the quote cache good. *)
Lemma quote_read_world fq o w w' r :
  quote_ok w -> @res_read _ _ _ ensureQuote o w = (w', r) ->
  delay_world w' = delay_world w /\ quote_ok (app_settle fq 0 w') /\ quote_ok w'.
Proof.
  intros [Hw Hl]. rewrite ensureQuote_read.
  destruct (CreateResource.read _ o (quote_world w)) as [q' r'] eqn:Hr. intros [= <- _].
  assert (Hok : quote_ok (mkApp q' (delay_world w))).
  { split; simpl.
    - exact (CreateResource.read_wf _ _ _ _ _ Hw Hr).
    - pose proof (CreateResource.read_live CreateResource.getKey_default o _ Hw Hl) as H.
      by rewrite Hr in H. }
  split_and!; [done| |done]. by apply settle_quote_ok.
Qed.

Lemma delay_read_world o w w' r :
  @res_read _ _ _ ensureDelay o w = (w', r) -> quote_world w' = quote_world w.
Proof.
  rewrite ensureDelay_read. destruct (CreateFetcher.read _ o (delay_world w)). by intros [= <- _].
Qed.

(** The fetch a quote read throws, once settled, answers the read. *)
Lemma quote_read_settled fq o w w' p :
  quote_ok w -> @res_read _ _ _ ensureQuote o w = (w', Suspend p) ->
  is_Some (@res_cached _ _ _ ensureQuote (app_settle fq p w') o).
Proof.
  intros [Hw Hl]. rewrite ensureQuote_read, ensureQuote_cached.
  destruct (CreateResource.read _ o (quote_world w)) as [q' r] eqn:Hr. intros [= <- ->]. simpl.
  apply CreateResource.wf_spec in Hw as (_ & _ & _ & H4).
  apply CreateResource.live_spec in Hl.
  unfold CreateResource.read, CreateResource.getKey_default in Hr.
  destruct (CreateResource.cache (quote_world w) !! o) eqn:Ec; [done|].
  destruct (CreateResource.pending (quote_world w) !! o) as [p0|] eqn:Ep; injection Hr as <- <-.
  - destruct (Hl _ _ Ep) as [j Ej]. pose proof (H4 _ _ _ Ep Ej) as Hk.
    unfold settle_quote, CreateResource.fulfil. rewrite Ej. simpl. rewrite Hk. by map_simp.
  - unfold settle_quote, CreateResource.fulfil. simpl. map_simp. simpl. by map_simp.
Qed.

(** The fetch a delay read throws, once settled, answers the read. *)
Lemma delay_read_settled fq o w w' p :
  @res_read _ _ _ ensureDelay o w = (w', Suspend p) ->
  is_Some (@res_cached _ _ _ ensureDelay (app_settle fq p w') o).
Proof.
  rewrite ensureDelay_read, ensureDelay_cached.
  destruct (CreateFetcher.read _ o (delay_world w)) as [d' r] eqn:Hr. intros [= <- ->]. simpl.
  unfold CreateFetcher.read in Hr.
  destruct (CreateFetcher.resolved (delay_world w) !! _) eqn:Ec; injection Hr as <- ?; [done|].
  subst. unfold settle_delay, CreateFetcher.fulfil. simpl. map_simp. simpl. by map_simp.
Qed.

(** Every settled throw of [/about] lowers the number of its reads that
    are not cached. *)
Lemma about_progress fq w w' p :
  quote_ok w -> about_page ensureQuote ensureDelay w = (w', Suspend p) ->
  quote_ok (app_settle fq p w') /\ about_missing (app_settle fq p w') < about_missing w.
Proof.
  intros Hok H. unfold about_missing.
  destruct (about_page_suspends ensureQuote ensureDelay w w' p H) as [(Hq & Hr) | (Hq & Hd & Hr)].
  - destruct (quote_read_world fq _ _ _ _ Hok Hr) as (Hd & _ & Hok').
    split; [by apply settle_quote_ok|].
    rewrite Hq, (miss_Some _ (quote_read_settled fq _ _ _ _ Hok Hr)).
    assert (miss (@res_cached _ _ _ ensureDelay (app_settle fq p w') ("fizzsd", 1000)) <=
            miss (@res_cached _ _ _ ensureDelay w ("fizzsd", 1000))); [|cbn [miss]; lia].
    apply miss_le. rewrite !ensureDelay_cached. simpl. rewrite Hd. apply settle_delay_keeps.
  - pose proof (delay_read_world _ _ _ _ Hr) as Hw.
    split; [apply settle_quote_ok; unfold quote_ok; by rewrite Hw|].
    rewrite Hd, (miss_Some _ (delay_read_settled fq _ _ _ _ Hr)), (miss_Some _ Hq).
    rewrite miss_Some; [cbn [miss]; lia|]. rewrite ensureQuote_cached in Hq |- *. simpl. rewrite Hw.
    by apply settle_quote_keeps.
Qed.

(** Likewise for [/settings], from any state. *)
Lemma settings_progress fq w w' p :
  settings_page ensureDelay w = (w', Suspend p) ->
  settings_missing (app_settle fq p w') < settings_missing w.
Proof.
  intros H. unfold settings_missing.
  destruct (settings_page_suspends ensureDelay w w' p H) as [(H1 & Hr) | (H1 & H2 & Hr)].
  - rewrite H1, (miss_Some _ (delay_read_settled fq _ _ _ _ Hr)).
    assert (miss (@res_cached _ _ _ ensureDelay (app_settle fq p w') ("buzz", 2000)) <=
            miss (@res_cached _ _ _ ensureDelay w ("buzz", 2000))); [|cbn [miss]; lia].
    apply miss_le. rewrite !ensureDelay_cached. intros [s Hs]. cbn [app_settle delay_world]. apply settle_delay_keeps.
    pose proof (@res_read_keeps _ _ _ ensureDelay _ _ _ _ ("buzz", 2000) s Hr) as Hk.
    rewrite !ensureDelay_cached in Hk. rewrite (Hk Hs). by eexists.
  - rewrite H2, (miss_Some _ (delay_read_settled fq _ _ _ _ Hr)), (miss_Some _ H1).
    rewrite miss_Some; [cbn [miss]; lia|]. rewrite ensureDelay_cached in H1 |- *. cbn [app_settle delay_world].
    apply settle_delay_keeps.
    destruct H1 as [s Hs].
    pose proof (@res_read_keeps _ _ _ ensureDelay _ _ _ _ ("fizz", 1000) s Hr) as Hk.
    rewrite !ensureDelay_cached in Hk. rewrite (Hk Hs). by eexists.
Qed.

(** A rejected quote fetch is not affected by any settlement. *)
Lemma settle_quote_stuck fq k p q w :
  CreateResource.stuck k p (quote_world w) -> CreateResource.stuck k p (quote_world (app_settle fq q w)).
Proof.
  intros Hs. simpl. unfold settle_quote.
  destruct (CreateResource.jobs (quote_world w) !! q) as [j|]; [|done].
  exact (CreateResource.step_stuck CreateResource.getKey_default k p
           (CreateResource.EvFulfil q (fq (CreateResource.job_req j))) _ ltac:(discriminate) Hs).
Qed.

(** With a rejected quote fetch, [/about] throws the dead promise and
    changes nothing. *)
Lemma about_page_stuck w p :
  CreateResource.stuck "aapl" p (quote_world w) ->
  about_page ensureQuote ensureDelay w = (w, Suspend p).
Proof.
  intros (Hp & Hc & _).
  destruct (about_page_quote_miss ensureQuote ensureDelay w Hc) as (w1 & p1 & Hr & ->).
  rewrite ensureQuote_read in Hr.
  rewrite (CreateResource.read_pending CreateResource.getKey_default "aapl" (quote_world w) p Hc Hp)
    in Hr. destruct w. by injection Hr as <- <-.
Qed.

(** ** Properties of the retry loop on the pages *)

Lemma about_page_retry_shows fq w :
  CreateResource.wf (quote_world w) -> CreateResource.live (quote_world w) ->
  exists w' q,
    Host.retry (app_settle fq) (about_page ensureQuote ensureDelay) 3 w =
      (w', Some (VElem "div" false [h1 "About"; stock_view q; VElem "div" false [VText "fizzsd"]])).
Proof.
  intros Hw Hl.
  destruct (Host.retry_terminates (app_settle fq) (about_page ensureQuote ensureDelay)
              quote_ok about_missing (about_progress fq) 3 w (conj Hw Hl))
    as (w0 & w' & v & _ & Hp & Hr).
  { unfold about_missing. pose proof (miss_bound (@res_cached _ _ _ ensureQuote w "aapl")).
    pose proof (miss_bound (@res_cached _ _ _ ensureDelay w ("fizzsd", 1000))). lia. }
  destruct (about_page_returns ensureQuote ensureDelay w0 w' v Hp) as (q & s & _ & _ & _ & ->).
  eauto.
Qed.

(** C11: Liveness of [/about]: from any state whose
    quote cache is well-formed and has no rejected fetch, whatever the
    quote service answers, the host's retry loop shows the page within
    three passes, one per read plus the last: the [/about] tree with a
    cached quote. *)
Theorem about_page_retry fq w :
  CreateResource.wf (quote_world w) -> CreateResource.live (quote_world w) ->
  exists w' q,
    Host.retry (app_settle fq) (about_page ensureQuote ensureDelay) 3 w =
      (w', Some (VElem "div" false [h1 "About"; stock_view q; VElem "div" false [VText "fizzsd"]])).
Proof. apply about_page_retry_shows. Qed.

(** Liveness of [/settings]: from any state, the
    retry loop shows the page within three passes; the delays never
    fail. *)
Lemma settings_page_retry fq w :
  exists w',
    Host.retry (app_settle fq) (settings_page ensureDelay) 3 w =
      (w', Some (VElem "div" false [h1 "Settings"; VFrag [VElem "div" false [VText "fizz"];
                                                          VElem "div" false [VText "buzz"]]])).
Proof.
  destruct (Host.retry_terminates (app_settle fq) (settings_page ensureDelay)
              (fun _ => True) settings_missing
              (fun w w' p _ H => conj I (settings_progress fq w w' p H)) 3 w I)
    as (w0 & w' & v & _ & Hp & Hr).
  { unfold settings_missing. pose proof (miss_bound (@res_cached _ _ _ ensureDelay w ("fizz", 1000))).
    pose proof (miss_bound (@res_cached _ _ _ ensureDelay w ("buzz", 2000))). lia. }
  destruct (settings_page_returns ensureDelay w0 w' v Hp) as (s1 & s2 & _ & _ & _ & ->).
  eauto.
Qed.

(** A rejected quote fetch hangs [/about]:
    when the quote's only fetch has rejected, the retry loop never shows
    the page, for any number of passes and any answers of the services. *)
Lemma about_page_retry_rejected fq w p :
  CreateResource.stuck "aapl" p (quote_world w) ->
  forall fuel, snd (Host.retry (app_settle fq) (about_page ensureQuote ensureDelay) fuel w) = None.
Proof.
  intros Hs fuel. apply (Host.retry_stuck _ _ (fun w => CreateResource.stuck "aapl" p (quote_world w)));
    [|done].
  clear w Hs. intros w Hs. exists w, p. split; [by apply about_page_stuck|by apply settle_quote_stuck].
Qed.

End AppHost.

(** ** Witnesses *)

Lemma about_page_retry_witness :
  exists w' q,
    Host.retry (AppHost.app_settle (fun t => App.mkQuote "Apple" t "1.2"))
      (App.about_page App.ensureQuote App.ensureDelay) 3 App.app_init =
      (w', Some (VElem "div" false [App.h1 "About"; App.stock_view q;
                                    VElem "div" false [VText "fizzsd"]])).
Proof.
  apply AppHost.about_page_retry; [apply CreateResource.init_wf|apply map_Forall_empty].
Defined.

