(* ===== verification/Routes.v ===== *)
(** * The route table and the root render (src/src/index.js 137-150, 202-266)

    Module [MiniRouter] models, from the program's own comment (index.js
    6: "We reimplemented some of React Router 4"), the two behaviours of
    the router's [Route] the table relies on: [exact] path matching, and a
    [render] prop that is called only while the route matches, so that
    the element it returns (here an [AsyncRouteRenderer]) is unmounted as
    soon as the route stops matching; a [Link] renders an anchor and a
    click on it is a navigation.  The module [./MiniRouter] is not part
    of the sources.

    Module [RouteTable] models the root render: one [AsyncRouteProvider]
    with [ms = 5000] around the three [AsyncRoute]s of the table, each
    with its own slot for the renderer instance it has mounted.  A root
    event is a navigation or the passing of time; after each one every
    route is reconciled: its renderer is mounted, updated or unmounted.
    The render pass runs in the render monad of the application's caches,
    route by route, and aborts at the first throw. *)

From S2P Require Import Prelude Resource Fetcher AsyncRoute Timeout Spinner App Host.

Module MiniRouter.

(** The match of a route's [path] against the current location: equal
    paths for an [exact] route, a prefix otherwise. *)
Definition matchPath (exact : bool) (path loc : string) : bool :=
  if exact then String.eqb path loc else String.prefix path loc.

End MiniRouter.

Module RouteTable.
Import AsyncRouteRenderer.

(** One [<AsyncRoute .../>] of the table: its props, and the rendering of
    the element its [render] prop returns, a computation over the
    application's caches since its components read them. *)
Record Route := mkRoute {
  r_path : string;
  r_exact : bool;
  r_ms : option nat;
  r_fallback : option vnode;
  r_page : Render App.AppWorld vnode
}.

(** The [<Spinner />] element, as [Spinner] renders it. *)
Definition spinner : vnode := Spinner.Spinner tt.

(** A [<Link to={to}>{label}</Link>] of the router: its target and its
    text; it renders an anchor, and a click navigates to [to]. *)
Record Link := mkLink { to : string; label : string }.

Definition link_view (l : Link) : vnode := VElem "a" false [VText (label l)].

(** The links of the header (index.js 208-216). *)
Definition header_links : list Link :=
  [mkLink "/" "Home"; mkLink "/settings" "Settings"; mkLink "/about" "About"].

(** The link of the home page (index.js 226-228). *)
Definition home_link : Link := mkLink "/settings" "Go Settings →".

(** The element of the home route (index.js 221-236). *)
Definition home_view : vnode :=
  VElem "div" false
    [App.h1 "Home";
     link_view home_link;
     VElem "div" false
       [VElem "small" false
          [VText "Notice the fallback spinner requires no additional code";
           VElem "em" false [VText " within the routes "];
           VText "themselves. This allows devs to code without needing to think too hard about loading state--everything is always defined in a route."]]].

(** The table of index.js 220-265. *)
Definition table : list Route :=
  [mkRoute "/" true None None (rret home_view);
   mkRoute "/about" true (Some 1000) (Some spinner)
     (App.about_page App.ensureQuote App.ensureDelay);
   mkRoute "/settings" true (Some 1000) (Some spinner)
     (App.settings_page App.ensureDelay)].

(** The props [AsyncRoute] gives its renderer for a match and a flag:
    [{...routeProps} {...renderProps} didExpire={didExpire}].  The
    element of the [render] prop is rendered by [route_output], in the
    state of the caches, so it is not carried here. *)
Definition route_props (r : Route) (m de : bool) : Props :=
  mkProps (mkData (r_path r) (r_exact r) (r_ms r) (r_fallback r) m de) None None.

(** [<Route {...routeProps} render={...} />]: while the route matches,
    its renderer is mounted, or updated with the new props; otherwise the
    route renders [null] and the renderer is unmounted. *)
Definition reconcile (loc : string) (de : bool) (r : Route) (slot : option Instance)
    : option Instance :=
  if MiniRouter.matchPath (r_exact r) (r_path r) loc then
    match slot with
    | Some i => Some (fst (update (route_props r true de) i))
    | None => Some (fst (mount (route_props r true de)))
    end
  else None.

(** The root: the location, the provider's gate and one slot per route. *)
Record Root := mkRoot {
  location : string;
  gate : Gate.Gate;
  slots : list (option Instance)
}.

(** [<AsyncRouteProvider ms={5000} fallback={<Spinner />}>] *)
Definition provider_ms : nat := 5000.

Definition reconcile_all (routes : list Route) (loc : string) (de : bool)
    (sl : list (option Instance)) : list (option Instance) :=
  zip_with (reconcile loc de) routes sl.

(** [root.render(...)] at a location: the gate starts, every route is
    reconciled against empty slots. *)
Definition root_mount (routes : list Route) (loc : string) : Root :=
  let g := Gate.mount provider_ms in
  mkRoot loc g (reconcile_all routes loc (Gate.expired g) (map (fun _ => None) routes)).

Inductive root_event :=
| Navigate (loc : string)
| Tick (dt : nat).

(** A navigation re-renders the routes at the new location; the passing
    of time may raise the gate's flag, and the provider re-renders the
    routes with it. *)
Definition root_step (routes : list Route) (e : root_event) (rt : Root) : Root :=
  let loc := match e with Navigate l => l | Tick _ => location rt end in
  let g := match e with Navigate _ => gate rt | Tick dt => Gate.tick dt (gate rt) end in
  mkRoot loc g (reconcile_all routes loc (Gate.expired g) (slots rt)).

Fixpoint root_run (routes : list Route) (es : list root_event) (rt : Root) : Root :=
  match es with
  | [] => rt
  | e :: es' => root_run routes es' (root_step routes e rt)
  end.

(** The decision of [render] (index.js 174-199): whether it returns the
    content of its props or [null]. *)
Definition renders (p : Props) (st : State) : bool :=
  let incoming := get st "incoming" in
  let outgoing := get st "outgoing" in
  let de := didExpire (data p) in
  if match_ (data p) && negb incoming && negb outgoing && negb de then true
  else if incoming && negb de then true
  else if incoming && de then false
  else if outgoing && de then true
  else false.

(** What a slot renders: nothing for an unmatched route, and for a
    mounted renderer the rendering of its route's element when [render]
    returns it. *)
Definition route_output (r : Route) (slot : option Instance) : Render App.AppWorld vnode :=
  match slot with
  | Some i => if renders (props i) (state i) then r_page r else rret VNull
  | None => rret VNull
  end.

(** The render pass of the provider's subtree: the routes in order, then
    the provider with the gate's flag. *)
Definition root_render (routes : list Route) (rt : Root) : Render App.AppWorld vnode :=
  kids <- rmap (fun c => c) (zip_with route_output routes (slots rt)) ;;
  rret (TimeoutView.AsyncRouteProvider spinner (fun _ => VFrag kids) (Gate.expired (gate rt))).

(** The [div] of the [Router] (index.js 207-216): the header of links
    above the provider's subtree. *)
Definition frame (t : vnode) : vnode :=
  VElem "div" false [VElem "div" false (map link_view header_links); t].

(** The whole root render (index.js 205-268); a throw of the subtree
    reaches the root, as no [Suspense] boundary is above it. *)
Definition app_render (routes : list Route) (rt : Root) : Render App.AppWorld vnode :=
  t <- root_render routes rt ;;
  rret (frame t).

(** ** What the table promises, with the router's semantics *)

(** What a route renders, as a function of the location and the flag
    only: its page while it matches and the gate has not expired, [null]
    otherwise. *)
Definition spec_output (loc : string) (de : bool) (r : Route) : Render App.AppWorld vnode :=
  if MiniRouter.matchPath (r_exact r) (r_path r) loc && negb de then r_page r else rret VNull.

Definition spec_render (routes : list Route) (loc : string) (de : bool) : Render App.AppWorld vnode :=
  kids <- rmap (spec_output loc de) routes ;;
  rret (TimeoutView.AsyncRouteProvider spinner (fun _ => VFrag kids) de).

(** The slot of a route at a location and flag: empty when the route
    does not match; otherwise a renderer whose props are the route's,
    matched, with the flag, and whose flags are both clear. *)
Definition slot_ok (loc : string) (de : bool) (r : Route) (s : option Instance) : Prop :=
  match s with
  | None => MiniRouter.matchPath (r_exact r) (r_path r) loc = false
  | Some i =>
      MiniRouter.matchPath (r_exact r) (r_path r) loc = true /\
      props i = route_props r true de /\ flags (state i) = (false, false)
  end.

Definition root_inv (routes : list Route) (rt : Root) : Prop :=
  Forall2 (slot_ok (location rt) (Gate.expired (gate rt))) routes (slots rt).

(** ** Lemmas *)

Lemma reconcile_ok loc de loc' de' r s :
  slot_ok loc de r s -> slot_ok loc' de' r (reconcile loc' de' r s).
Proof.
  unfold reconcile. destruct (MiniRouter.matchPath _ _ loc') eqn:Em; [|done].
  destruct s as [i|]; simpl; intros Hs.
  - destruct Hs as (_ & Hp & Hf). split_and!; [done|by rewrite update_props|].
    rewrite update_state, after_flags, Hp. simpl. by destruct (Bool.eqb de' de).
  - split_and!; [done|done|reflexivity].
Qed.

Lemma reconcile_all_ok routes loc de loc' de' sl :
  Forall2 (slot_ok loc de) routes sl ->
  Forall2 (slot_ok loc' de') routes (reconcile_all routes loc' de' sl).
Proof. unfold reconcile_all. induction 1; simpl; constructor; eauto using reconcile_ok. Qed.

Lemma root_mount_inv routes loc : root_inv routes (root_mount routes loc).
Proof.
  unfold root_inv, root_mount. simpl. induction routes as [|r routes IH]; constructor; [|done].
  unfold reconcile. destruct (MiniRouter.matchPath _ _ loc) eqn:Em; [|done].
  split_and!; [done|done|reflexivity].
Qed.

Lemma root_step_inv routes e rt : root_inv routes rt -> root_inv routes (root_step routes e rt).
Proof. apply reconcile_all_ok. Qed.

Lemma root_run_inv routes es rt : root_inv routes rt -> root_inv routes (root_run routes es rt).
Proof. revert rt. induction es; simpl; auto using root_step_inv. Qed.

(** A renderer in a good slot renders its content exactly while the
    gate has not expired. *)
Lemma slot_renders loc de r i :
  slot_ok loc de r (Some i) -> renders (props i) (state i) = negb de.
Proof.
  intros (_ & Hp & Hf). unfold flags in Hf. injection Hf as Hi Ho.
  unfold renders. rewrite Hp, Hi, Ho. simpl. by destruct de.
Qed.

Lemma route_output_spec loc de r s :
  slot_ok loc de r s -> route_output r s = spec_output loc de r.
Proof.
  unfold spec_output. destruct s as [i|]; simpl; intros Hs.
  - rewrite (slot_renders _ _ _ _ Hs). destruct Hs as (-> & _). by destruct de.
  - by rewrite Hs.
Qed.

Lemma zip_route_output loc de routes sl :
  Forall2 (slot_ok loc de) routes sl ->
  zip_with route_output routes sl = map (spec_output loc de) routes.
Proof. induction 1; simpl; f_equal; auto using route_output_spec. Qed.

Lemma render_renders p st : render p st = if renders p st then content p else VNull.
Proof.
  unfold render, renders.
  destruct (match_ _), (get st "incoming"), (get st "outgoing"), (didExpire _); reflexivity.
Qed.

(** The location and the gate do not depend on the table. *)
Lemma root_run_env routes routes' es rt rt' :
  location rt = location rt' -> gate rt = gate rt' ->
  location (root_run routes es rt) = location (root_run routes' es rt') /\
  gate (root_run routes es rt) = gate (root_run routes' es rt').
Proof.
  revert rt rt'. induction es as [|e es IH]; intros rt rt' Hl Hg; simpl; [done|].
  apply IH; destruct e; simpl; congruence.
Qed.

(** The slots hold at most the routes that match. *)
Lemma omap_slots loc de routes sl :
  Forall2 (slot_ok loc de) routes sl ->
  length (omap id sl) = length (List.filter (fun r => MiniRouter.matchPath (r_exact r) (r_path r) loc) routes).
Proof.
  induction 1 as [|r s routes sl Hs _ IH]; simpl; [done|].
  destruct s as [i|]; simpl in *.
  - destruct Hs as (-> & _). simpl. f_equal. exact IH.
  - rewrite Hs. done.
Qed.

Lemma table_single_match loc :
  length (List.filter (fun r => MiniRouter.matchPath (r_exact r) (r_path r) loc) table) <= 1.
Proof.
  unfold table, MiniRouter.matchPath. cbn [List.filter r_exact r_path].
  destruct (String.eqb_spec "/" loc) as [<-|H1]; [vm_compute; lia|].
  destruct (String.eqb_spec "/about" loc) as [<-|H2]; [vm_compute; lia|].
  destruct (String.eqb "/settings" loc); simpl; lia.
Qed.

(** At [/about] before the expiry, the render pass is that of the about
    page below the provider. *)
Lemma spec_render_about :
  pointwise_relation App.AppWorld eq
    (spec_render table "/about" false)
    (x <- App.about_page App.ensureQuote App.ensureDelay ;;
     rret (TimeoutView.AsyncRouteProvider spinner (fun _ => VFrag [VNull; x; VNull]) false)).
Proof.
  intros w. unfold spec_render, spec_output, MiniRouter.matchPath. simpl. unfold rbind, rret.
  by destruct (App.about_page _ _ w) as [w' [v|p]].
Qed.

Lemma root_run_app routes es es' rt :
  root_run routes (es ++ es') rt = root_run routes es' (root_run routes es rt).
Proof. revert rt. induction es; simpl; auto. Qed.

(** The provider's flag, once raised, stays raised along every run. *)
Lemma root_run_expired routes es rt :
  Gate.expired (gate rt) = true -> Gate.expired (gate (root_run routes es rt)) = true.
Proof.
  revert rt. induction es as [|[l|dt] es IH]; intros rt He; simpl; [done| |];
    apply IH; simpl; [done|by apply Gate.tick_monotone].
Qed.

(** Once expired, every route renders [null]. *)
Lemma spec_render_expired routes loc w :
  spec_render routes loc true w =
    (w, Ready (TimeoutView.AsyncRouteProvider spinner
                 (fun _ => VFrag (map (fun _ => VNull) routes)) true)).
Proof.
  unfold spec_render. unfold rbind.
  assert (Hm : rmap (spec_output loc true) routes w = (w, Ready (map (fun _ => VNull) routes))).
  { assert (Hs : forall r, spec_output loc true r = rret VNull).
    { intros r. unfold spec_output. by rewrite andb_false_r. }
    induction routes as [|r routes IH]; [done|]. rewrite rmap_cons, Hs. simpl. by rewrite IH. }
  by rewrite Hm.
Qed.

(** ** Properties of the route table *)

(** C9: The transition machine is inert in the app: with
    the router's [render] prop, along every run of navigations and
    ticks, a route's renderer is mounted exactly while the route
    matches, it is never incoming nor outgoing, and it renders its
    content exactly while the gate has not expired.  The branches that
    set [incoming] or [outgoing] (and the misspelt [incomfing]) are never
    reached. *)
Theorem routes_inert routes loc es :
  let rt := root_run routes es (root_mount routes loc) in
  Forall2 (fun r s =>
    match s with
    | None => MiniRouter.matchPath (r_exact r) (r_path r) (location rt) = false
    | Some i =>
        MiniRouter.matchPath (r_exact r) (r_path r) (location rt) = true /\
        flags (state i) = (false, false) /\
        renders (props i) (state i) = negb (Gate.expired (gate rt))
    end) routes (slots rt).
Proof.
  intros rt. pose proof (root_run_inv routes es _ (root_mount_inv routes loc)) as Hi.
  eapply Forall2_impl; [exact Hi|]. intros r [i|] Hs; [|done].
  split_and!; [apply Hs|apply Hs|exact (slot_renders _ _ _ _ Hs)].
Qed.

Lemma root_render_spec routes loc es :
  let rt := root_run routes es (root_mount routes loc) in
  root_render routes rt = spec_render routes (location rt) (Gate.expired (gate rt)).
Proof.
  intros rt. subst rt. unfold root_render, spec_render.
  rewrite (zip_route_output _ _ _ _ (root_run_inv routes es _ (root_mount_inv routes loc))).
  by rewrite rmap_map.
Qed.

(** C10: Refinement of the root render: in every
    state reachable from the mount, the render pass of the provider's
    subtree, with its renderer instances and their flags, is the
    stateless function of the location and the gate's flag that renders,
    in table order, the page of each matching route while the gate has
    not expired and [null] otherwise. *)
Theorem root_render_refines routes loc es :
  let rt := root_run routes es (root_mount routes loc) in
  root_render routes rt = spec_render routes (location rt) (Gate.expired (gate rt)).
Proof. apply root_render_spec. Qed.

(** C34: The per-route [ms] and [fallback] props
    of the table are dead: replacing them in every route by anything
    leaves every render pass of the root unchanged, along every run; only
    the provider's [ms] and [fallback] act. *)
Theorem route_ms_fallback_dead (ms' : Route -> option nat) (fb' : Route -> option vnode)
    routes loc es :
  let routes' := map (fun r => mkRoute (r_path r) (r_exact r) (ms' r) (fb' r) (r_page r)) routes in
  root_render routes' (root_run routes' es (root_mount routes' loc)) =
  root_render routes (root_run routes es (root_mount routes loc)).
Proof.
  intros routes'. rewrite !root_render_spec.
  destruct (root_run_env routes' routes es (root_mount routes' loc) (root_mount routes loc))
    as [-> ->]; [done|done|].
  unfold spec_render. subst routes'. by rewrite rmap_map.
Qed.

(** In the app, at every moment of every run at
    most one route's renderer is mounted: the table's exact paths are
    distinct. *)
Lemma app_single_route loc es :
  length (omap id (slots (root_run table es (root_mount table loc)))) <= 1.
Proof.
  erewrite omap_slots; [apply table_single_match|]. apply root_run_inv, root_mount_inv.
Qed.

(** The [/about] route's [ms={1000}] does not
    bound its wait: navigated to at mount, the route still renders its
    page 4999 ms later, and the spinner alone shows only once the
    provider's 5000 ms have elapsed. *)
Lemma about_ms_ignored :
  let es := [Navigate "/about"; Tick 1000; Tick 3999] in
  root_render table (root_run table es (root_mount table "/")) = spec_render table "/about" false /\
  root_render table (root_run table (es ++ [Tick 1]) (root_mount table "/")) =
    spec_render table "/about" true.
Proof. split; (etransitivity; [apply root_render_spec|reflexivity]). Qed.

(** Navigating from the home route to [/about] on
    empty caches: the render pass throws the quote's fetch; once it
    fulfils, the pass throws the delay's fetch (the waterfall); once that
    fulfils too, the pass renders the about page alone, below the
    provider's visible span. *)
Lemma navigate_about :
  let rt := root_run table [Navigate "/about"] (root_mount table "/") in
  let '(w1, r1) := root_render table rt App.app_init in
  let w1' := App.fulfil_quote 0 App.apple w1 in
  let '(w2, r2) := root_render table rt w1' in
  let w2' := App.mkApp (App.quote_world w2) (CreateFetcher.fulfil 0 "fizzsd" (App.delay_world w2)) in
  r1 = Suspend 0 /\ r2 = Suspend 0 /\
  snd (root_render table rt w2') =
    Ready (VFrag [VElem "span" false
                    [VFrag [VFrag [VFrag
                      [VNull;
                       VElem "div" false
                         [App.h1 "About"; App.stock_view App.apple;
                          VElem "div" false [VText "fizzsd"]];
                       VNull]]]];
                  VNull]).
Proof. vm_compute. split_and!; reflexivity. Qed.

(** C12: Liveness of the root at [/about]: in every state
    of the app reached at [/about] before the gate expires, from caches
    whose quote cache is well-formed with no rejected fetch, the host's
    retry loop shows, within three passes, the about page alone below
    the provider's visible span. *)
Theorem root_retry_about fq loc es w :
  let rt := root_run table es (root_mount table loc) in
  location rt = "/about" -> Gate.expired (gate rt) = false ->
  CreateResource.wf (App.quote_world w) -> CreateResource.live (App.quote_world w) ->
  exists w' q,
    Host.retry (AppHost.app_settle fq) (root_render table rt) 3 w =
      (w', Some (TimeoutView.AsyncRouteProvider spinner
                   (fun _ => VFrag [VNull;
                                    VElem "div" false [App.h1 "About"; App.stock_view q;
                                                       VElem "div" false [VText "fizzsd"]];
                                    VNull]) false)).
Proof.
  intros rt Hl He Hw Hv. subst rt.
  rewrite (root_render_spec table loc es), Hl, He.
  rewrite (Host.retry_proper _ _ _ spec_render_about 3 3 eq_refl w w eq_refl), Host.retry_bind_ret.
  destruct (AppHost.about_page_retry_shows fq w Hw Hv) as (w' & q & ->). eauto.
Qed.

(** C13: With the spec's gate, a one-shot timer armed
    when the provider mounts with the root, the app goes blank for good:
    once the provider's 5000 ms have elapsed, in every later state,
    whatever the navigation, every route renders [null], the pass
    neither reads nor throws, and only the spinner is on screen. *)
Theorem expired_root_blank loc es es' w :
  Gate.expired (gate (root_run table es (root_mount table loc))) = true ->
  root_render table (root_run table (es ++ es') (root_mount table loc)) w =
    (w, Ready (TimeoutView.AsyncRouteProvider spinner (fun _ => VFrag [VNull; VNull; VNull]) true)) /\
  TimeoutView.visible (TimeoutView.AsyncRouteProvider spinner (fun _ => VFrag [VNull; VNull; VNull]) true) =
    ["🌀"].
Proof.
  intros He. split; [|reflexivity].
  rewrite root_render_spec, root_run_app, (root_run_expired _ _ _ He).
  apply spec_render_expired.
Qed.

(** No dead link: every link the app renders, in
    the header and on the home page, targets a location where exactly
    one route of the table matches, and that route's renderer is the
    only one mounted after the navigation a click makes, from any
    state. *)
Lemma links_reach_routes :
  Forall (fun l =>
    length (List.filter (fun r => MiniRouter.matchPath (r_exact r) (r_path r) (to l)) table) = 1 /\
    forall loc es,
      length (omap id (slots (root_run table (es ++ [Navigate (to l)]) (root_mount table loc)))) = 1)
    (home_link :: header_links).
Proof.
  assert (Hl : forall l, In l (home_link :: header_links) ->
    length (List.filter (fun r => MiniRouter.matchPath (r_exact r) (r_path r) (to l)) table) = 1).
  { intros l Hin. repeat (destruct Hin as [<-|Hin]; [reflexivity|]). destruct Hin. }
  apply Forall_forall. intros l Hin%list_elem_of_In. split; [exact (Hl l Hin)|]. intros loc es.
  pose proof (root_run_inv table (es ++ [Navigate (to l)]) _ (root_mount_inv table loc)) as Hi.
  unfold root_inv in Hi. rewrite root_run_app in Hi |- *. cbn [root_run root_step location] in Hi |- *.
  rewrite (omap_slots _ _ _ _ Hi). exact (Hl l Hin).
Qed.

End RouteTable.

(** ** Witness *)

Lemma root_retry_about_witness :
  exists w' q,
    Host.retry (AppHost.app_settle (fun t => App.mkQuote "Apple" t "1.2"))
      (RouteTable.root_render RouteTable.table
         (RouteTable.root_run RouteTable.table [RouteTable.Navigate "/about"]
            (RouteTable.root_mount RouteTable.table "/"))) 3 App.app_init =
      (w', Some (TimeoutView.AsyncRouteProvider RouteTable.spinner
                   (fun _ => VFrag [VNull;
                                    VElem "div" false [App.h1 "About"; App.stock_view q;
                                                       VElem "div" false [VText "fizzsd"]];
                                    VNull]) false)).
Proof.
  apply RouteTable.root_retry_about;
    [reflexivity|reflexivity|apply CreateResource.init_wf|apply map_Forall_empty].
Defined.

Lemma expired_root_blank_witness :
  RouteTable.root_render RouteTable.table
    (RouteTable.root_run RouteTable.table ([RouteTable.Tick 5000] ++ [RouteTable.Navigate "/about"])
       (RouteTable.root_mount RouteTable.table "/")) App.app_init =
    (App.app_init, Ready (TimeoutView.AsyncRouteProvider RouteTable.spinner
                            (fun _ => VFrag [VNull; VNull; VNull]) true)) /\
  TimeoutView.visible (TimeoutView.AsyncRouteProvider RouteTable.spinner
                         (fun _ => VFrag [VNull; VNull; VNull]) true) =
    ["🌀"].
Proof. apply RouteTable.expired_root_blank. reflexivity. Defined.
