(* ===== verification/Race.v ===== *)
(** * The race of the timeout gate against the settlements (spec §1)

    Module [Race] puts the root of [Routes] and the environment of
    [Host] on one time line: a session holds the root, the caches and
    what the last render pass produced.  After each event -- a
    navigation, the passing of time, or the settlement of a fetch -- the
    host runs a render pass of the root over the caches, which may start
    fetches, and the pass's outcome is the screen: the header of links
    above the provider's subtree ([app_render]), or the promise the pass
    threw.  The gate races the fetches: whichever comes first, the page
    or the provider's 5000 ms, decides what the user sees.  A fetch of
    the quote may also reject; the delays never do.  A session passes
    after every event, ticks included, where the host passes only when a
    callback runs ([EventLoop]): the results here hold for any
    interleaving the environment chooses, the timelines of [Timeline] for
    the one the timers fix. *)

From S2P Require Import Prelude Resource Fetcher AsyncRoute Timeout Spinner App Host Routes.

Module Race.
Import RouteTable.

Inductive host_event :=
| HNav (loc : string)
| HTick (dt : nat)
| HSettle (p : promise)
| HReject (p : promise).

(** The root, the caches, and the outcome of the last pass. *)
Record Session := mkSession {
  s_root : Root;
  s_world : App.AppWorld;
  s_screen : outcome vnode
}.

(** A render pass of the root: its state changes persist, its outcome is
    the screen: the page below the header, or the promise the pass threw. *)
Definition pass (rt : Root) (w : App.AppWorld) : Session :=
  let '(w', r) := app_render table rt w in mkSession rt w' r.

(** [root.render(...)] at [/], on the caches as loaded. *)
Definition start : Session := pass (root_mount table "/") App.app_init.

Definition session_step (fq : string -> App.Quote) (e : host_event) (s : Session) : Session :=
  match e with
  | HNav l => pass (root_step table (Navigate l) (s_root s)) (s_world s)
  | HTick dt => pass (root_step table (Tick dt) (s_root s)) (s_world s)
  | HSettle p => pass (s_root s) (AppHost.app_settle fq p (s_world s))
  | HReject p =>
      (* the quote fetch numbered [p] rejects; a delay never does *)
      pass (s_root s) (App.mkApp (CreateResource.reject p (App.quote_world (s_world s)))
                                 (App.delay_world (s_world s)))
  end.

Fixpoint session_run (fq : string -> App.Quote) (es : list host_event) (s : Session) : Session :=
  match es with
  | [] => s
  | e :: es' => session_run fq es' (session_step fq e s)
  end.

(** The root events of a session's events. *)
Fixpoint root_events (es : list host_event) : list root_event :=
  match es with
  | [] => []
  | HNav l :: es' => Navigate l :: root_events es'
  | HTick dt :: es' => Tick dt :: root_events es'
  | HSettle _ :: es' => root_events es'
  | HReject _ :: es' => root_events es'
  end.

(** The events that are neither navigations nor rejections. *)
Definition quiet (e : host_event) : bool :=
  match e with HTick _ | HSettle _ => true | _ => false end.

(** ** Lemmas *)

Lemma pass_fold rt w :
  pass rt w = mkSession rt (fst (root_render table rt w))
                        (outcome_map frame (snd (root_render table rt w))).
Proof. unfold pass, app_render. rewrite rbind_rret. by destruct (root_render table rt w). Qed.

(** The roots a session goes through. *)
Definition reachable (rt : Root) : Prop :=
  exists loc es, rt = root_run table es (root_mount table loc).

Lemma reachable_mount loc : reachable (root_mount table loc).
Proof. by exists loc, []. Qed.

Lemma reachable_step e rt : reachable rt -> reachable (root_step table e rt).
Proof.
  intros (loc & es & ->). exists loc, (es ++ [e]). by rewrite root_run_app.
Qed.

(** A pass over a reachable root renders the stateless function of the
    location and the gate's flag. *)
Lemma root_render_reachable rt :
  reachable rt -> root_render table rt = spec_render table (location rt) (Gate.expired (gate rt)).
Proof. intros (loc & es & ->). apply root_render_spec. Qed.

(** The provider's flag after one and two ticks from the mount. *)
Lemma gate_tick1 t1 : Gate.expired (Gate.tick t1 (Gate.mount provider_ms)) = (provider_ms <=? t1).
Proof. reflexivity. Qed.

Lemma gate_tick2 t1 t2 :
  Gate.expired (Gate.tick t2 (Gate.tick t1 (Gate.mount provider_ms))) = (provider_ms <=? t1 + t2).
Proof.
  unfold Gate.tick, Gate.mount. cbn [Gate.alive Gate.expired Gate.elapsed Gate.ms orb].
  destruct (Nat.leb_spec provider_ms (0 + t1)), (Nat.leb_spec provider_ms (0 + t1 + t2)),
    (Nat.leb_spec provider_ms (t1 + t2)); simpl; lia.
Qed.

(** ** The race *)

(** The about page for a quote. *)
Definition about_tree (q : App.Quote) : vnode :=
  VElem "div" false [App.h1 "About"; App.stock_view q; VElem "div" false [VText "fizzsd"]].

(** C14: The race at [/about]: navigated to at mount, with the
    quote's fetch settling [t1] ms later and the delay's fetch (started
    only then, by the next pass) [t2] ms after that, the screen after the
    last settlement is, below the header of links, the about page with
    the service's quote when [t1 + t2 < 5000], and the spinner alone
    otherwise, whatever the per-route [ms={1000}] says. *)
Theorem race_about fq t1 t2 :
  s_screen (session_run fq [HNav "/about"; HTick t1; HSettle 0; HTick t2; HSettle 0] start) =
    if t1 + t2 <? provider_ms
    then Ready (frame (TimeoutView.AsyncRouteProvider spinner
                         (fun _ => VFrag [VNull; about_tree (fq "aapl"); VNull]) false))
    else Ready (frame (TimeoutView.AsyncRouteProvider spinner
                         (fun _ => VFrag [VNull; VNull; VNull]) true)).
Proof.
  cbn [session_run session_step]. unfold start. rewrite !pass_fold.
  cbn [s_root s_world s_screen].
  rewrite !root_render_reachable by (repeat apply reachable_step; apply reachable_mount).
  cbn [location gate root_step root_mount].
  rewrite gate_tick2, gate_tick1.
  destruct (Nat.leb_spec provider_ms t1), (Nat.leb_spec provider_ms (t1 + t2)),
    (Nat.ltb_spec (t1 + t2) provider_ms); try lia; vm_compute; reflexivity.
Qed.

Lemma session_run_app fq es1 es2 s :
  session_run fq (es1 ++ es2) s = session_run fq es2 (session_run fq es1 s).
Proof. revert s. induction es1; simpl; auto. Qed.

(** The spinner-only tree of an expired provider. *)
Definition blank : vnode :=
  TimeoutView.AsyncRouteProvider spinner (fun _ => VFrag [VNull; VNull; VNull]) true.

(** At [/about] with a rejected quote fetch, a pass changes nothing and
    throws the dead promise, or shows the spinner once expired. *)
Lemma spec_render_about_stuck de w p :
  CreateResource.stuck "aapl" p (App.quote_world w) ->
  spec_render table "/about" de w = (w, if de then Ready blank else Suspend p).
Proof.
  intros Hs. destruct de; [apply spec_render_expired|].
  rewrite (spec_render_about w). unfold rbind. by rewrite (AppHost.about_page_stuck w p Hs).
Qed.

(** The state of a session at [/about] after the quote fetch rejected. *)
Definition hung (s : Session) : Prop :=
  location (s_root s) = "/about" /\ reachable (s_root s) /\
  CreateResource.stuck "aapl" 0 (App.quote_world (s_world s)) /\
  (s_screen s = Suspend 0 \/ s_screen s = Ready (frame blank)).

Lemma pass_hung rt w :
  location rt = "/about" -> reachable rt -> CreateResource.stuck "aapl" 0 (App.quote_world w) ->
  hung (pass rt w).
Proof.
  intros Hl Hr Hs. rewrite pass_fold, (root_render_reachable rt Hr), Hl, (spec_render_about_stuck _ w 0 Hs).
  split_and!; simpl; try done. destruct (Gate.expired (gate rt)); auto.
Qed.

Lemma session_step_hung fq e s : quiet e = true -> hung s -> hung (session_step fq e s).
Proof.
  intros He (Hl & Hr & Hs & _). destruct e as [l|dt|p|p]; try discriminate; simpl.
  - apply pass_hung; [done|by apply reachable_step|done].
  - apply pass_hung; [done|done|by apply AppHost.settle_quote_stuck].
Qed.

Lemma session_run_hung fq es s : Forall (fun e => quiet e = true) es -> hung s -> hung (session_run fq es s).
Proof. intros Hes. revert s. induction Hes; simpl; auto using session_step_hung. Qed.

(** The session once the quote fetch of [/about] rejects. *)
Lemma hung_after_reject fq : hung (session_run fq [HNav "/about"; HReject 0] start).
Proof.
  split_and!.
  - reflexivity.
  - cbn [session_run session_step]. rewrite !pass_fold. cbn [s_root]. unfold start.
    rewrite pass_fold. cbn [s_root]. apply reachable_step, reachable_mount.
  - split_and!; [vm_compute; reflexivity|vm_compute; reflexivity|].
    apply map_Forall_lookup. intros i j Hj. vm_compute in Hj. discriminate.
  - left. vm_compute. reflexivity.
Qed.

(** C15: A rejected quote fetch in a session: at
    [/about], once the quote's fetch rejects, no sequence of ticks and
    settlements ever shows the page: every pass throws the dead promise
    until the gate expires, and only the header and the spinner show
    after. *)
Theorem rejected_quote_hangs fq es :
  Forall (fun e => quiet e = true) es ->
  s_screen (session_run fq ([HNav "/about"; HReject 0] ++ es) start) = Suspend 0 \/
  s_screen (session_run fq ([HNav "/about"; HReject 0] ++ es) start) = Ready (frame blank).
Proof.
  intros Hes. rewrite session_run_app.
  by destruct (session_run_hung fq es _ Hes (hung_after_reject fq)) as (_ & _ & _ & H).
Qed.

(** ** Witness *)

Lemma rejected_quote_hangs_witness :
  let fq := fun t => App.mkQuote "Apple" t "1.2" in
  let es := [HTick 1000; HSettle 0; HTick 5000; HSettle 1] in
  s_screen (session_run fq ([HNav "/about"; HReject 0] ++ es) start) = Suspend 0 \/
  s_screen (session_run fq ([HNav "/about"; HReject 0] ++ es) start) = Ready (frame blank).
Proof. intros fq es. apply rejected_quote_hangs. repeat constructor. Defined.

End Race.
