(* ===== verification/EventLoop.v ===== *)
(** * The host's event loop: timers, network answers and render passes
    (spec §5; src/src/index.js 74-84)

    Module [EventLoop] puts the sessions of [Race] on the clock of the
    JS event loop.  The loop holds the time, the session and the queue of
    pending callbacks:
    - the one-shot timer of the provider's gate, due [5000] ms after the
      mount;
    - for each call of the method of [ensureDelay],
      [setTimeout(() => resolve(id), ms)], a timer due [ms] after the pass
      that called it;
    - for each call of the method of [ensureQuote], the network's answer,
      due after a latency the environment chooses per ticker: a quote,
      or a failure that rejects the fetch.
    The loop runs the earliest callback, the one registered first among
    those due at the same time; time passes up to its due time, the
    callback settles its fetch, and the host retries the render pass,
    whose new fetches register their own callbacks.  A navigation is a
    pass at the current time. *)

From S2P Require Import Prelude Resource Fetcher Timeout App Host Routes Race.

Module EventLoop.
Import RouteTable Race.

(** What a pending callback does. *)
Inductive source :=
| TGate                  (* the gate's timer: the flag rises *)
| TDelay (p : promise)   (* [resolve(id)] of the delay fetch [p] *)
| TQuote (p : promise).  (* the answer to the quote fetch [p] *)

Record timer := Timer { due : nat; src : source }.

(** The next callback to run: the earliest due, and among those due at
    the same time the one registered first; with the queue left. *)
Fixpoint pick (ts : list timer) : option (timer * list timer) :=
  match ts with
  | [] => None
  | t :: ts' =>
      match pick ts' with
      | Some (u, rest) => if due u <? due t then Some (u, t :: rest) else Some (t, ts')
      | None => Some (t, [])
      end
  end.

(** The clock, the session, and the queue in order of registration. *)
Record Loop := mkLoop { now : nat; session : Session; queue : list timer }.

Section Loop.
(** The environment: the quote the service answers for a ticker, or
    [None] when the request or its JSON body fails, and the latency of
    the answer. *)
Context (net : string -> option App.Quote) (lat : string -> nat).

(** The promises a cache allocated between two of its counters. *)
Definition fresh (n0 n1 : nat) : list promise := seq n0 (n1 - n0).

(** [fetch(url)] called by the method of [ensureQuote] for the fetch
    [p]: its answer is due after the ticker's latency. *)
Definition quote_timers (t : nat) (q0 q1 : CreateResource.World string App.Quote) : list timer :=
  omap (fun p => (fun j => Timer (t + lat (CreateResource.job_req j)) (TQuote p))
                   <$> CreateResource.jobs q1 !! p)
       (fresh (CreateResource.next_promise q0) (CreateResource.next_promise q1)).

(** [new Promise(resolve => setTimeout(() => resolve(id), ms))] called by
    the method of [ensureDelay] for the fetch [p]. *)
Definition delay_timers (t : nat) (d0 d1 : CreateFetcher.Fetcher (string * nat) string string)
    : list timer :=
  omap (fun p => (fun j => Timer (t + snd (CreateFetcher.job_req j)) (TDelay p))
                   <$> CreateFetcher.jobs d1 !! p)
       (fresh (CreateFetcher.next_promise d0) (CreateFetcher.next_promise d1)).

(** The callbacks registered by a pass from [w] to [w'] at time [t]; a
    pass starts at most one fetch, since a miss throws. *)
Definition new_timers (t : nat) (w w' : App.AppWorld) : list timer :=
  quote_timers t (App.quote_world w) (App.quote_world w') ++
  delay_timers t (App.delay_world w) (App.delay_world w').

(** A render pass at time [t], its fetches' callbacks queued last. *)
Definition render_at (t : nat) (rt : Root) (w : App.AppWorld) (ts : list timer) : Loop :=
  let s := pass rt w in mkLoop t s (ts ++ new_timers t w (s_world s)).

(** The answer to the quote fetch [p]: [return await res.json()]
    resolves the method's promise and the cache's callback stores the
    quote; a failed request or body rejects it, and the cache has no
    handler for that. *)
Definition answer_quote (p : promise) (q : CreateResource.World string App.Quote)
    : CreateResource.World string App.Quote :=
  match CreateResource.jobs q !! p with
  | Some j =>
      match net (CreateResource.job_req j) with
      | Some v => CreateResource.fulfil p v q
      | None => CreateResource.reject p q
      end
  | None => q
  end.

(** What a callback does to the caches. *)
Definition settle (s : source) (w : App.AppWorld) : App.AppWorld :=
  match s with
  | TGate => w
  | TDelay p => App.mkApp (App.quote_world w) (AppHost.settle_delay p (App.delay_world w))
  | TQuote p => App.mkApp (answer_quote p (App.quote_world w)) (App.delay_world w)
  end.

(** Time passes up to [t]: the gate's timer counts. *)
Definition tick_to (t : nat) (l : Loop) : Root :=
  root_step table (Tick (t - now l)) (s_root (session l)).

(** Run the callback [tm], then retry the pass. *)
Definition fire (tm : timer) (rest : list timer) (l : Loop) : Loop :=
  render_at (due tm) (tick_to (due tm) l) (settle (src tm) (s_world (session l))) rest.

(** A click on a link: a pass at the new location, now. *)
Definition navigate (loc : string) (l : Loop) : Loop :=
  render_at (now l) (root_step table (Navigate loc) (s_root (session l)))
            (s_world (session l)) (queue l).

(** Nothing is due before [t]: the clock moves, the screen stays. *)
Definition idle (t : nat) (l : Loop) : Loop :=
  let s := session l in mkLoop t (mkSession (tick_to t l) (s_world s) (s_screen s)) (queue l).

(** Run every callback due by [t], then wait until [t]; [None] when
    [fuel] callbacks do not suffice. *)
Fixpoint run_until (fuel : nat) (t : nat) (l : Loop) : option Loop :=
  match pick (queue l) with
  | Some (tm, rest) =>
      if due tm <=? t then
        match fuel with
        | 0 => None
        | S f => run_until f t (fire tm rest l)
        end
      else Some (idle t l)
  | None => Some (idle t l)
  end.

(** The page is loaded at [/] at time 0; the gate's timer starts. *)
Definition boot : Loop :=
  render_at 0 (root_mount table "/") App.app_init [Timer provider_ms TGate].

End Loop.

(** ** The timer queue *)

Lemma pick_None ts : pick ts = None <-> ts = [].
Proof.
  split; [|by intros ->]. destruct ts as [|x ts]; simpl; [done|].
  destruct (pick ts) as [[u r]|]; [case_match|]; done.
Qed.

Lemma pick_Some ts t rest :
  pick ts = Some (t, rest) ->
  exists pre post, ts = pre ++ t :: post /\ rest = pre ++ post /\
    Forall (fun u => due t < due u) pre /\ Forall (fun u => due t <= due u) post.
Proof.
  revert t rest. induction ts as [|x ts IH]; intros t rest; simpl; [done|].
  destruct (pick ts) as [[u r]|] eqn:E.
  - destruct (IH _ _ eq_refl) as (pre & post & -> & -> & Hpre & Hpost).
    destruct (Nat.ltb_spec (due u) (due x)); intros [= <- <-].
    + exists (x :: pre), post. split_and!; auto.
    + exists [], (pre ++ u :: post). split_and!; auto.
      rewrite Forall_app, Forall_cons. split_and!; [|lia|];
        eapply Forall_impl; eauto; simpl; lia.
  - apply pick_None in E as ->. intros [= <- <-]. exists [], []. split_and!; auto.
Qed.

(** The picked timer is due no later than any other. *)
Lemma pick_min ts t rest : pick ts = Some (t, rest) -> Forall (fun u => due t <= due u) ts.
Proof.
  intros (pre & post & -> & _ & Hpre & Hpost)%pick_Some.
  rewrite Forall_app, Forall_cons. split_and!; [|lia|done].
  eapply Forall_impl; eauto; simpl; lia.
Qed.

Lemma pick_In ts t rest : pick ts = Some (t, rest) -> t ∈ ts /\ (forall u, u ∈ rest -> u ∈ ts).
Proof.
  intros (pre & post & -> & -> & _)%pick_Some. split; [set_solver|].
  intros u. rewrite !elem_of_app, elem_of_cons. tauto.
Qed.

(** A timer other than the picked one stays in the queue. *)
Lemma pick_keeps ts t rest u : pick ts = Some (t, rest) -> u ∈ ts -> u <> t -> u ∈ rest.
Proof.
  intros (pre & post & -> & -> & _)%pick_Some. rewrite !elem_of_app, elem_of_cons. naive_solver.
Qed.

(** When the next callback is due after [t], so is every one. *)
Lemma pick_after ts t :
  match pick ts with Some (tm, _) => t < due tm | None => True end ->
  Forall (fun u => t < due u) ts.
Proof.
  destruct (pick ts) as [[tm rest]|] eqn:Hp.
  - intros Ht. eapply Forall_impl; [apply (pick_min _ _ _ Hp)|]. simpl. lia.
  - apply pick_None in Hp as ->. constructor.
Qed.

(** The timer queue runs the callbacks in the order of the event
    loop: [pick] returns a timer [t] and the queue without it exactly
    when every timer registered before [t] is due strictly later and
    every timer registered after it is due no earlier: [t] is the
    earliest due, the first registered among equals. *)
Lemma pick_spec ts t rest :
  pick ts = Some (t, rest) <->
  exists pre post, ts = pre ++ t :: post /\ rest = pre ++ post /\
    Forall (fun u => due t < due u) pre /\ Forall (fun u => due t <= due u) post.
Proof.
  split; [apply pick_Some|]. intros (pre & post & -> & -> & Hpre & Hpost).
  induction Hpre as [|x pre Hx Hpre IH]; simpl.
  - destruct (pick post) as [[u r]|] eqn:E; [|by rewrite pick_None in E; subst].
    destruct (pick_In _ _ _ E) as [Hu _]. rewrite Forall_forall in Hpost.
    specialize (Hpost u Hu). by destruct (Nat.ltb_spec (due u) (due t)); [lia|].
  - rewrite IH. by destruct (Nat.ltb_spec (due t) (due x)); [|lia].
Qed.

Lemma pick_pair_lt a b : due b < due a -> pick [a; b] = Some (b, [a]).
Proof. simpl. by destruct (Nat.ltb_spec (due b) (due a)); [|lia]. Qed.

Lemma pick_pair_ge a b : due a <= due b -> pick [a; b] = Some (a, [b]).
Proof. simpl. by destruct (Nat.ltb_spec (due b) (due a)); [lia|]. Qed.

(** Of three callbacks, the second is due first (strictly before the
    first, and no later than the third). *)
Lemma pick_triple a b c : due b < due a -> due b <= due c -> pick [a; b; c] = Some (b, [a; c]).
Proof.
  intros Hab Hbc. simpl.
  destruct (Nat.ltb_spec (due c) (due b)); [lia|]. by destruct (Nat.ltb_spec (due b) (due a)); [|lia].
Qed.

(** ** What a read puts on the queue *)

(** C22: The callbacks a read registers: a read of [ensureDelay] that
    misses sets one timer, due [ms] after the pass, and a hit sets none;
    a read of [ensureQuote] sends one request, answered after the
    ticker's latency, only when the ticker is neither cached nor pending,
    so that concurrent reads of a quote share one request. *)
Theorem read_callbacks lat t obj d ticker q :
  delay_timers t d (fst (CreateFetcher.read CreateFetcher.ensureDelay_hash obj d)) =
    match CreateFetcher.resolved d !! obj.1 with
    | Some _ => []
    | None => [Timer (t + obj.2) (TDelay (CreateFetcher.next_promise d))]
    end /\
  quote_timers lat t q (fst (CreateResource.read CreateResource.getKey_default ticker q)) =
    match CreateResource.cache q !! ticker, CreateResource.pending q !! ticker with
    | None, None => [Timer (t + lat ticker) (TQuote (CreateResource.next_promise q))]
    | _, _ => []
    end.
Proof.
  split.
  - unfold CreateFetcher.read, CreateFetcher.ensureDelay_hash, delay_timers, fresh.
    destruct (CreateFetcher.resolved d !! obj.1); cbn [fst CreateFetcher.next_promise CreateFetcher.jobs].
    + by rewrite Nat.sub_diag.
    + rewrite Nat.sub_succ_l, Nat.sub_diag by lia. simpl. by rewrite lookup_insert_eq.
  - unfold CreateResource.read, CreateResource.getKey_default, quote_timers, fresh.
    destruct (CreateResource.cache q !! ticker), (CreateResource.pending q !! ticker);
      cbn [fst CreateResource.next_promise CreateResource.jobs]; try by rewrite Nat.sub_diag.
    rewrite Nat.sub_succ_l, Nat.sub_diag by lia. simpl. by rewrite lookup_insert_eq.
Qed.

(** ** The loop *)

(** The gate of a provider mounted at time 0, at time [t]. *)
Definition gate_at (t : nat) : Gate.Gate := Gate.mkGate provider_ms t (provider_ms <=? t) true.

Lemma tick_gate_at t t' : t <= t' -> Gate.tick (t' - t) (gate_at t) = gate_at t'.
Proof.
  intros Ht. unfold Gate.tick, gate_at. cbn [Gate.alive Gate.elapsed Gate.expired Gate.ms].
  replace (t + (t' - t)) with t' by lia. f_equal.
  destruct (Nat.leb_spec provider_ms t), (Nat.leb_spec provider_ms t'); simpl; lia.
Qed.

Section LoopProps.
Context (net : string -> option App.Quote) (lat : string -> nat).

(** The states of the loop: the page loaded, then clicks and the passing
    of time, which never runs backwards. *)
Inductive loop_reach : Loop -> Prop :=
| lr_boot : loop_reach (boot lat)
| lr_nav loc l : loop_reach l -> loop_reach (navigate lat loc l)
| lr_run fuel t l l' :
    loop_reach l -> now l <= t -> run_until net lat fuel t l = Some l' -> loop_reach l'.

(** What holds of every state: the root is one a session goes through,
    the gate's flag follows the clock, no callback is overdue, the gate's
    timer is pending until it fires, and once it fired the screen is
    blank. *)
Definition loop_inv (l : Loop) : Prop :=
  Race.reachable (s_root (session l)) /\
  gate (s_root (session l)) = gate_at (now l) /\
  Forall (fun u => now l <= due u) (queue l) /\
  (now l < provider_ms -> Timer provider_ms TGate ∈ queue l) /\
  (provider_ms <= now l -> s_screen (session l) = Ready (frame blank)).

Lemma new_timers_due t w w' : Forall (fun u => t <= due u) (new_timers lat t w w').
Proof.
  apply Forall_forall. intros u. unfold new_timers, quote_timers, delay_timers.
  rewrite elem_of_app, !list_elem_of_omap. intros [(p & _ & Hp)|(p & _ & Hp)];
    apply fmap_Some in Hp as (j & _ & ->); simpl; lia.
Qed.

Lemma render_at_inv t rt w ts :
  Race.reachable rt -> gate rt = gate_at t -> Forall (fun u => t <= due u) ts ->
  (t < provider_ms -> Timer provider_ms TGate ∈ ts) ->
  loop_inv (render_at lat t rt w ts).
Proof.
  intros Hr Hg Hts HT. unfold render_at. rewrite pass_fold. split_and!; simpl; auto.
  - rewrite Forall_app. split; [done|apply new_timers_due].
  - intros Ht. rewrite elem_of_app. auto.
  - intros Ht. rewrite (root_render_reachable rt Hr), Hg. cbn [gate_at Gate.expired].
    rewrite (proj2 (Nat.leb_le _ _) Ht), spec_render_expired. reflexivity.
Qed.

Lemma boot_inv : loop_inv (boot lat).
Proof.
  apply render_at_inv; [apply reachable_mount|reflexivity|repeat constructor; simpl; lia|].
  intros _. by left.
Qed.

Lemma navigate_inv loc l : loop_inv l -> loop_inv (navigate lat loc l).
Proof.
  intros (Hr & Hg & Hq & HT & _). apply render_at_inv; auto using reachable_step.
Qed.

Lemma fire_inv l tm rest :
  loop_inv l -> pick (queue l) = Some (tm, rest) -> loop_inv (fire net lat tm rest l).
Proof.
  intros (Hr & Hg & Hq & HT & _) Hp.
  assert (Hle : now l <= due tm) by (rewrite Forall_forall in Hq; apply Hq, (proj1 (pick_In _ _ _ Hp))).
  apply render_at_inv.
  - by apply reachable_step.
  - simpl. rewrite Hg. by apply tick_gate_at.
  - apply Forall_forall. intros u Hu. apply (pick_In _ _ _ Hp) in Hu.
    rewrite Forall_forall in Hq. pose proof (pick_min _ _ _ Hp) as Hm.
    rewrite Forall_forall in Hm. by apply Hm.
  - intros Ht. eapply pick_keeps; [done|apply HT; lia|]. intros E. rewrite <- E in Ht. simpl in Ht. lia.
Qed.

Lemma idle_inv t l :
  loop_inv l -> now l <= t -> Forall (fun u => t < due u) (queue l) -> loop_inv (idle t l).
Proof.
  intros (Hr & Hg & Hq & HT & Hb) Ht Hq'. split_and!; simpl.
  - by apply reachable_step.
  - rewrite Hg. by apply tick_gate_at.
  - eapply Forall_impl; [done|]. simpl. lia.
  - intros Ht'. apply HT. lia.
  - intros H5. destruct (decide (provider_ms <= now l)) as [|Hn]; [by apply Hb|].
    rewrite Forall_forall in Hq'. specialize (Hq' _ (HT ltac:(lia))). simpl in Hq'. lia.
Qed.

Lemma run_until_fire fuel t l tm rest :
  pick (queue l) = Some (tm, rest) -> due tm <= t ->
  run_until net lat (S fuel) t l = run_until net lat fuel t (fire net lat tm rest l).
Proof. intros Hp Ht. simpl. rewrite Hp. by destruct (Nat.leb_spec (due tm) t); [|lia]. Qed.

Lemma run_until_idle fuel t l :
  Forall (fun u => t < due u) (queue l) -> run_until net lat fuel t l = Some (idle t l).
Proof.
  intros Hq. destruct fuel; simpl; destruct (pick (queue l)) as [[tm rest]|] eqn:Hp; try done;
    rewrite Forall_forall in Hq; specialize (Hq tm (proj1 (pick_In _ _ _ Hp)));
    by destruct (Nat.leb_spec (due tm) t); [lia|].
Qed.

(** The run: every callback due by [t] has run, the clock reads [t], and
    the invariant holds. *)
Lemma run_until_inv fuel t l l' :
  loop_inv l -> now l <= t -> run_until net lat fuel t l = Some l' ->
  loop_inv l' /\ now l' = t /\ Forall (fun u => t < due u) (queue l').
Proof.
  revert l. induction fuel as [|f IH]; intros l Hi Ht.
  all: destruct (pick (queue l)) as [[tm rest]|] eqn:Hp;
    [destruct (Nat.le_gt_cases (due tm) t) as [Hd|Hd]|].
  all: try (assert (Hq : Forall (fun u => t < due u) (queue l))
               by (apply pick_after; rewrite Hp; done);
            rewrite run_until_idle by done; intros [= <-]; split_and!; by try apply idle_inv).
  - simpl. rewrite Hp. by destruct (Nat.leb_spec (due tm) t); [|lia].
  - rewrite (run_until_fire _ _ _ tm rest) by done. apply IH; [by apply fire_inv|done].
Qed.

(** A callback's pass, as the stateless render of the location and the
    flag at its due time. *)
Lemma fire_pass l tm rest :
  loop_inv l -> now l <= due tm ->
  let w := settle net (src tm) (s_world (session l)) in
  let r := spec_render table (location (s_root (session l))) (provider_ms <=? due tm) w in
  s_screen (session (fire net lat tm rest l)) = outcome_map frame (snd r) /\
  s_world (session (fire net lat tm rest l)) = fst r /\
  queue (fire net lat tm rest l) = rest ++ new_timers lat (due tm) w (fst r).
Proof.
  intros (Hr & Hg & _) Hle. unfold fire, render_at, tick_to. rewrite pass_fold.
  cbn [s_screen session queue s_world].
  rewrite (root_render_reachable _ (reachable_step _ _ Hr)).
  cbn [root_step gate location]. rewrite Hg, tick_gate_at by done. done.
Qed.

(** A click's pass, as the stateless render of the new location and
    the flag now. *)
Lemma navigate_pass loc l :
  loop_inv l ->
  let w := s_world (session l) in
  let r := spec_render table loc (provider_ms <=? now l) w in
  s_screen (session (navigate lat loc l)) = outcome_map frame (snd r) /\
  s_world (session (navigate lat loc l)) = fst r /\
  queue (navigate lat loc l) = queue l ++ new_timers lat (now l) w (fst r).
Proof.
  intros (Hr & Hg & _). unfold navigate, render_at. rewrite pass_fold.
  cbn [s_screen session queue s_world now].
  rewrite (root_render_reachable _ (reachable_step _ _ Hr)).
  cbn [root_step gate location]. rewrite Hg. done.
Qed.

Lemma location_navigate loc l : location (s_root (session (navigate lat loc l))) = loc.
Proof. unfold navigate, render_at. by rewrite pass_fold. Qed.

Lemma now_fire tm rest l : now (fire net lat tm rest l) = due tm.
Proof. reflexivity. Qed.

Lemma root_fire tm rest l : s_root (session (fire net lat tm rest l)) = tick_to (due tm) l.
Proof. unfold fire, render_at. by rewrite pass_fold. Qed.

Lemma location_fire tm rest l :
  location (s_root (session (fire net lat tm rest l))) = location (s_root (session l)).
Proof. by rewrite root_fire. Qed.

(** The answer to a quote fetch, by what the network says of its ticker. *)
Lemma settle_quote_fulfil w p r v :
  CreateResource.job_req <$> CreateResource.jobs (App.quote_world w) !! p = Some r ->
  net r = Some v ->
  settle net (TQuote p) w = App.mkApp (CreateResource.fulfil p v (App.quote_world w)) (App.delay_world w).
Proof.
  intros Hj Hr. unfold settle, answer_quote.
  destruct (CreateResource.jobs (App.quote_world w) !! p) as [j|]; simplify_eq/=. by rewrite Hr.
Qed.

Lemma settle_quote_reject w p r :
  CreateResource.job_req <$> CreateResource.jobs (App.quote_world w) !! p = Some r ->
  net r = None ->
  settle net (TQuote p) w = App.mkApp (CreateResource.reject p (App.quote_world w)) (App.delay_world w).
Proof.
  intros Hj Hr. unfold settle, answer_quote.
  destruct (CreateResource.jobs (App.quote_world w) !! p) as [j|]; simplify_eq/=. by rewrite Hr.
Qed.

Lemma new_timers_same t w : new_timers lat t w w = [].
Proof. unfold new_timers, quote_timers, delay_timers, fresh. by rewrite !Nat.sub_diag. Qed.

(** Once every pending callback is due at or after the deadline, each
    one runs over a blank pass that starts nothing: as many callbacks as
    are pending suffice. *)
Lemma drain fuel t l :
  loop_inv l -> now l <= t -> Forall (fun u => provider_ms <= due u) (queue l) ->
  length (queue l) <= fuel -> is_Some (run_until net lat fuel t l).
Proof.
  revert l. induction fuel as [|f IH]; intros l Hi Ht Hq Hn.
  all: destruct (pick (queue l)) as [[tm rest]|] eqn:Hp;
    [destruct (Nat.le_gt_cases (due tm) t) as [Hd|Hd]|].
  all: try (rewrite run_until_idle by (apply pick_after; by rewrite Hp); by eexists).
  - destruct (queue l); [done|simpl in Hn; lia].
  - destruct (pick_Some _ _ _ Hp) as (pre & post & Hl & -> & _).
    assert (Hle : now l <= due tm)
      by (destruct Hi as (_ & _ & Hq0 & _); rewrite Forall_forall in Hq0; apply Hq0; rewrite Hl; set_solver).
    assert (H5 : provider_ms <= due tm)
      by (pose proof Hq as Hq1; rewrite Forall_forall in Hq1; apply Hq1; rewrite Hl; set_solver).
    rewrite (run_until_fire _ _ _ tm (pre ++ post)) by done.
    destruct (fire_pass l tm (pre ++ post) Hi Hle) as (_ & _ & Hq').
    apply IH; [by apply fire_inv|done| |].
    + rewrite Hq', (proj2 (Nat.leb_le _ _) H5), spec_render_expired, new_timers_same, app_nil_r.
      rewrite Hl, Forall_app, Forall_cons in Hq. apply Forall_app. tauto.
    + rewrite Hq', (proj2 (Nat.leb_le _ _) H5), spec_render_expired, new_timers_same, app_nil_r.
      rewrite Hl, length_app in Hn. rewrite length_app. simpl in Hn. lia.
Qed.

Lemma loop_reach_inv l : loop_reach l -> loop_inv l.
Proof.
  induction 1 as [|loc l _ IH|fuel t l l' _ IH Ht Hrun];
    [apply boot_inv|by apply navigate_inv|eapply run_until_inv; eauto].
Qed.

(** Nothing is due by [t]: what a run up to [t] observes of the caches
    and the screen is what the last pass left. *)
Lemma run_until_idle_obs {B} (f : App.AppWorld -> outcome vnode -> B) fuel t l :
  Forall (fun u => t < due u) (queue l) ->
  option_map (fun l => f (s_world (session l)) (s_screen (session l))) (run_until net lat fuel t l) =
  Some (f (s_world (session l)) (s_screen (session l))).
Proof. intros Hq. by rewrite run_until_idle. Qed.

Lemma run_until_idle_screen fuel t l :
  Forall (fun u => t < due u) (queue l) ->
  option_map (fun l => s_screen (session l)) (run_until net lat fuel t l) = Some (s_screen (session l)).
Proof. apply (run_until_idle_obs (fun _ s => s)). Qed.

(** A run that ends after the deadline ends on the blank screen. *)
Lemma run_until_blank fuel t l :
  loop_inv l -> now l <= t -> provider_ms <= t -> is_Some (run_until net lat fuel t l) ->
  option_map (fun l => s_screen (session l)) (run_until net lat fuel t l) = Some (Ready (frame blank)).
Proof.
  intros Hi Ht H5 [l' Hr]. rewrite Hr. simpl. f_equal.
  destruct (run_until_inv _ _ _ _ Hi Ht Hr) as ((_ & _ & _ & _ & Hb) & Hn & _). apply Hb. lia.
Qed.

(** ** Properties of the loop *)

(** C16: The gate's timer on the loop's clock: in every state of the
    loop, whatever the clicks and the latencies, the provider's flag is
    up exactly when 5000 ms have passed since the page loaded, and no
    pending callback is overdue. *)
Theorem loop_clock l :
  loop_reach l ->
  Gate.expired (gate (s_root (session l))) = (provider_ms <=? now l) /\
  Forall (fun u => now l <= due u) (queue l).
Proof. intros (_ & -> & Hq & _)%loop_reach_inv. by split. Qed.

(** C17: From 5000 ms after the page loaded on, in every state of the
    loop, the screen is the header of links above the spinner alone,
    whatever route is shown and whatever fetch is still in flight. *)
Theorem blank_from_deadline l :
  loop_reach l -> provider_ms <= now l -> s_screen (session l) = Ready (frame blank).
Proof. intros (_ & _ & _ & _ & Hb)%loop_reach_inv. apply Hb. Qed.

End LoopProps.

(** ** Witnesses *)

(** A service that answers every ticker with a quote, 700 ms later. *)
Definition demo_net (t : string) : option App.Quote := Some (App.mkQuote "Apple" t "1.2").
Definition demo_latency (_ : string) : nat := 700.

Lemma loop_clock_witness :
  let l := navigate demo_latency "/settings" (boot demo_latency) in
  Gate.expired (gate (s_root (session l))) = (provider_ms <=? now l) /\
  Forall (fun u => now l <= due u) (queue l).
Proof. apply (loop_clock demo_net demo_latency), lr_nav, lr_boot. Defined.

Lemma blank_from_deadline_witness :
  exists l, run_until demo_net demo_latency 3 6000 (navigate demo_latency "/settings" (boot demo_latency)) = Some l /\
            s_screen (session l) = Ready (frame blank).
Proof.
  destruct (run_until demo_net demo_latency 3 6000 (navigate demo_latency "/settings" (boot demo_latency)))
    as [l|] eqn:E; [|vm_compute in E; discriminate].
  exists l. split; [done|]. apply (blank_from_deadline demo_net demo_latency).
  - eapply lr_run; [apply lr_nav, lr_boot|vm_compute; lia|exact E].
  - vm_compute in E. injection E as <-. vm_compute. lia.
Defined.

End EventLoop.
