(* ===== verification/Timeline.v ===== *)
(** * Timelines of a click (src/src/index.js 202-268 on the event loop)

    Module [Timeline] follows the event loop of [EventLoop] after a click
    on a link with cold caches: the page is loaded at [/], nothing
    happens until [t0], and the user clicks the link to [/settings] or
    [/about].  Before the deadline every pass renders the stateless
    function of the location and a flag that is down ([fire_shows],
    [click_shows]), so each state of the loop is known by its location,
    its caches, its queue and its screen ([shows]); the timelines follow
    the callbacks one by one, and once every callback left is due at or
    after the deadline the loop drains them over blank passes.  The
    network answers the quote's request with a quote or a failure.  A
    last timeline has two more clicks, Home and back to [/settings]
    ([idle_shows], [nav_shows]), and counts the delay fetches started. *)

From S2P Require Import Prelude Resource Fetcher Timeout App Host Routes Race EventLoop.

Module Timeline.
Import RouteTable Race EventLoop.

(** The settings page once both delays resolved. *)
Definition settings_tree : vnode :=
  VElem "div" false [App.h1 "Settings";
                     VFrag [VElem "div" false [VText "fizz"]; VElem "div" false [VText "buzz"]]].

Definition settings_screen : outcome vnode :=
  Ready (frame (TimeoutView.AsyncRouteProvider spinner
                  (fun _ => VFrag [VNull; VNull; settings_tree]) false)).

(** The about page for a quote. *)
Definition about_screen (q : App.Quote) : outcome vnode :=
  Ready (frame (TimeoutView.AsyncRouteProvider spinner
                  (fun _ => VFrag [VNull; about_tree q; VNull]) false)).

(** Every callback of a queue, given as a list, is due after a bound. *)
Ltac all_due_after := repeat (apply Forall_cons; split; [cbn [due]; lia|]); constructor.

(** The next callback of a queue of two or three, given as a list. *)
Ltac pick_next :=
  first [apply pick_pair_lt; cbn [due]; lia | apply pick_triple; cbn [due]; lia].

(** The number of delay fetches started so far: each is a [setTimeout]. *)
Definition delay_fetches (w : App.AppWorld) : nat := CreateFetcher.next_promise (App.delay_world w).

Section Click.
Context (net : string -> option App.Quote) (lat : string -> nat).

(** The page loaded, nothing happened until [t0], then a click on the
    link to [loc]. *)
Definition clicked (loc : string) (t0 : nat) : Loop := navigate lat loc (idle t0 (boot lat)).

(** The caches and the screen after a pass at [loc] before the deadline. *)
Definition pass_world (loc : string) (w : App.AppWorld) : App.AppWorld :=
  fst (spec_render table loc false w).

Definition pass_screen (loc : string) (w : App.AppWorld) : outcome vnode :=
  outcome_map frame (snd (spec_render table loc false w)).

(** A state of the loop, known by its location, caches, queue and screen. *)
Definition shows (l : Loop) (loc : string) (w : App.AppWorld) (q : list timer) (s : outcome vnode)
    : Prop :=
  loop_inv l /\ location (s_root (session l)) = loc /\ s_world (session l) = w /\
  queue l = q /\ s_screen (session l) = s.

(** The caches as loaded. *)
Definition loaded : App.AppWorld := s_world (session (boot lat)).

Lemma now_clicked loc t0 : now (clicked loc t0) = t0.
Proof. reflexivity. Qed.

Lemma shows_eq l loc w q s q' s' : shows l loc w q s -> q = q' -> s = s' -> shows l loc w q' s'.
Proof. intros H -> ->. exact H. Qed.

(** The clock moves to [t] with nothing due: the state is the same. *)
Lemma idle_shows l loc w q s t :
  shows l loc w q s -> now l <= t -> Forall (fun u => t < due u) q -> shows (idle t l) loc w q s.
Proof. intros (I & Hl & Hw & Hq & Hs) Ht Hq'. split_and!; [apply idle_inv; congruence|done..]. Qed.

(** A click on the link to [loc'] before the deadline: a pass at [loc']. *)
Lemma nav_shows l loc w q s loc' :
  shows l loc w q s -> now l < provider_ms ->
  shows (navigate lat loc' l) loc' (pass_world loc' w)
        (q ++ new_timers lat (now l) w (pass_world loc' w)) (pass_screen loc' w).
Proof.
  intros (I & _ & Hw & Hq & _) Ht. destruct (navigate_pass lat loc' l I) as (Hs' & Hw' & Hq').
  cbv zeta in Hs', Hw', Hq'. rewrite (proj2 (Nat.leb_gt _ _) Ht), Hw in Hs', Hw', Hq'.
  split_and!; [by apply navigate_inv|apply location_navigate|done|by rewrite Hq', Hq|done].
Qed.

Lemma boot_shows :
  shows (boot lat) "/" loaded [Timer provider_ms TGate] (s_screen (session (boot lat))).
Proof. split_and!; [apply boot_inv|vm_compute; reflexivity|done|vm_compute; reflexivity|done]. Qed.

Lemma click_shows loc t0 :
  t0 < provider_ms ->
  shows (clicked loc t0) loc (pass_world loc loaded)
        (Timer provider_ms TGate :: new_timers lat t0 loaded (pass_world loc loaded))
        (pass_screen loc loaded).
Proof.
  intros H0.
  eapply shows_eq; [eapply (nav_shows _ "/" _ [Timer provider_ms TGate])|reflexivity|reflexivity];
    [|simpl; lia].
  eapply idle_shows; [apply boot_shows|simpl; lia|].
  apply Forall_cons; split; [cbn [due]; lia|constructor].
Qed.

Lemma fire_shows l loc w q s tm rest w' :
  shows l loc w q s -> pick q = Some (tm, rest) -> due tm < provider_ms ->
  settle net (src tm) w = w' ->
  shows (fire net lat tm rest l) loc (pass_world loc w')
        (rest ++ new_timers lat (due tm) w' (pass_world loc w')) (pass_screen loc w').
Proof.
  intros (I & Hl & Hw & Hq & _) Hp Hd Hw1. rewrite <- Hq in Hp.
  pose proof I as (_ & _ & Hq0 & _).
  assert (Hle : now l <= due tm)
    by (rewrite Forall_forall in Hq0; apply Hq0, (proj1 (pick_In _ _ _ Hp))).
  destruct (fire_pass net lat l tm rest I Hle) as (Hs' & Hw' & Hq').
  cbv zeta in Hs', Hw', Hq'. rewrite (proj2 (Nat.leb_gt _ _) Hd), Hl, Hw, Hw1 in Hs', Hw', Hq'.
  split_and!; [by apply fire_inv|by rewrite location_fire|done|done|done].
Qed.

(** A state computed from the previous one: the queue and the screen
    evaluate. *)
Ltac shows_step H := eapply shows_eq; [apply H | vm_compute; reflexivity | vm_compute; reflexivity].

(** The next callback runs before the deadline, from a known state; [S]
    proves what it does to the caches. *)
Ltac fire_step H S :=
  eapply shows_eq;
  [ eapply fire_shows;
    [ apply H; lia | pick_next | cbn [due]; lia | S ]
  | vm_compute; reflexivity | vm_compute; reflexivity ].

(** A delay resolves with its id. *)
Ltac delay_settles := reflexivity.

(** The quote fetch of ["aapl"] is answered as the network says. *)
Ltac quote_answered H :=
  first [ apply (settle_quote_fulfil net _ _ "aapl"); [vm_compute; reflexivity|exact H]
        | apply (settle_quote_reject net _ _ "aapl"); [vm_compute; reflexivity|exact H] ].

(** ** [/settings] *)

Definition settings_fizz (t0 : nat) : Loop :=
  fire net lat (Timer (t0 + 1000) (TDelay 0)) [Timer provider_ms TGate] (clicked "/settings" t0).

Definition settings_buzz (t0 : nat) : Loop :=
  fire net lat (Timer (t0 + 1000 + 2000) (TDelay 1)) [Timer provider_ms TGate] (settings_fizz t0).

Lemma settings_clicked t0 :
  t0 < provider_ms ->
  shows (clicked "/settings" t0) "/settings" (pass_world "/settings" loaded)
        [Timer provider_ms TGate; Timer (t0 + 1000) (TDelay 0)] (Suspend 0).
Proof. intros H. shows_step (click_shows "/settings" t0 H). Qed.

Lemma settings_fizz_shows t0 :
  t0 + 1000 < provider_ms ->
  shows (settings_fizz t0) "/settings"
        (pass_world "/settings" (settle net (TDelay 0) (pass_world "/settings" loaded)))
        [Timer provider_ms TGate; Timer (t0 + 1000 + 2000) (TDelay 1)] (Suspend 1).
Proof. intros H. fire_step (settings_clicked t0) delay_settles. Qed.

Lemma settings_buzz_shows t0 :
  t0 + 1000 + 2000 < provider_ms ->
  shows (settings_buzz t0) "/settings"
        (pass_world "/settings" (settle net (TDelay 1)
           (pass_world "/settings" (settle net (TDelay 0) (pass_world "/settings" loaded)))))
        [Timer provider_ms TGate] settings_screen.
Proof. intros H. fire_step (settings_fizz_shows t0) delay_settles. Qed.

(** ** [/about] *)

Definition about_answered (t0 : nat) : Loop :=
  fire net lat (Timer (t0 + lat "aapl") (TQuote 0)) [Timer provider_ms TGate] (clicked "/about" t0).

Definition about_shown (t0 : nat) : Loop :=
  fire net lat (Timer (t0 + lat "aapl" + 1000) (TDelay 0)) [Timer provider_ms TGate] (about_answered t0).

(** The caches once the quote's answer came, or its failure. *)
Definition quote_fulfilled (v : App.Quote) : App.AppWorld :=
  App.mkApp (CreateResource.fulfil 0 v (App.quote_world (pass_world "/about" loaded)))
            (App.delay_world (pass_world "/about" loaded)).

Definition quote_rejected : App.AppWorld :=
  App.mkApp (CreateResource.reject 0 (App.quote_world (pass_world "/about" loaded)))
            (App.delay_world (pass_world "/about" loaded)).

Lemma about_clicked t0 :
  t0 < provider_ms ->
  shows (clicked "/about" t0) "/about" (pass_world "/about" loaded)
        [Timer provider_ms TGate; Timer (t0 + lat "aapl") (TQuote 0)] (Suspend 0).
Proof. intros H. shows_step (click_shows "/about" t0 H). Qed.

Lemma about_answered_shows t0 v :
  net "aapl" = Some v -> t0 + lat "aapl" < provider_ms ->
  shows (about_answered t0) "/about" (pass_world "/about" (quote_fulfilled v))
        [Timer provider_ms TGate; Timer (t0 + lat "aapl" + 1000) (TDelay 0)] (Suspend 0).
Proof. intros Hv H. fire_step (about_clicked t0) ltac:(quote_answered Hv). Qed.

Lemma about_shown_shows t0 v :
  net "aapl" = Some v -> t0 + lat "aapl" + 1000 < provider_ms ->
  shows (about_shown t0) "/about"
        (pass_world "/about" (settle net (TDelay 0) (pass_world "/about" (quote_fulfilled v))))
        [Timer provider_ms TGate] (about_screen v).
Proof. intros Hv H. fire_step (about_answered_shows t0 v Hv) delay_settles. Qed.

(** The answer is a failure: the quote stays pending on the dead
    promise, and the pass throws it again and starts nothing. *)
Lemma about_rejected_shows t0 :
  net "aapl" = None -> t0 + lat "aapl" < provider_ms ->
  shows (about_answered t0) "/about" (pass_world "/about" quote_rejected)
        [Timer provider_ms TGate] (Suspend 0).
Proof. intros Hv H. fire_step (about_clicked t0) ltac:(quote_answered Hv). Qed.

(** ** [/settings] again, before its first delay resolved *)

(** Clicked at [t0], Home clicked at [t1], [/settings] again at [t2]. *)
Definition revisited (t0 t1 t2 : nat) : Loop :=
  navigate lat "/settings" (idle t2 (navigate lat "/" (idle t1 (clicked "/settings" t0)))).

(** The caches after the second visit, and after the delay [p] resolved
    and the pass at [/settings] was retried. *)
Definition revisit_world : App.AppWorld :=
  pass_world "/settings" (pass_world "/" (pass_world "/settings" loaded)).

Definition after_delay (p : promise) (w : App.AppWorld) : App.AppWorld :=
  pass_world "/settings" (settle net (TDelay p) w).

Definition revisit_fizz0 (t0 t1 t2 : nat) : Loop :=
  fire net lat (Timer (t0 + 1000) (TDelay 0))
       [Timer provider_ms TGate; Timer (t2 + 1000) (TDelay 1)] (revisited t0 t1 t2).

Definition revisit_fizz1 (t0 t1 t2 : nat) : Loop :=
  fire net lat (Timer (t2 + 1000) (TDelay 1))
       [Timer provider_ms TGate; Timer (t0 + 1000 + 2000) (TDelay 2)] (revisit_fizz0 t0 t1 t2).

Definition revisit_buzz2 (t0 t1 t2 : nat) : Loop :=
  fire net lat (Timer (t0 + 1000 + 2000) (TDelay 2))
       [Timer provider_ms TGate; Timer (t2 + 1000 + 2000) (TDelay 3)] (revisit_fizz1 t0 t1 t2).

Definition revisit_buzz3 (t0 t1 t2 : nat) : Loop :=
  fire net lat (Timer (t2 + 1000 + 2000) (TDelay 3)) [Timer provider_ms TGate]
       (revisit_buzz2 t0 t1 t2).

(** Home reads nothing; back at [/settings], [fizz] is not resolved and
    the fetcher starts a second delay for it. *)
Lemma revisit_shows t0 t1 t2 :
  t0 <= t1 -> t1 <= t2 -> t2 < t0 + 1000 -> t2 < provider_ms ->
  shows (revisited t0 t1 t2) "/settings" revisit_world
        [Timer provider_ms TGate; Timer (t0 + 1000) (TDelay 0); Timer (t2 + 1000) (TDelay 1)]
        (Suspend 1).
Proof.
  intros H01 H12 H2 H2T. pose proof (settings_clicked t0 ltac:(lia)) as S0.
  assert (S1 := idle_shows _ _ _ _ _ t1 S0 ltac:(simpl; lia) ltac:(all_due_after)).
  assert (S2 : shows (navigate lat "/" (idle t1 (clicked "/settings" t0))) "/"
                 (pass_world "/" (pass_world "/settings" loaded))
                 [Timer provider_ms TGate; Timer (t0 + 1000) (TDelay 0)]
                 (pass_screen "/" (pass_world "/settings" loaded)))
    by shows_step (nav_shows _ _ _ _ _ "/" S1 ltac:(simpl; lia)).
  assert (S3 := idle_shows _ _ _ _ _ t2 S2 ltac:(simpl; lia) ltac:(all_due_after)).
  shows_step (nav_shows _ _ _ _ _ "/settings" S3 ltac:(simpl; lia)).
Qed.

Lemma revisit_fizz0_shows t0 t1 t2 :
  t0 <= t1 -> t1 <= t2 -> t2 < t0 + 1000 -> t0 + 1000 < provider_ms ->
  shows (revisit_fizz0 t0 t1 t2) "/settings" (after_delay 0 revisit_world)
        [Timer provider_ms TGate; Timer (t2 + 1000) (TDelay 1); Timer (t0 + 1000 + 2000) (TDelay 2)]
        (Suspend 2).
Proof. intros. fire_step (revisit_shows t0 t1 t2) delay_settles. Qed.

(** The stale second delay of [fizz] resolves: the retried pass finds
    [buzz] unresolved and starts a second delay for it. *)
Lemma revisit_fizz1_shows t0 t1 t2 :
  t0 <= t1 -> t1 <= t2 -> t2 < t0 + 1000 -> t2 + 1000 < provider_ms ->
  shows (revisit_fizz1 t0 t1 t2) "/settings" (after_delay 1 (after_delay 0 revisit_world))
        [Timer provider_ms TGate; Timer (t0 + 1000 + 2000) (TDelay 2);
         Timer (t2 + 1000 + 2000) (TDelay 3)]
        (Suspend 3).
Proof. intros. fire_step (revisit_fizz0_shows t0 t1 t2) delay_settles. Qed.

Lemma revisit_buzz2_shows t0 t1 t2 :
  t0 <= t1 -> t1 <= t2 -> t2 < t0 + 1000 -> t0 + 1000 + 2000 < provider_ms ->
  shows (revisit_buzz2 t0 t1 t2) "/settings"
        (after_delay 2 (after_delay 1 (after_delay 0 revisit_world)))
        [Timer provider_ms TGate; Timer (t2 + 1000 + 2000) (TDelay 3)] settings_screen.
Proof. intros. fire_step (revisit_fizz1_shows t0 t1 t2) delay_settles. Qed.

Lemma revisit_buzz3_shows t0 t1 t2 :
  t0 <= t1 -> t1 <= t2 -> t2 < t0 + 1000 -> t2 + 1000 + 2000 < provider_ms ->
  shows (revisit_buzz3 t0 t1 t2) "/settings"
        (after_delay 3 (after_delay 2 (after_delay 1 (after_delay 0 revisit_world))))
        [Timer provider_ms TGate] settings_screen.
Proof. intros. fire_step (revisit_buzz2_shows t0 t1 t2) delay_settles. Qed.

End Click.

(** ** Timelines *)

Ltac queue_after Q := rewrite Q; all_due_after.

(** Nothing more is due by [T]: the screen is that of the last pass. *)
Ltac run_idle Q S := rewrite run_until_idle_screen by (queue_after Q); by rewrite S.

(** The next callback, [tm], is due by [T]. *)
Ltac run_fire tm rest Q :=
  rewrite (run_until_fire _ _ _ _ _ tm rest)
    by (first [rewrite Q; pick_next | cbn [due]; lia]).

(** As [run_idle], observing the screen and the delay fetches started. *)
Ltac run_obs Q W S :=
  rewrite (run_until_idle_obs _ _ (fun w s => (s, delay_fetches w))) by (queue_after Q);
  rewrite W, S; vm_compute; reflexivity.

(** The queue left is due at or after the deadline: it drains. *)
Ltac run_drain Q :=
  apply drain;
  [ done
  | unfold settings_fizz, settings_buzz, about_answered, about_shown;
    rewrite ?now_clicked, ?now_fire; cbn [due]; lia
  | queue_after Q | rewrite Q; simpl; lia ].

(** C20: The timeline of [/settings]: clicked at [t0] before the deadline,
    the page throws the promise of [fizz]'s delay until [t0 + 1000], then,
    as the retried pass starts [buzz]'s delay only then, the promise of
    [buzz] until [t0 + 3000]; it shows from [t0 + 3000] if that is before
    5000 ms after the load, and the spinner alone shows from 5000 ms on:
    clicked at 2000 ms or later, the page never shows.  Three callbacks
    run, whatever the latencies of the network. *)
Theorem settings_timeline net lat t0 T :
  t0 < provider_ms -> t0 <= T ->
  option_map (fun l => s_screen (session l)) (run_until net lat 3 T (clicked lat "/settings" t0)) =
  Some (if T <? provider_ms
        then if T <? t0 + 1000 then Suspend 0
             else if T <? t0 + 3000 then Suspend 1 else settings_screen
        else Ready (frame blank)).
Proof.
  intros H0 HT0. destruct (settings_clicked lat t0 H0) as (I0 & _ & _ & Q0 & S0).
  destruct (Nat.ltb_spec T provider_ms) as [HT|HT].
  - destruct (Nat.ltb_spec T (t0 + 1000)); [run_idle Q0 S0|].
    destruct (settings_fizz_shows net lat t0 ltac:(lia)) as (_ & _ & _ & Q1 & S1).
    run_fire (Timer (t0 + 1000) (TDelay 0)) [Timer provider_ms TGate] Q0.
    fold (settings_fizz net lat t0).
    destruct (Nat.ltb_spec T (t0 + 3000)); [run_idle Q1 S1|].
    destruct (settings_buzz_shows net lat t0 ltac:(lia)) as (_ & _ & _ & Q2 & S2).
    run_fire (Timer (t0 + 1000 + 2000) (TDelay 1)) [Timer provider_ms TGate] Q1.
    fold (settings_buzz net lat t0). run_idle Q2 S2.
  - apply run_until_blank; [done|by rewrite now_clicked|done|].
    destruct (Nat.lt_ge_cases (t0 + 1000) provider_ms) as [H1|H1]; [|run_drain Q0].
    destruct (settings_fizz_shows net lat t0 H1) as (I1 & _ & _ & Q1 & _).
    run_fire (Timer (t0 + 1000) (TDelay 0)) [Timer provider_ms TGate] Q0.
    fold (settings_fizz net lat t0).
    destruct (Nat.lt_ge_cases (t0 + 1000 + 2000) provider_ms) as [H2|H2];
      [|run_drain Q1].
    destruct (settings_buzz_shows net lat t0 H2) as (I2 & _ & _ & Q2 & _).
    run_fire (Timer (t0 + 1000 + 2000) (TDelay 1)) [Timer provider_ms TGate] Q1.
    fold (settings_buzz net lat t0). run_drain Q2.
Qed.

(** C18: The timeline of [/about], for any latency [L] of the quote's
    answer: clicked at [t0] before the deadline, the page throws the
    quote's promise until [t0 + L], then that of the delay, which the
    retried pass starts only then, until [t0 + L + 1000]; it shows from
    [t0 + L + 1000] if that is before 5000 ms after the load, and the
    spinner alone shows from 5000 ms on. *)
Theorem about_timeline net lat v t0 T :
  net "aapl" = Some v -> t0 < provider_ms -> t0 <= T ->
  option_map (fun l => s_screen (session l)) (run_until net lat 3 T (clicked lat "/about" t0)) =
  Some (if T <? provider_ms
        then if T <? t0 + lat "aapl" + 1000 then Suspend 0 else about_screen v
        else Ready (frame blank)).
Proof.
  intros Hv H0 HT0. destruct (about_clicked lat t0 H0) as (I0 & _ & _ & Q0 & S0).
  destruct (Nat.ltb_spec T provider_ms) as [HT|HT].
  - destruct (Nat.ltb_spec T (t0 + lat "aapl" + 1000)) as [H1|H1].
    + destruct (Nat.lt_ge_cases T (t0 + lat "aapl")); [run_idle Q0 S0|].
      destruct (about_answered_shows net lat t0 v Hv ltac:(lia)) as (_ & _ & _ & Q1 & S1).
      run_fire (Timer (t0 + lat "aapl") (TQuote 0)) [Timer provider_ms TGate] Q0.
      fold (about_answered net lat t0). run_idle Q1 S1.
    + destruct (about_answered_shows net lat t0 v Hv ltac:(lia)) as (_ & _ & _ & Q1 & _).
      destruct (about_shown_shows net lat t0 v Hv ltac:(lia)) as (_ & _ & _ & Q2 & S2).
      run_fire (Timer (t0 + lat "aapl") (TQuote 0)) [Timer provider_ms TGate] Q0.
      fold (about_answered net lat t0).
      run_fire (Timer (t0 + lat "aapl" + 1000) (TDelay 0)) [Timer provider_ms TGate] Q1.
      fold (about_shown net lat t0). run_idle Q2 S2.
  - apply run_until_blank; [done|by rewrite now_clicked|done|].
    destruct (Nat.lt_ge_cases (t0 + lat "aapl") provider_ms) as [H1|H1]; [|run_drain Q0].
    destruct (about_answered_shows net lat t0 v Hv H1) as (I1 & _ & _ & Q1 & _).
    run_fire (Timer (t0 + lat "aapl") (TQuote 0)) [Timer provider_ms TGate] Q0.
    fold (about_answered net lat t0).
    destruct (Nat.lt_ge_cases (t0 + lat "aapl" + 1000) provider_ms) as [H2|H2];
      [|run_drain Q1].
    destruct (about_shown_shows net lat t0 v Hv H2) as (I2 & _ & _ & Q2 & _).
    run_fire (Timer (t0 + lat "aapl" + 1000) (TDelay 0)) [Timer provider_ms TGate] Q1.
    fold (about_shown net lat t0). run_drain Q2.
Qed.

(** C19: A failed quote request in the timeline of [/about]: clicked at
    [t0] before the deadline, when the request for ["aapl"] fails (the
    fetch or its JSON body rejects), the page throws the quote's promise
    until 5000 ms and only the spinner shows from then on.  The cache has
    no rejection handler, so the key stays pending on the dead promise:
    every pass throws it again and no request is ever sent again, which
    is why two callbacks, the answer and the gate's timer, suffice up to
    any time. *)
Theorem about_rejected_timeline net lat t0 T :
  net "aapl" = None -> t0 < provider_ms -> t0 <= T ->
  option_map (fun l => s_screen (session l)) (run_until net lat 2 T (clicked lat "/about" t0)) =
  Some (if T <? provider_ms then Suspend 0 else Ready (frame blank)).
Proof.
  intros Hv H0 HT0. destruct (about_clicked lat t0 H0) as (I0 & _ & _ & Q0 & S0).
  destruct (Nat.ltb_spec T provider_ms) as [HT|HT].
  - destruct (Nat.lt_ge_cases T (t0 + lat "aapl")); [run_idle Q0 S0|].
    destruct (about_rejected_shows net lat t0 Hv ltac:(lia)) as (_ & _ & _ & Q1 & S1).
    run_fire (Timer (t0 + lat "aapl") (TQuote 0)) [Timer provider_ms TGate] Q0.
    fold (about_answered net lat t0). run_idle Q1 S1.
  - apply run_until_blank; [done|by rewrite now_clicked|done|].
    destruct (Nat.lt_ge_cases (t0 + lat "aapl") provider_ms) as [H1|H1]; [|run_drain Q0].
    destruct (about_rejected_shows net lat t0 Hv H1) as (I1 & _ & _ & Q1 & _).
    run_fire (Timer (t0 + lat "aapl") (TQuote 0)) [Timer provider_ms TGate] Q0.
    fold (about_answered net lat t0). run_drain Q1.
Qed.

(** C21: Going back to [/settings] before its first delay resolved: clicked
    at [t0], then Home at [t1], then [/settings] again at [t2 < t0 + 1000].
    The fetcher of [ensureDelay] keeps no record of the fetch in flight,
    so the second visit starts a second delay for [fizz]; when the stale
    one resolves, at [t2 + 1000], the retried pass finds [buzz] still
    unresolved and starts a second delay for it too.  Up to the deadline,
    the screen is the page from [t0 + 3000], as if there had been one
    visit, but four delay fetches run where two would do. *)
Theorem settings_revisit_timeline net lat t0 t1 t2 T :
  t0 <= t1 -> t1 <= t2 -> t2 < t0 + 1000 -> t2 <= T -> T < provider_ms ->
  option_map (fun l => (s_screen (session l), delay_fetches (s_world (session l))))
    (run_until net lat 4 T (revisited lat t0 t1 t2)) =
  Some (if T <? t0 + 1000 then (Suspend 1, 2)
        else if T <? t2 + 1000 then (Suspend 2, 3)
        else if T <? t0 + 3000 then (Suspend 3, 4)
        else (settings_screen, 4)).
Proof.
  intros H01 H12 H2 H2T HT.
  destruct (revisit_shows lat t0 t1 t2 H01 H12 H2 ltac:(lia)) as (_ & _ & W0 & Q0 & S0).
  destruct (Nat.ltb_spec T (t0 + 1000)); [run_obs Q0 W0 S0|].
  destruct (revisit_fizz0_shows net lat t0 t1 t2 H01 H12 H2 ltac:(lia)) as (_ & _ & W1 & Q1 & S1).
  run_fire (Timer (t0 + 1000) (TDelay 0)) [Timer provider_ms TGate; Timer (t2 + 1000) (TDelay 1)] Q0.
  fold (revisit_fizz0 net lat t0 t1 t2).
  destruct (Nat.ltb_spec T (t2 + 1000)); [run_obs Q1 W1 S1|].
  destruct (revisit_fizz1_shows net lat t0 t1 t2 H01 H12 H2 ltac:(lia)) as (_ & _ & W2 & Q2 & S2).
  run_fire (Timer (t2 + 1000) (TDelay 1))
    [Timer provider_ms TGate; Timer (t0 + 1000 + 2000) (TDelay 2)] Q1.
  fold (revisit_fizz1 net lat t0 t1 t2).
  destruct (Nat.ltb_spec T (t0 + 3000)); [run_obs Q2 W2 S2|].
  destruct (revisit_buzz2_shows net lat t0 t1 t2 H01 H12 H2 ltac:(lia)) as (_ & _ & W3 & Q3 & S3).
  run_fire (Timer (t0 + 1000 + 2000) (TDelay 2))
    [Timer provider_ms TGate; Timer (t2 + 1000 + 2000) (TDelay 3)] Q2.
  fold (revisit_buzz2 net lat t0 t1 t2).
  destruct (Nat.lt_ge_cases T (t2 + 1000 + 2000)); [run_obs Q3 W3 S3|].
  destruct (revisit_buzz3_shows net lat t0 t1 t2 H01 H12 H2 ltac:(lia)) as (_ & _ & W4 & Q4 & S4).
  run_fire (Timer (t2 + 1000 + 2000) (TDelay 3)) [Timer provider_ms TGate] Q3.
  fold (revisit_buzz3 net lat t0 t1 t2). run_obs Q4 W4 S4.
Qed.

(** ** Witnesses *)

(** A service that cannot answer. *)
Definition down (_ : string) : option App.Quote := None.

Lemma settings_timeline_witness :
  option_map (fun l => s_screen (session l))
    (run_until demo_net demo_latency 3 4000 (clicked demo_latency "/settings" 500)) =
  Some (if 4000 <? provider_ms
        then if 4000 <? 500 + 1000 then Suspend 0
             else if 4000 <? 500 + 3000 then Suspend 1 else settings_screen
        else Ready (frame blank)).
Proof. apply settings_timeline; vm_compute; lia. Defined.

Lemma about_timeline_witness :
  option_map (fun l => s_screen (session l))
    (run_until demo_net demo_latency 3 3000 (clicked demo_latency "/about" 1000)) =
  Some (if 3000 <? provider_ms
        then if 3000 <? 1000 + demo_latency "aapl" + 1000 then Suspend 0
             else about_screen (App.mkQuote "Apple" "aapl" "1.2")
        else Ready (frame blank)).
Proof. apply about_timeline; [reflexivity|vm_compute; lia..]. Defined.

Lemma about_rejected_timeline_witness :
  option_map (fun l => s_screen (session l))
    (run_until down demo_latency 2 6000 (clicked demo_latency "/about" 1000)) =
  Some (if 6000 <? provider_ms then Suspend 0 else Ready (frame blank)).
Proof. apply about_rejected_timeline; [reflexivity|vm_compute; lia..]. Defined.

Lemma settings_revisit_timeline_witness :
  option_map (fun l => (s_screen (session l), delay_fetches (s_world (session l))))
    (run_until demo_net demo_latency 4 4000 (revisited demo_latency 500 700 900)) =
  Some (if 4000 <? 500 + 1000 then (Suspend 1, 2)
        else if 4000 <? 900 + 1000 then (Suspend 2, 3)
        else if 4000 <? 500 + 3000 then (Suspend 3, 4)
        else (settings_screen, 4)).
Proof. apply settings_revisit_timeline; vm_compute; lia. Defined.

End Timeline.
